(** * Rate-aware request gateway of the edge worker

    A shallow embedding of [RateLimitTracker.ts], [IssueCache.ts],
    [RequestQueue.ts] and the activity batching of
    [LinearClientWrapper.ts], together with the properties of the
    gateway specification that they decide.

    Conventions of the embedding:
    - [Date.now()] is an explicit argument or a field [now] of the state;
    - a JavaScript string is the string of the bytes of its UTF-8
      encoding (as Rocq reads a string literal);
    - a JavaScript [number] that is produced by [parseInt] is a [number]
      below: [NaN], an infinity or an integer that is a double; arithmetic
      on it rounds as the source does. A reading of the clock is an
      integer of at most 8.64e15 in absolute value, on which the
      arithmetic of the source is exact;
    - a [Map] whose iteration order is irrelevant is a [gmap]; the issue
      cache, whose insertion order breaks eviction ties, is an
      association list;
    - a promise is an identifier into a store of [Future] states, and its
      [resolve]/[reject] closures settle that identifier once;
    - an [async] function that awaits a queued call is the function up
      to the [await] together with the function from the [await] on, which
      reads the settlement of the awaited promise in the store. *)

From Stdlib Require Import ZArith Lia Bool Ascii String DecimalString DecimalPos
  Sorted Permutation.
From stdpp Require Import gmap strings list fin_maps.

Local Open Scope string_scope.
Local Open Scope list_scope.
Local Open Scope Z_scope.

(* ===================================================================== *)
(** ** JavaScript numbers and [parseInt] *)
(* ===================================================================== *)

Module Js.

(** A JavaScript [number] whose value is an integer, an infinity or NaN.
    [Num z] is the double of value [z]; the operations below produce it
    only for integers that are doubles. The two zeros are not told apart:
    no operation of the embedded code can tell them apart. *)
Inductive number : Type :=
| NaN
| Num (z : Z)
| PosInf
| NegInf.

Definition two53 : Z := 9007199254740992.

(** The integer with a significand of 53 bits that is nearest to [z], ties
    to the even significand: IEEE-754 round-to-nearest, before overflow. *)
Definition round53 (z : Z) : Z :=
  let a := Z.abs z in
  if a <? two53 then z
  else
    let ulp := 2 ^ (Z.log2 a - 52) in
    let q := a / ulp in
    let rem := a mod ulp in
    let q' := if (ulp <? 2 * rem) || ((2 * rem =? ulp) && Z.odd q) then q + 1 else q in
    Z.sgn z * (q' * ulp).

(** The double that an operation returns when its exact result is the
    integer [z]: the nearest double, or an infinity from 2^1024 on. *)
Definition of_Z (z : Z) : number :=
  if Z.abs z <? two53 then Num z
  else
    let r := round53 z in
    if Z.abs r <? 2 ^ 1024 then Num r
    else if 0 <? z then PosInf else NegInf.

(** [a > k] and [a <= k]: every comparison with NaN is false. *)
Definition gt (a : number) (k : Z) : bool :=
  match a with
  | NaN => false
  | Num z => k <? z
  | PosInf => true
  | NegInf => false
  end.
Definition le (a : number) (k : Z) : bool :=
  match a with
  | NaN => false
  | Num z => z <=? k
  | PosInf => false
  | NegInf => true
  end.

(** [a * k] and [a - k] for an integer [k] that is a double; NaN is
    absorbing. *)
Definition mul (a : number) (k : Z) : number :=
  match a with
  | NaN => NaN
  | Num z => of_Z (z * k)
  | PosInf => if 0 <? k then PosInf else if k <? 0 then NegInf else NaN
  | NegInf => if 0 <? k then NegInf else if k <? 0 then PosInf else NaN
  end.
Definition sub (a : number) (k : Z) : number :=
  match a with
  | Num z => of_Z (z - k)
  | other => other
  end.

(** [Math.max(0, a)] and [Math.max(0, a - 1)]. *)
Definition max0 (a : number) : number :=
  match a with
  | NaN => NaN
  | Num z => Num (Z.max 0 z)
  | PosInf => PosInf
  | NegInf => Num 0
  end.
Definition max0_pred (a : number) : number := max0 (sub a 1).

(** The integer [z] is a double. *)
Definition exact (z : Z) : Prop := of_Z z = Num z.

Definition is_digit (c : ascii) : bool :=
  let n := Z.of_nat (nat_of_ascii c) in (48 <=? n) && (n <=? 57).

Definition digit_value (c : ascii) : Z := Z.of_nat (nat_of_ascii c) - 48.

(** The white space that [parseInt] skips (StrWhiteSpaceChar), as it is
    written in UTF-8: in one byte TAB, LF, VT, FF, CR and SP; in two bytes
    U+00A0; in three bytes U+1680, U+2000 to U+200A, U+2028, U+2029, U+202F,
    U+205F, U+3000 and U+FEFF. *)
Definition space1 (c : ascii) : bool :=
  let n := nat_of_ascii c in
  ((9 <=? n) && (n <=? 13))%nat || (n =? 32)%nat.

Definition space2 (c1 c2 : ascii) : bool :=
  ((nat_of_ascii c1 =? 194) && (nat_of_ascii c2 =? 160))%nat.

Definition space3 (c1 c2 c3 : ascii) : bool :=
  let n1 := nat_of_ascii c1 in
  let n2 := nat_of_ascii c2 in
  let n3 := nat_of_ascii c3 in
  ((n1 =? 225) && (n2 =? 154) && (n3 =? 128)
   || (n1 =? 226) && (n2 =? 128)
      && ((128 <=? n3) && (n3 <=? 138) || (n3 =? 168) || (n3 =? 169) || (n3 =? 175))
   || (n1 =? 226) && (n2 =? 129) && (n3 =? 159)
   || (n1 =? 227) && (n2 =? 128) && (n3 =? 128)
   || (n1 =? 239) && (n2 =? 187) && (n3 =? 191))%nat.

Fixpoint skip_space (s : string) : string :=
  match s with
  | String c1 r1 =>
      if space1 c1 then skip_space r1
      else
        match r1 with
        | String c2 r2 =>
            if space2 c1 c2 then skip_space r2
            else
              match r2 with
              | String c3 r3 => if space3 c1 c2 c3 then skip_space r3 else s
              | EmptyString => s
              end
        | EmptyString => s
        end
  | EmptyString => s
  end.

(** Value of the longest prefix of decimal digits, accumulated left to
    right. *)
Fixpoint digits_value (acc : Z) (s : string) : Z :=
  match s with
  | String c r => if is_digit c then digits_value (10 * acc + digit_value c) r else acc
  | EmptyString => acc
  end.

Definition starts_with_digit (s : string) : bool :=
  match s with
  | String c _ => is_digit c
  | EmptyString => false
  end.

(** [parseInt(s, 10)]: leading white space, an optional sign, then the
    longest run of digits, whose value is rounded to a double; NaN when
    that run is empty. *)
Definition parseInt (s : string) : number :=
  let s1 := skip_space s in
  let '(sign, s2) :=
    match s1 with
    | String c r =>
        if Ascii.eqb c "-" then (-1, r)
        else if Ascii.eqb c "+" then (1, r)
        else (1, s1)
    | EmptyString => (1, s1)
    end in
  if starts_with_digit s2 then of_Z (sign * digits_value 0 s2) else NaN.

(** [String(n)] and template interpolation of an integer below 10^21: its
    decimal numeral. *)
Definition to_string (z : Z) : string := NilZero.string_of_int (Z.to_int z).

(** [hay.includes(needle)]. On UTF-8 a byte-wise search finds the
    occurrences of a well-formed needle in a well-formed string. *)
Fixpoint includes (needle hay : string) : bool :=
  String.prefix needle hay ||
  match hay with
  | String _ r => includes needle r
  | EmptyString => false
  end.

End Js.

Export Js (number, NaN, Num, PosInf, NegInf).

(* ===================================================================== *)
(** ** RateLimitTracker.ts *)
(* ===================================================================== *)

Inductive RequestPriority : Type := critical | normal | low.

Inductive OperationMode : Type := normal_mode | conservative | emergency.

Definition OperationMode_eqb (a b : OperationMode) : bool :=
  match a, b with
  | normal_mode, normal_mode | conservative, conservative | emergency, emergency => true
  | _, _ => false
  end.

Module RateLimitTracker.

(** A header value is a string or an array of strings. *)
Inductive HeaderValue : Type :=
| Single (s : string)
| Many (l : list string).

Record t : Type := mk {
  requestsRemaining : number;
  requestsLimit : number;
  resetTimestamp : number;
  complexityRemaining : number;
  complexityLimit : number;
  requestHistory : list Z
}.

Definition HISTORY_WINDOW_MS : Z := 60000.
Definition EMERGENCY_THRESHOLD : Z := 100.
Definition CONSERVATIVE_THRESHOLD : Z := 300.
Definition CRITICAL_OPERATION_RESERVE : Z := 50.

(** Field initialisers of the class; [now] is [Date.now()] at construction. *)
Definition init (now : Z) : t :=
  {| requestsRemaining := Num 1200;
     requestsLimit := Num 1200;
     resetTimestamp := Num (now + 3600000);
     complexityRemaining := Num 50000;
     complexityLimit := Num 50000;
     requestHistory := [] |}.

(** The closure [getHeaderValue] of [updateFromHeaders]: [undefined] is
    [None]; the first element of an empty array is [undefined] as well. *)
Definition getHeaderValue (headers : gmap string HeaderValue) (key : string)
  : option string :=
  match headers !! key with
  | Some (Many l) => head l
  | Some (Single s) => Some s
  | None => None
  end.

Definition trackRequest (now : Z) (tr : t) : t :=
  let cutoff := now - HISTORY_WINDOW_MS in
  {| requestsRemaining := requestsRemaining tr;
     requestsLimit := requestsLimit tr;
     resetTimestamp := resetTimestamp tr;
     complexityRemaining := complexityRemaining tr;
     complexityLimit := complexityLimit tr;
     requestHistory :=
       List.filter (fun ts => cutoff <? ts) (requestHistory tr ++ [now]) |}.

(** [if (v !== undefined) field = parseInt(v, 10)] *)
Definition assign (v : option string) (prior : number) : number :=
  match v with
  | Some s => Js.parseInt s
  | None => prior
  end.

Definition updateFromHeaders (headers : gmap string HeaderValue) (now : Z) (tr : t) : t :=
  let requestsRemaining' := getHeaderValue headers "x-ratelimit-requests-remaining" in
  let requestsLimit' := getHeaderValue headers "x-ratelimit-requests-limit" in
  let requestsReset := getHeaderValue headers "x-ratelimit-requests-reset" in
  let complexityRemaining' := getHeaderValue headers "x-ratelimit-complexity-remaining" in
  let complexityLimit' := getHeaderValue headers "x-ratelimit-complexity-limit" in
  trackRequest now
    {| requestsRemaining := assign requestsRemaining' (requestsRemaining tr);
       requestsLimit := assign requestsLimit' (requestsLimit tr);
       resetTimestamp :=
         match requestsReset with
         | Some s => Js.mul (Js.parseInt s) 1000
         | None => resetTimestamp tr
         end;
       complexityRemaining := assign complexityRemaining' (complexityRemaining tr);
       complexityLimit := assign complexityLimit' (complexityLimit tr);
       requestHistory := requestHistory tr |}.

Definition consumeRequest (now : Z) (tr : t) : t :=
  trackRequest now
    {| requestsRemaining := Js.max0_pred (requestsRemaining tr);
       requestsLimit := requestsLimit tr;
       resetTimestamp := resetTimestamp tr;
       complexityRemaining := complexityRemaining tr;
       complexityLimit := complexityLimit tr;
       requestHistory := requestHistory tr |}.

Definition shouldAllowRequest (tr : t) (priority : RequestPriority) : bool :=
  if Js.gt (requestsRemaining tr) CONSERVATIVE_THRESHOLD then true
  else if Js.le (requestsRemaining tr) EMERGENCY_THRESHOLD then
    match priority with critical => true | _ => false end
  else if Js.le (requestsRemaining tr) CONSERVATIVE_THRESHOLD then
    match priority with low => false | _ => true end
  else true.

Definition getRecommendedBatchWindow (tr : t) : Z :=
  if Js.gt (requestsRemaining tr) CONSERVATIVE_THRESHOLD then 500
  else if Js.gt (requestsRemaining tr) EMERGENCY_THRESHOLD then 2000
  else 5000.

Definition getOperationMode (tr : t) : OperationMode :=
  if Js.gt (requestsRemaining tr) CONSERVATIVE_THRESHOLD then normal_mode
  else if Js.gt (requestsRemaining tr) EMERGENCY_THRESHOLD then conservative
  else emergency.

(** The invariant of the quota state in the specification. *)
Definition quota_inv (tr : t) : Prop :=
  exists r l, requestsRemaining tr = Num r /\ requestsLimit tr = Num l /\ 0 <= r <= l.

(** The public mutators, as a trace alphabet. *)
Inductive op : Type :=
| Update (headers : gmap string HeaderValue) (now : Z)
| Consume (now : Z).

Definition step (tr : t) (o : op) : t :=
  match o with
  | Update headers now => updateFromHeaders headers now tr
  | Consume now => consumeRequest now tr
  end.

Definition run (ops : list op) (tr : t) : t := fold_left step ops tr.

(** [remaining] and [limit] are integers with [0 <= remaining <= limit]. *)
Definition in_range (remaining limit : number) : Prop :=
  exists r l, remaining = Num r /\ limit = Num l /\ 0 <= r <= l.

(** Headers whose report leaves the request quota in range, in the state
    [tr] in which they arrive: a reported remaining count is between 0 and
    the limit that then holds (the reported limit, or the current one when
    none is reported), and a limit that is reported alone is not below the
    current remaining count. Headers that report neither are in range. *)
Definition coherent (tr : t) (headers : gmap string HeaderValue) : Prop :=
  match getHeaderValue headers "x-ratelimit-requests-remaining",
        getHeaderValue headers "x-ratelimit-requests-limit" with
  | Some r, Some l => in_range (Js.parseInt r) (Js.parseInt l)
  | Some r, None => in_range (Js.parseInt r) (requestsLimit tr)
  | None, Some l => in_range (requestsRemaining tr) (Js.parseInt l)
  | None, None => True
  end.

Definition op_coherent (tr : t) (o : op) : Prop :=
  match o with
  | Update headers _ => coherent tr headers
  | Consume _ => True
  end.

(** Every update of the trace is in range in the state that it meets. *)
Fixpoint coherent_trace (tr : t) (ops : list op) : Prop :=
  match ops with
  | [] => True
  | o :: rest => op_coherent tr o /\ coherent_trace (step tr o) rest
  end.

(** The remaining count, when it is an integer, is a double. *)
Definition remaining_exact (tr : t) : Prop :=
  forall r, requestsRemaining tr = Num r -> Js.exact r.

(** How [updateFromHeaders] treats one field whose header value is [v]:
    left alone when the header is missing, otherwise set to what [parseInt]
    makes of the value (times [scale]); so a decimal numeral sets the
    integer, as long as the integer and its product are below 2^53, and a
    value that does not parse sets NaN. *)
Definition field_rule (v : option string) (scale : Z) (prior new : number) : Prop :=
  (v = None -> new = prior) /\
  (forall s, v = Some s -> new = Js.mul (Js.parseInt s) scale) /\
  (forall z, v = Some (Js.to_string z) ->
     Z.abs z < Js.two53 -> Z.abs (z * scale) < Js.two53 -> new = Num (z * scale)) /\
  (forall s, v = Some s -> Js.parseInt s = NaN -> new = NaN).

End RateLimitTracker.

(* ===================================================================== *)
(** ** IssueCache.ts *)
(* ===================================================================== *)

Module IssueCache.

(** The part of the SDK's issue record that the cache reads. *)
Record LinearIssue : Type := mkIssue {
  id : option string;
  title : string
}.

Record CachedIssue : Type := mkCached {
  issue : LinearIssue;
  timestamp : Z;
  ttl : Z;
  accessCount : Z;
  lastAccessed : Z
}.

(** [Map<string, CachedIssue>] in insertion order. *)
Definition t : Type := list (string * CachedIssue).

Definition DEFAULT_TTL : Z := 600000.
Definition EXTENDED_TTL : Z := 1800000.
Definition STALE_TTL : Z := 3600000.
Definition MAX_CACHE_SIZE : nat := 100.

(** [Map.prototype.get] *)
Fixpoint lookup (key : string) (c : t) : option CachedIssue :=
  match c with
  | [] => None
  | (k, e) :: r => if String.eqb k key then Some e else lookup key r
  end.

(** Writing to the object stored under [key]; the entry keeps its place. *)
Fixpoint store (key : string) (e : CachedIssue) (c : t) : t :=
  match c with
  | [] => []
  | (k, x) :: r =>
      if String.eqb k key then (k, e) :: r else (k, x) :: store key e r
  end.

(** [Map.prototype.set]: a new key goes last, a known key keeps its place. *)
Definition map_set (key : string) (e : CachedIssue) (c : t) : t :=
  match lookup key c with
  | Some _ => store key e c
  | None => c ++ [(key, e)]
  end.

(** [Map.prototype.delete] *)
Fixpoint delete (key : string) (c : t) : t :=
  match c with
  | [] => []
  | (k, x) :: r => if String.eqb k key then r else (k, x) :: delete key r
  end.

(** The access tracking of [get]: [accessCount++; lastAccessed = now]. *)
Definition touch (now : Z) (e : CachedIssue) : CachedIssue :=
  {| issue := issue e;
     timestamp := timestamp e;
     ttl := ttl e;
     accessCount := accessCount e + 1;
     lastAccessed := now |}.

Definition get (issueId : string) (allowStale : bool) (now : Z) (c : t)
  : option LinearIssue * t :=
  match lookup issueId c with
  | None => (None, c)
  | Some cached =>
      let age := now - timestamp cached in
      let c' := store issueId (touch now cached) c in
      if age <=? ttl cached then (Some (issue cached), c')
      else if allowStale && (age <=? STALE_TTL) then (Some (issue cached), c')
      else (None, c')
  end.

(** A stable sort by [lastAccessed], as [Array.prototype.sort] with the
    comparator [a[1].lastAccessed - b[1].lastAccessed]. *)
Fixpoint insert_entry (x : string * CachedIssue) (l : t) : t :=
  match l with
  | [] => [x]
  | y :: r =>
      if lastAccessed (snd x) <=? lastAccessed (snd y) then x :: y :: r
      else y :: insert_entry x r
  end.

Definition sort_entries (c : t) : t := fold_right insert_entry [] c.

Definition evictIfNeeded (c : t) : t :=
  if (length c <=? MAX_CACHE_SIZE)%nat then c
  else
    let entries := sort_entries c in
    let toRemove := (length c - MAX_CACHE_SIZE + 10)%nat in
    fold_left (fun m entry => delete (fst entry) m) (take toRemove entries) c.

Definition set (issueId : string) (i : LinearIssue) (now : Z) (c : t) : t :=
  let existing := lookup issueId c in
  let ttl' :=
    match existing with
    | Some e => if 5 <? accessCount e then EXTENDED_TTL else DEFAULT_TTL
    | None => DEFAULT_TTL
    end in
  evictIfNeeded
    (map_set issueId
       {| issue := i;
          timestamp := now;
          ttl := ttl';
          accessCount := match existing with Some e => accessCount e | None => 0 end;
          lastAccessed := now |} c).

Definition invalidate (issueId : string) (c : t) : t := delete issueId c.

Definition invalidateAll (c : t) : t := [].

Definition warm (issues : list LinearIssue) (now : Z) (c : t) : t :=
  fold_left
    (fun m i =>
       match id i with
       | Some k => if String.eqb k "" then m else set k i now m
       | None => m
       end) issues c.

Definition needsRefresh (issueId : string) (now : Z) (c : t) : bool :=
  match lookup issueId c with
  | None => true
  | Some cached => ttl cached <? now - timestamp cached
  end.

Definition updateTTL (issueId : string) (c : t) : t :=
  match lookup issueId c with
  | None => c
  | Some cached =>
      if 10 <? accessCount cached then
        store issueId
          {| issue := issue cached;
             timestamp := timestamp cached;
             ttl := EXTENDED_TTL;
             accessCount := accessCount cached;
             lastAccessed := lastAccessed cached |} c
      else c
  end.

(** Every time-to-live in the cache is one of the two tiers. *)
Definition tiered (c : t) : Prop :=
  Forall (fun kv => ttl (snd kv) = DEFAULT_TTL \/ ttl (snd kv) = EXTENDED_TTL) c.

End IssueCache.

(* ===================================================================== *)
(** ** RequestQueue.ts *)
(* ===================================================================== *)

Module RequestQueue.

(** Results of remote calls are opaque to the gateway. *)
Definition Value : Type := string.

(** A thrown error object: its optional [message], its optional HTTP
    [status] and the reset hint that it may carry in its headers. *)
Record Error : Type := mkError {
  message : option string;
  status : option Z;
  resetHeader : option string
}.

(** How an awaited call settles. *)
Inductive Outcome : Type :=
| Fulfilled (v : Value)
| Thrown (e : Error).

Inductive Future : Type :=
| Pending
| Resolved (v : Value)
| Rejected (e : Error).

(** An executor closure [() => Promise<any>]. Its [k]-th invocation
    (counted from 0) reads and may update the shared tracker and settles
    with an outcome; the await of the executor is atomic in this model. *)
Definition Executor : Type :=
  nat -> RateLimitTracker.t -> Z -> Outcome * RateLimitTracker.t.

(** [id] stands for the random identifier string and names the promise
    whose [resolve] and [reject] closures the request holds; [invoked]
    is the hidden state of the executor closure. *)
Record QueuedRequest : Type := mkRequest {
  id : nat;
  priority : RequestPriority;
  execute : Executor;
  timestamp : Z;
  retryCount : nat;
  invoked : nat
}.

(** Callbacks handed to [setTimeout]: the processing pass, the re-queueing
    of a retried request, and timers owned by another component. *)
Inductive Callback : Type :=
| ProcessQueue
| Requeue (request : QueuedRequest)
| External (tag : string).

Record Timer : Type := mkTimer {
  handle : nat;
  due : Z;
  callback : Callback
}.

(** The queue object together with the part of the runtime it acts on:
    the clock, the pending timers and the promise store. *)
Record t : Type := mk {
  now : Z;
  tracker : RateLimitTracker.t;
  queue : list QueuedRequest;
  processing : bool;
  batchTimer : option nat;
  lastProcessTime : Z;
  timers : list Timer;
  nextHandle : nat;
  futures : gmap nat Future;
  nextId : nat
}.

Definition MAX_RETRIES : nat := 3.
Definition BASE_RETRY_DELAY : Z := 1000.

Definition init (now0 : Z) (tr : RateLimitTracker.t) : t :=
  mk now0 tr [] false None 0 [] 0 ∅ 0.

Definition with_now (x : Z) (st : t) : t :=
  mk x (tracker st) (queue st) (processing st) (batchTimer st)
     (lastProcessTime st) (timers st) (nextHandle st) (futures st) (nextId st).
Definition with_tracker (x : RateLimitTracker.t) (st : t) : t :=
  mk (now st) x (queue st) (processing st) (batchTimer st)
     (lastProcessTime st) (timers st) (nextHandle st) (futures st) (nextId st).
Definition with_queue (x : list QueuedRequest) (st : t) : t :=
  mk (now st) (tracker st) x (processing st) (batchTimer st)
     (lastProcessTime st) (timers st) (nextHandle st) (futures st) (nextId st).
Definition with_processing (x : bool) (st : t) : t :=
  mk (now st) (tracker st) (queue st) x (batchTimer st)
     (lastProcessTime st) (timers st) (nextHandle st) (futures st) (nextId st).
Definition with_batchTimer (x : option nat) (st : t) : t :=
  mk (now st) (tracker st) (queue st) (processing st) x
     (lastProcessTime st) (timers st) (nextHandle st) (futures st) (nextId st).
Definition with_lastProcessTime (x : Z) (st : t) : t :=
  mk (now st) (tracker st) (queue st) (processing st) (batchTimer st)
     x (timers st) (nextHandle st) (futures st) (nextId st).
Definition with_timers (x : list Timer) (st : t) : t :=
  mk (now st) (tracker st) (queue st) (processing st) (batchTimer st)
     (lastProcessTime st) x (nextHandle st) (futures st) (nextId st).
Definition with_nextHandle (x : nat) (st : t) : t :=
  mk (now st) (tracker st) (queue st) (processing st) (batchTimer st)
     (lastProcessTime st) (timers st) x (futures st) (nextId st).
Definition with_futures (x : gmap nat Future) (st : t) : t :=
  mk (now st) (tracker st) (queue st) (processing st) (batchTimer st)
     (lastProcessTime st) (timers st) (nextHandle st) x (nextId st).
Definition with_nextId (x : nat) (st : t) : t :=
  mk (now st) (tracker st) (queue st) (processing st) (batchTimer st)
     (lastProcessTime st) (timers st) (nextHandle st) (futures st) x.

(** [new Promise(...)]: a fresh pending promise. *)
Definition newPromise (st : t) : nat * t :=
  (nextId st,
   with_nextId (S (nextId st))
     (with_futures (<[nextId st := Pending]> (futures st)) st)).

(** The [resolve] and [reject] closures of promise [p]: settling a promise
    that is already settled does nothing. *)
Definition settle (p : nat) (f : Future) (fs : gmap nat Future) : gmap nat Future :=
  match fs !! p with
  | Some Pending => <[p := f]> fs
  | _ => fs
  end.
Definition resolve (p : nat) (v : Value) (st : t) : t :=
  with_futures (settle p (Resolved v) (futures st)) st.
Definition reject (p : nat) (e : Error) (st : t) : t :=
  with_futures (settle p (Rejected e) (futures st)) st.

(** [setTimeout(cb, delay)] and [clearTimeout(h)]. *)
Definition setTimeout (cb : Callback) (delay : Z) (st : t) : nat * t :=
  (nextHandle st,
   with_nextHandle (S (nextHandle st))
     (with_timers (timers st ++ [mkTimer (nextHandle st) (now st + delay) cb]) st)).
Definition clearTimeout (h : nat) (st : t) : t :=
  with_timers (List.filter (fun tm => negb (handle tm =? h)%nat) (timers st)) st.

Definition priorityOrder (p : RequestPriority) : nat :=
  match p with critical => 0 | normal => 1 | low => 2 end.

(** The search loop of [insertByPriority]: the first index whose request
    has a strictly larger priority order, or the length of the queue. *)
Fixpoint insertIndex (insertPriority : nat) (q : list QueuedRequest) : nat :=
  match q with
  | [] => 0
  | queueItem :: r =>
      if (insertPriority <? priorityOrder (priority queueItem))%nat then 0
      else S (insertIndex insertPriority r)
  end.

(** [queue.splice(insertIndex, 0, request)] *)
Definition insertByPriority (request : QueuedRequest) (st : t) : t :=
  let i := insertIndex (priorityOrder (priority request)) (queue st) in
  with_queue (take i (queue st) ++ request :: drop i (queue st)) st.

Definition scheduleProcessing (st : t) : t :=
  match batchTimer st with
  | Some _ => st
  | None =>
      let batchWindow := RateLimitTracker.getRecommendedBatchWindow (tracker st) in
      let timeSinceLastProcess := now st - lastProcessTime st in
      let delay := Z.max 0 (batchWindow - timeSinceLastProcess) in
      let '(h, st') := setTimeout ProcessQueue delay st in
      with_batchTimer (Some h) st'
  end.

Definition enqueue (exec : Executor) (p : RequestPriority) (st : t) : nat * t :=
  let '(i, st1) := newPromise st in
  let request := mkRequest i p exec (now st) 0 0 in
  (i, scheduleProcessing (insertByPriority request st1)).

(** [error.message?.includes('rate limit')] *)
Definition isRateLimitError (e : Error) : bool :=
  match message e with
  | Some m => Js.includes "rate limit" m
  | None => false
  end.

Definition executeRequest (request : QueuedRequest) (st : t) : t :=
  let '(out, tr) := execute request (invoked request) (tracker st) (now st) in
  let st1 := with_tracker tr st in
  match out with
  | Fulfilled result => resolve (id request) result st1
  | Thrown error =>
      if isRateLimitError error && (retryCount request <? MAX_RETRIES)%nat then
        let retryDelay := BASE_RETRY_DELAY * 2 ^ Z.of_nat (retryCount request) in
        let request' :=
          mkRequest (id request) (priority request) (execute request)
            (timestamp request) (S (retryCount request)) (S (invoked request)) in
        snd (setTimeout (Requeue request') retryDelay st1)
      else reject (id request) error st1
  end.

(** The [while] loop of [processQueue]. The loop has no bound of its own,
    so the embedding runs it on [fuel] iterations; [None] means that the
    fuel did not suffice. *)
Fixpoint processLoop (fuel : nat) (maxBatchSize processedCount : nat) (st : t)
  : option t :=
  match fuel with
  | O => None
  | S fuel' =>
      match queue st with
      | [] => Some st
      | request :: rest =>
          if (processedCount <? maxBatchSize)%nat then
            if negb (RateLimitTracker.shouldAllowRequest (tracker st) (priority request))
            then
              match priority request with
              | low =>
                  (* shift, push, continue *)
                  processLoop fuel' maxBatchSize processedCount
                    (with_queue (rest ++ [request]) st)
              | _ => Some st (* break *)
              end
            else
              processLoop fuel' maxBatchSize (S processedCount)
                (executeRequest request (with_queue rest st))
          else Some st
      end
  end.

Definition maxBatchSize (mode : OperationMode) : nat :=
  match mode with
  | normal_mode => 5
  | conservative => 2
  | emergency => 1
  end.

Definition processQueue (fuel : nat) (st : t) : option t :=
  if processing st || (length (queue st) =? 0)%nat then Some st
  else
    let st1 := with_lastProcessTime (now st) (with_processing true st) in
    let mode := RateLimitTracker.getOperationMode (tracker st1) in
    match processLoop fuel (maxBatchSize mode) 0 st1 with
    | None => None
    | Some st2 =>
        let st3 := if (0 <? length (queue st2))%nat then scheduleProcessing st2 else st2 in
        Some (with_processing false st3)
    end.

Definition clear (st : t) : t :=
  let st1 :=
    fold_left
      (fun s request => reject (id request) (mkError (Some "Queue cleared") None None) s)
      (queue st) st in
  let st2 := with_queue [] st1 in
  match batchTimer st2 with
  | Some h => with_batchTimer None (clearTimeout h st2)
  | None => st2
  end.

(** *** The timer loop of the runtime *)

(** The pending timer that is due first; among equal due times the one
    that was set first. *)
Fixpoint earliest (best : Timer) (l : list Timer) : Timer :=
  match l with
  | [] => best
  | x :: r => earliest (if due x <? due best then x else best) r
  end.

Definition nextTimer (st : t) : option Timer :=
  match timers st with
  | [] => None
  | x :: r => Some (earliest x r)
  end.

(** Run the callback of timer [tm] at its due time. *)
Definition fire (fuel : nat) (tm : Timer) (st : t) : option t :=
  let st1 := clearTimeout (handle tm) (with_now (Z.max (now st) (due tm)) st) in
  match callback tm with
  | ProcessQueue => processQueue fuel (with_batchTimer None st1)
  | Requeue request => Some (scheduleProcessing (insertByPriority request st1))
  | External _ => Some st1
  end.

(** Fire up to [n] timers in due order; stop when none is pending. *)
Fixpoint runTimers (n fuel : nat) (st : t) : option t :=
  match n with
  | O => Some st
  | S n' =>
      match nextTimer st with
      | None => Some st
      | Some tm =>
          match fire fuel tm st with
          | None => None
          | Some st' => runTimers n' fuel st'
          end
      end
  end.

End RequestQueue.

(* ===================================================================== *)
(** ** LinearClientWrapper.ts: agent activities *)
(* ===================================================================== *)

Module LinearClientWrapper.

Import RequestQueue (Value, Error, Outcome, Fulfilled, Thrown,
                     Future, Pending, Resolved, Rejected).

Record Content : Type := mkContent {
  type : string;
  body : string
}.

Record ActivityInput : Type := mkInput {
  agentSessionId : string;
  content : option Content
}.

(** An element of [activityBatch.get(sessionId)]; [promise] names the
    promise whose [resolve] and [reject] closures the element holds. *)
Record BatchItem : Type := mkItem {
  activity : ActivityInput;
  promise : nat
}.

(** The wrapper instance with the shared queue (and runtime) [rq]. *)
Record t : Type := mk {
  rq : RequestQueue.t;
  activityBatch : gmap string (list BatchItem);
  batchTimers : gmap string nat
}.

Definition with_rq (q : RequestQueue.t) (w : t) : t :=
  mk q (activityBatch w) (batchTimers w).

(** [input.content?.type === ty] *)
Definition has_type (input : ActivityInput) (ty : string) : bool :=
  match content input with
  | Some c => String.eqb (type c) ty
  | None => false
  end.

(** [determinePriority] at the method names of this development, none of
    which is ['issue'] (the only branch that consults the issue cache). *)
Definition determinePriority (methodName : string) (input : ActivityInput)
  : RequestPriority :=
  if String.eqb methodName "createAgentActivity" then
    if has_type input "response" || has_type input "error" then normal else low
  else normal.

(** The closure that [executeWithTracking] hands to the queue. [operation]
    gives the settlement of the [k]-th run of the remote call. *)
Definition tracked (operation : nat -> Outcome) : RequestQueue.Executor :=
  fun k tr now =>
    match operation k with
    | Fulfilled response => (Fulfilled response, RateLimitTracker.consumeRequest now tr)
    | Thrown error =>
        let isLimit :=
          match RequestQueue.message error with
          | Some m => Js.includes "rate limit" m || Js.includes "429" m
          | None => false
          end
          || match RequestQueue.status error with
             | Some c => c =? 429
             | None => false
             end in
        if isLimit then
          let fallback := Js.to_string ((now + 3600000) / 1000) in
          let resetSeconds :=
            match RequestQueue.resetHeader error with
            | Some h => if String.eqb h "" then fallback else h
            | None => fallback
            end in
          (Thrown error,
           RateLimitTracker.updateFromHeaders
             (<["x-ratelimit-requests-remaining" := RateLimitTracker.Single "0"]>
                {["x-ratelimit-requests-reset" := RateLimitTracker.Single resetSeconds]})
             now tr)
        else (Thrown error, tr)
    end.

(** The promise returned by [executeWithTracking] settles as the promise
    of [enqueue] does; the model identifies the two. *)
Definition executeWithTracking (operation : nat -> Outcome) (methodName : string)
    (input : ActivityInput) (w : t) : nat * t :=
  let priority := determinePriority methodName input in
  let '(p, q) := RequestQueue.enqueue (tracked operation) priority (rq w) in
  (p, with_rq q w).

Definition shouldBatchActivity (input : ActivityInput) (operationMode : OperationMode)
  : bool :=
  if OperationMode_eqb operationMode emergency then true
  else if OperationMode_eqb operationMode conservative && has_type input "thought" then true
  else if has_type input "response" || has_type input "error" then false
  else if has_type input "thought" then true
  else false.

Definition batchAgentActivity (sessionId : string) (a : ActivityInput)
    (batchWindow : Z) (w : t) : nat * t :=
  let '(p, q1) := RequestQueue.newPromise (rq w) in
  let items := default [] (activityBatch w !! sessionId) ++ [mkItem a p] in
  let q2 :=
    match batchTimers w !! sessionId with
    | Some existingTimer => RequestQueue.clearTimeout existingTimer q1
    | None => q1
    end in
  let '(timer, q3) := RequestQueue.setTimeout (RequestQueue.External sessionId) batchWindow q2 in
  (p, mk q3 (<[sessionId := items]> (activityBatch w))
            (<[sessionId := timer]> (batchTimers w))).

Definition newline : string := String (ascii_of_nat 10) "".

(** [thoughts.map((t, i) => `${i + 1}. ${t}`)] from index [i] on. *)
Fixpoint numbered (i : nat) (thoughts : list string) : list string :=
  match thoughts with
  | [] => []
  | x :: r => (Js.to_string (Z.of_nat i + 1) ++ ". " ++ x)%string :: numbered (S i) r
  end.

Definition combinedBody (thoughts : list string) : string :=
  match thoughts with
  | [x] => x
  | _ => String.concat newline (numbered 0 thoughts)
  end.

Definition isThought (item : BatchItem) : bool := has_type (activity item) "thought".

Definition thoughtBody (item : BatchItem) : string :=
  match content (activity item) with
  | Some c => body c
  | None => ""
  end.

Definition mergedPayload (sessionId : string) (thoughts : list string) : ActivityInput :=
  mkInput sessionId (Some (mkContent "thought" (combinedBody thoughts))).

Definition rejectAll (callbacks : list nat) (error : Error) (fs : gmap nat Future)
  : gmap nat Future :=
  fold_left (fun m p => RequestQueue.settle p (Rejected error) m) callbacks fs.

Definition resolveAll (callbacks : list nat) (result : Value) (fs : gmap nat Future)
  : gmap nat Future :=
  fold_left (fun m p => RequestQueue.settle p (Resolved result) m) callbacks fs.

(** A call of [processBatchedActivities] that is suspended at one of its
    [await this.executeWithTracking(...)]: the promise that it awaits, the
    callback of the entry whose call that is ([None] for the merged call),
    the callbacks of the batch, and the entries that the loop over
    [otherActivities] has still to send. *)
Record Flush : Type := mkFlush {
  awaited : nat;
  current : option nat;
  thoughtCallbacks : list nat;
  otherCallbacks : list nat;
  toSend : list BatchItem
}.

Section Remote.

(** [super.createAgentActivity(input)]: the settlement of its [k]-th run. *)
Variable remote : ActivityInput -> nat -> Outcome.

Definition createAgentActivity (input : ActivityInput) (w : t) : nat * t :=
  let sessionId := agentSessionId input in
  let batchWindow := RateLimitTracker.getRecommendedBatchWindow (RequestQueue.tracker (rq w)) in
  let operationMode := RateLimitTracker.getOperationMode (RequestQueue.tracker (rq w)) in
  if shouldBatchActivity input operationMode then
    batchAgentActivity sessionId input batchWindow w
  else
    executeWithTracking (remote input) "createAgentActivity" input w.

(** The loop over [otherActivities], up to its next [await]: the call of
    the next entry is handed to the queue, and the flush waits for it. *)
Definition sendNext (thoughtCbs otherCbs : list nat) (others : list BatchItem) (w : t)
  : t * option Flush :=
  match others with
  | [] => (w, None)
  | item :: r =>
      let '(p, w') :=
        executeWithTracking (remote (activity item)) "createAgentActivity" (activity item) w in
      (w', Some (mkFlush p (Some (promise item)) thoughtCbs otherCbs r))
  end.

(** [processBatchedActivities] up to its first [await]; [None] when it
    returns without awaiting anything. *)
Definition processBatchedActivities (sessionId : string) (w : t) : t * option Flush :=
  match activityBatch w !! sessionId with
  | None | Some [] => (w, None)
  | Some items =>
      let w0 := mk (rq w) (delete sessionId (activityBatch w)) (batchTimers w) in
      let thoughtItems := List.filter isThought items in
      let otherItems := List.filter (fun i => negb (isThought i)) items in
      let thoughts := List.map thoughtBody thoughtItems in
      let thoughtCbs := List.map promise thoughtItems in
      let otherCbs := List.map promise otherItems in
      match thoughts with
      | [] => sendNext thoughtCbs otherCbs otherItems w0
      | _ =>
          let '(p, w1) :=
            executeWithTracking (remote (mergedPayload sessionId thoughts))
              "createAgentActivity"
              (mkInput sessionId (Some (mkContent "thought" ""))) w0 in
          (w1, Some (mkFlush p None thoughtCbs otherCbs otherItems))
      end
  end.

(** The suspended flush [f] goes on, from the [await] to the next one or
    to the end. When the awaited promise is resolved, the callbacks of the
    call are resolved with its result and the loop goes on; when it is
    rejected, the [catch] rejects all callbacks of the batch; while it is
    pending, the flush stays where it is. *)
Definition resume (f : Flush) (w : t) : t * option Flush :=
  let fs := RequestQueue.futures (rq w) in
  match fs !! awaited f with
  | Some (Resolved result) =>
      let fs' :=
        match current f with
        | None => resolveAll (thoughtCallbacks f) result fs
        | Some callback => RequestQueue.settle callback (Resolved result) fs
        end in
      sendNext (thoughtCallbacks f) (otherCallbacks f) (toSend f)
        (with_rq (RequestQueue.with_futures fs' (rq w)) w)
  | Some (Rejected error) =>
      (with_rq
         (RequestQueue.with_futures
            (rejectAll (thoughtCallbacks f ++ otherCallbacks f) error fs) (rq w)) w,
       None)
  | _ => (w, Some f)
  end.

(** The callback of a session's flush timer. *)
Definition flushTimer (sessionId : string) (w : t) : t * option Flush :=
  let '(w', f) := processBatchedActivities sessionId w in
  (mk (rq w') (activityBatch w') (delete sessionId (batchTimers w')), f).

End Remote.

Definition init (now0 : Z) (tr : RateLimitTracker.t) : t :=
  mk (RequestQueue.init now0 tr) ∅ ∅.

Definition cleanup (w : t) : t :=
  mk (map_fold (fun _ timer q => RequestQueue.clearTimeout timer q) (rq w) (batchTimers w))
     ∅ ∅.

End LinearClientWrapper.

(* ===================================================================== *)
(** ** The wrapper in the timer loop *)
(* ===================================================================== *)

Module Gateway.

Import RequestQueue (Value, Error, Outcome, Fulfilled, Thrown,
                     Future, Pending, Resolved, Rejected).
Import LinearClientWrapper.

(** One wrapper instance on its queue and tracker, together with the
    calls of [processBatchedActivities] that are suspended at an [await]. *)
Record t : Type := mk {
  wrapper : LinearClientWrapper.t;
  flushes : list Flush
}.

(** The first wrapper of the process: [getSharedInstances] makes a new
    tracker, queue and cache. *)
Definition init (now0 : Z) : t :=
  mk (LinearClientWrapper.init now0 (RateLimitTracker.init now0)) [].

(** What the callers and the runtime do, one after the other: a call of
    [createAgentActivity] or of another method of the wrapper at a reading
    of the clock, [cleanup], and the firing of the timer that is due next.
    Another method ([issue], [updateIssue], [createComment], [comments],
    [workflowStates], [comment]) hands its remote call to
    [executeWithTracking], which queues it at the priority that
    [determinePriority] gives it. *)
Inductive Action : Type :=
| CreateAgentActivity (now : Z) (input : ActivityInput)
| Other (now : Z) (operation : nat -> Outcome) (priority : RequestPriority)
| Cleanup
| NextTimer (fuel : nat).

Definition clock (now : Z) (w : LinearClientWrapper.t) : LinearClientWrapper.t :=
  with_rq (RequestQueue.with_now now (rq w)) w.

Section Remote.

Variable remote : ActivityInput -> nat -> Outcome.

(** The suspended flushes go on, in the order in which they began. A
    promise that a flush awaits is the promise of a queued call and no
    callback of a batch, so that one round reaches every flush whose call
    has settled. *)
Fixpoint resumeAll (fl : list Flush) (w : LinearClientWrapper.t)
  : LinearClientWrapper.t * list Flush :=
  match fl with
  | [] => (w, [])
  | f :: r =>
      let '(w1, f') := resume remote f w in
      let '(w2, r') := resumeAll r w1 in
      (w2, option_list f' ++ r')
  end.

(** Timer [tm] fires. A flush timer runs [processBatchedActivities] up to
    its first [await]; a timer of the queue runs the queue's callback, and
    the flushes whose awaited call that callback has settled go on when it
    has ended (the awaits inside the pass are atomic). [None] when the
    pass of the queue does not end. *)
Definition fire (fuel : nat) (tm : RequestQueue.Timer) (x : t) : option t :=
  match RequestQueue.fire fuel tm (rq (wrapper x)) with
  | None => None
  | Some q =>
      let w := with_rq q (wrapper x) in
      match RequestQueue.callback tm with
      | RequestQueue.External sessionId =>
          let '(w', f) := flushTimer remote sessionId w in
          Some (mk w' (flushes x ++ option_list f))
      | _ =>
          let '(w', fl) := resumeAll (flushes x) w in
          Some (mk w' fl)
      end
  end.

(** Fire up to [n] timers in due order; stop when none is pending. *)
Fixpoint runTimers (n fuel : nat) (x : t) : option t :=
  match n with
  | O => Some x
  | S n' =>
      match RequestQueue.nextTimer (rq (wrapper x)) with
      | None => Some x
      | Some tm =>
          match fire fuel tm x with
          | None => None
          | Some x' => runTimers n' fuel x'
          end
      end
  end.

Definition act (a : Action) (x : t) : option t :=
  match a with
  | CreateAgentActivity now input =>
      Some (mk (createAgentActivity remote input (clock now (wrapper x))).2 (flushes x))
  | Other now operation priority =>
      let w := clock now (wrapper x) in
      Some (mk (with_rq (RequestQueue.enqueue (tracked operation) priority (rq w)).2 w)
               (flushes x))
  | Cleanup => Some (mk (cleanup (wrapper x)) (flushes x))
  | NextTimer fuel => runTimers 1 fuel x
  end.

(** The gateway after the actions [acts], from [x] on. *)
Fixpoint reach (acts : list Action) (x : t) : option t :=
  match acts with
  | [] => Some x
  | a :: r =>
      match act a x with
      | None => None
      | Some x' => reach r x'
      end
  end.

End Remote.

End Gateway.

(* ===================================================================== *)
(** ** Scenarios used by the statements below *)
(* ===================================================================== *)

Module Scenario.

Import RateLimitTracker.

(** U+00A0, U+FEFF and U+3000 in UTF-8. *)
Definition nbsp : string := String (ascii_of_nat 194) (String (ascii_of_nat 160) "").
Definition bom : string :=
  String (ascii_of_nat 239) (String (ascii_of_nat 187) (String (ascii_of_nat 191) "")).
Definition ideographicSpace : string :=
  String (ascii_of_nat 227) (String (ascii_of_nat 128) (String (ascii_of_nat 128) "")).

(** The numeral of [n] digits 9. *)
Fixpoint digits (n : nat) : string :=
  match n with
  | O => ""
  | S n' => String "9" (digits n')
  end.

(** A tracker whose remaining request count is [r]. *)
Definition trackerAt (r : string) : RateLimitTracker.t :=
  updateFromHeaders {["x-ratelimit-requests-remaining" := Single r]} 0 (RateLimitTracker.init 0).

(** A response that reports more remaining requests than the limit. *)
Definition overLimit : gmap string HeaderValue :=
  {["x-ratelimit-requests-remaining" := Single "2000"]}.

Definition malformed : gmap string HeaderValue :=
  <["x-ratelimit-requests-remaining" := Single "abc"]>
    {["x-ratelimit-requests-limit" := Single "1500"]}.

Definition wellFormed : gmap string HeaderValue :=
  <["x-ratelimit-requests-remaining" := Single "800"]>
    {["x-ratelimit-requests-limit" := Many ["1200"]]}.

(** The headers that the wrapper reports on a rate-limit error. *)
Definition limitHit : gmap string HeaderValue :=
  <["x-ratelimit-requests-remaining" := Single "0"]>
    {["x-ratelimit-requests-reset" := Single "4600"]}.

(** One cached issue, stored at time 0 with the base time-to-live. *)
Definition anIssue : IssueCache.LinearIssue := IssueCache.mkIssue (Some "k") "An issue".
Definition oneEntry : IssueCache.t := IssueCache.set "k" anIssue 0 [].

(** An executor that does not touch the tracker and settles its [k]-th
    invocation with [script k]. *)
Definition scripted (script : nat -> RequestQueue.Outcome) : RequestQueue.Executor :=
  fun k tr _ => (script k, tr).



Definition regular : RequestQueue.Error :=
  RequestQueue.mkError (Some "Regular error") None None.

(** A queue that holds one low-priority request while the tracker is in
    conservative mode (250 requests remaining). *)
Definition lowBacklog : RequestQueue.t :=
  snd (RequestQueue.enqueue (scripted (fun _ => RequestQueue.Fulfilled "low")) low
         (RequestQueue.init 0 (trackerAt "250"))).


(** The queue after [enqueue] of an executor that always fails with [e]. *)
Definition failingQueue (e : RequestQueue.Error) : RequestQueue.t :=
  snd (RequestQueue.enqueue (scripted (fun _ => RequestQueue.Thrown e)) normal
         (RequestQueue.init 0 (RateLimitTracker.init 0))).

Import LinearClientWrapper.

Definition thought (sessionId b : string) : ActivityInput :=
  mkInput sessionId (Some (mkContent "thought" b)).
Definition response (sessionId b : string) : ActivityInput :=
  mkInput sessionId (Some (mkContent "response" b)).

(** What a caller of [createAgentActivity] finds when it runs: the clock
    and the tracker may have moved since the previous caller. *)
Definition arrive (now : Z) (tr : RateLimitTracker.t) (w : LinearClientWrapper.t)
  : LinearClientWrapper.t :=
  with_rq (RequestQueue.with_tracker tr (RequestQueue.with_now now (rq w))) w.

(** Callers emit thoughts for [sessionId], one after the other, and no
    flush timer of that session fires in between. Each event gives the
    time, the tracker and the body of one call; the result lists the
    promises returned to the callers. *)
Fixpoint emitThoughts (remote : ActivityInput -> nat -> RequestQueue.Outcome)
    (sessionId : string) (events : list (Z * RateLimitTracker.t * string))
    (w : LinearClientWrapper.t) : list nat * LinearClientWrapper.t :=
  match events with
  | [] => ([], w)
  | (now, tr, b) :: r =>
      let '(p, w1) := createAgentActivity remote (thought sessionId b) (arrive now tr w) in
      let '(ps, w2) := emitThoughts remote sessionId r w1 in
      (p :: ps, w2)
  end.

(** The pending flush timers of session [sessionId]. *)
Definition isFlushTimer (sessionId : string) (tm : RequestQueue.Timer) : bool :=
  match RequestQueue.callback tm with
  | RequestQueue.External s => String.eqb s sessionId
  | _ => false
  end.

Definition flushTimersOf (sessionId : string) (w : LinearClientWrapper.t)
  : list RequestQueue.Timer :=
  List.filter (isFlushTimer sessionId) (RequestQueue.timers (rq w)).

(** The state of the session's timer: none, or exactly one pending timer,
    whose handle the wrapper holds. *)
Definition timerState (sessionId : string) (w : LinearClientWrapper.t) : Prop :=
  match batchTimers w !! sessionId with
  | None => flushTimersOf sessionId w = []
  | Some h =>
      exists d,
        flushTimersOf sessionId w =
        [RequestQueue.mkTimer h d (RequestQueue.External sessionId)]
  end.

(** The session is idle: it has neither a batch nor a flush timer. *)
Definition idle (sessionId : string) (w : LinearClientWrapper.t) : Prop :=
  activityBatch w !! sessionId = None /\
  batchTimers w !! sessionId = None /\
  flushTimersOf sessionId w = [].

(** When the flush timer set by the last of [events] is due. *)
Definition lastDue (events : list (Z * RateLimitTracker.t * string)) : Z :=
  List.last
    (List.map (fun ev => ev.1.1 + RateLimitTracker.getRecommendedBatchWindow ev.1.2) events)
    0.

Definition alwaysOk : ActivityInput -> nat -> RequestQueue.Outcome :=
  fun _ _ => RequestQueue.Fulfilled "ok".

(** Three thoughts emitted 100 ms apart on a fresh tracker. *)
Definition threeThoughts : list (Z * RateLimitTracker.t * string) :=
  [(0, RateLimitTracker.init 0, "a");
   (100, RateLimitTracker.init 0, "b");
   (200, RateLimitTracker.init 0, "c")].

Definition emergencyWrapper : LinearClientWrapper.t :=
  LinearClientWrapper.init 0 (trackerAt "50").
Definition conservativeWrapper : LinearClientWrapper.t :=
  LinearClientWrapper.init 0 (trackerAt "250").

(** A wrapper in emergency mode (50 requests remaining) after a thought
    and then a response were emitted for session "s". *)
Definition mixedBatch : LinearClientWrapper.t :=
  let w1 := snd (createAgentActivity alwaysOk (thought "s" "a") emergencyWrapper) in
  snd (createAgentActivity alwaysOk (response "s" "done") w1).

End Scenario.

(* ===================================================================== *)
(** ** Further operations of the four classes *)
(* ===================================================================== *)

Module TrackerMore.

Import RateLimitTracker.

(** [Math.max(0, this.resetTimestamp - Date.now())] *)
Definition getTimeUntilReset (now : Z) (tr : t) : number :=
  Js.max0 (Js.sub (resetTimestamp tr) now).

(** When an operation of a trace runs. *)
Definition opTime (o : op) : Z :=
  match o with
  | Update _ now => now
  | Consume now => now
  end.

(** Times that never go back: each is at most the next one. *)
Definition nondecreasing (times : list Z) : Prop :=
  forall l1 a b l2, times = l1 ++ a :: b :: l2 -> a <= b.

End TrackerMore.

Module CacheMore.

Import IssueCache.

(** The keys of the map, in insertion order. *)
Definition keys (c : t) : list string := List.map fst c.

(** What the loop of [getStats] has counted so far. *)
Record Scan : Type := mkScan {
  fresh : nat;
  stale : nat;
  total : Z;
  most : option (string * Z)
}.

(** One turn of the loop of [getStats] over [[issueId, cached]]. *)
Definition scanEntry (now : Z) (acc : Scan) (kv : string * CachedIssue) : Scan :=
  let cached := snd kv in
  let age := now - timestamp cached in
  {| fresh := if age <=? ttl cached then S (fresh acc) else fresh acc;
     stale :=
       if age <=? ttl cached then stale acc
       else if age <=? STALE_TTL then S (stale acc) else stale acc;
     total := total acc + accessCount cached;
     most :=
       match most acc with
       | None => Some (fst kv, accessCount cached)
       | Some m =>
           if snd m <? accessCount cached then Some (fst kv, accessCount cached)
           else Some m
       end |}.

Record Stats : Type := mkStats {
  size : nat;
  freshCount : nat;
  staleCount : nat;
  totalAccessCount : Z;
  mostAccessed : option (string * Z)
}.

Definition getStats (now : Z) (c : t) : Stats :=
  let acc := fold_left (scanEntry now) c (mkScan 0 0 0 None) in
  {| size := length c;
     freshCount := fresh acc;
     staleCount := stale acc;
     totalAccessCount := total acc;
     mostAccessed := most acc |}.

(** The public operations that change the cache, as a trace alphabet. *)
Inductive op : Type :=
| DoSet (issueId : string) (i : LinearIssue) (now : Z)
| DoGet (issueId : string) (allowStale : bool) (now : Z)
| DoInvalidate (issueId : string)
| DoInvalidateAll
| DoWarm (issues : list LinearIssue) (now : Z)
| DoUpdateTTL (issueId : string).

Definition step (c : t) (o : op) : t :=
  match o with
  | DoSet issueId i now => set issueId i now c
  | DoGet issueId allowStale now => snd (get issueId allowStale now c)
  | DoInvalidate issueId => invalidate issueId c
  | DoInvalidateAll => invalidateAll c
  | DoWarm issues now => warm issues now c
  | DoUpdateTTL issueId => updateTTL issueId c
  end.

Definition run (ops : list op) (c : t) : t := fold_left step ops c.

(** The shape of every cache that the class can hold: one entry per key,
    at most [MAX_CACHE_SIZE] entries, and one of the two time-to-live tiers
    in each entry. *)
Definition shaped (c : t) : Prop :=
  List.NoDup (keys c) /\ (length c <= MAX_CACHE_SIZE)%nat /\ tiered c.

(** The clock has not gone back: no entry was accessed after [now]. *)
Definition accessedBy (now : Z) (c : t) : Prop :=
  Forall (fun kv => lastAccessed (snd kv) <= now) c.

(** The order in which [evictIfNeeded] sorts. *)
Definition olderOrEqual (a b : string * CachedIssue) : Prop :=
  lastAccessed (snd a) <= lastAccessed (snd b).

(** A cache of 101 entries, the entry of key [n] last accessed at time [n]. *)
Definition crowded : t :=
  List.map
    (fun n => (Js.to_string (Z.of_nat n),
               mkCached Scenario.anIssue 0 DEFAULT_TTL 0 (Z.of_nat n)))
    (List.seq 0 101).

(** The cache of [Scenario.oneEntry] after six reads at time 1000. *)
Definition readSixTimes : t :=
  let read c := snd (get "k" false 1000 c) in
  read (read (read (read (read (read Scenario.oneEntry))))).

End CacheMore.

Module QueueMore.

Import RequestQueue.

Record Status : Type := mkStatus {
  queueLength : nat;
  criticalCount : nat;
  normalCount : nat;
  lowCount : nat;
  statusProcessing : bool
}.

(** [r.priority === p] *)
Definition hasPriority (p : RequestPriority) (r : QueuedRequest) : bool :=
  match priority r, p with
  | critical, critical | normal, normal | low, low => true
  | _, _ => false
  end.

Definition getStatus (st : t) : Status :=
  {| queueLength := length (queue st);
     criticalCount := length (List.filter (hasPriority critical) (queue st));
     normalCount := length (List.filter (hasPriority normal) (queue st));
     lowCount := length (List.filter (hasPriority low) (queue st));
     statusProcessing := processing st |}.

(** The count that the status reports for priority [p]. *)
Definition countOf (p : RequestPriority) (s : Status) : nat :=
  match p with
  | critical => criticalCount s
  | normal => normalCount s
  | low => lowCount s
  end.

(** [a] is served no later than [b]: its priority order is not larger. *)
Definition before (a b : QueuedRequest) : Prop :=
  (priorityOrder (priority a) <= priorityOrder (priority b))%nat.

(** The queue is in priority order. *)
Definition ordered (q : list QueuedRequest) : Prop := StronglySorted before q.

(** The error that [clear] rejects with. *)
Definition cleared : Error := mkError (Some "Queue cleared") None None.

(** The timers whose callback is the processing pass. *)
Definition isProcessTimer (tm : Timer) : bool :=
  match callback tm with
  | ProcessQueue => true
  | _ => false
  end.

(** Timer handles are unique and below [nextHandle]; when [batchTimer]
    holds a handle, the timer of that handle is the one pending processing
    pass; when it holds none, no processing pass is pending. *)
Definition scheduled (st : t) : Prop :=
  List.NoDup (List.map handle (timers st)) /\
  Forall (fun tm => (handle tm < nextHandle st)%nat) (timers st) /\
  match batchTimer st with
  | Some h => exists d, List.filter isProcessTimer (timers st) = [mkTimer h d ProcessQueue]
  | None => List.filter isProcessTimer (timers st) = []
  end.

(** A queue in emergency mode (50 requests remaining) that holds one
    normal-priority request. *)
Definition blocked : t :=
  snd (enqueue (Scenario.scripted (fun _ => Fulfilled "n")) normal
         (init 0 (Scenario.trackerAt "50"))).


End QueueMore.

Module WrapperMore.

Import RequestQueue (Value, Error, Outcome, Fulfilled, Thrown,
                     Future, Pending, Resolved, Rejected).
Import LinearClientWrapper.

(** The test of the [catch] in the closure of [executeWithTracking]:
    [error.message?.includes('rate limit') || error.message?.includes('429')
     || error.status === 429]. *)
Definition isLimit (error : Error) : bool :=
  match RequestQueue.message error with
  | Some m => Js.includes "rate limit" m || Js.includes "429" m
  | None => false
  end
  || match RequestQueue.status error with
     | Some c => c =? 429
     | None => false
     end.

(** The tracker holds a remaining request count, a double, between 0 and
    [r]. *)
Definition atMost (r : Z) (tr : RateLimitTracker.t) : Prop :=
  exists r', RateLimitTracker.requestsRemaining tr = Num r' /\ Js.exact r' /\ 0 <= r' <= r.

(** The request was queued by [executeWithTracking]. *)
Definition isTracked (request : RequestQueue.QueuedRequest) : Prop :=
  exists operation, RequestQueue.execute request = tracked operation.

(** Every request of the queue, waiting or due for a retry, was queued by
    [executeWithTracking]. *)
Definition allTracked (st : RequestQueue.t) : Prop :=
  Forall isTracked (RequestQueue.queue st) /\
  Forall (fun tm =>
            match RequestQueue.callback tm with
            | RequestQueue.Requeue request => isTracked request
            | _ => True
            end) (RequestQueue.timers st).

(** An error with HTTP status 429 whose message does not name the rate
    limit. *)
Definition tooMany : Error :=
  RequestQueue.mkError (Some "Too Many Requests") (Some 429) None.

(** *** Issues: [issue] and [updateIssue] *)

(** [determinePriority('issue', [issueId])]: the branch that reads the
    issue cache. An empty [issueId] is falsy and skips it. *)
Definition determinePriorityIssue (issueId : string) (now : Z) (c : IssueCache.t)
  : RequestPriority * IssueCache.t :=
  if String.eqb issueId "" then (normal, c)
  else
    match IssueCache.get issueId false now c with
    | (None, c') => (critical, c')
    | (Some _, c') => (normal, c')
    end.

(** How [issue] goes on after its synchronous part: it returns the fresh
    entry, it returns a stale entry, or it awaits a fetch that was queued
    at the given priority. *)
Inductive IssueStart : Type :=
| Cached (i : IssueCache.LinearIssue)
| StaleBefore (i : IssueCache.LinearIssue)
| Fetch (priority : RequestPriority).

(** The four readings of the clock that the synchronous part of [issue]
    can make, in order: the first read of the cache, the read inside
    [determinePriority], the read of stale data, and the read inside the
    [determinePriority] of [executeWithTracking]. *)
Record Clock : Type := mkClock {
  atGet : Z;
  atPriority : Z;
  atStale : Z;
  atEnqueue : Z
}.

Definition inOrder (k : Clock) : Prop :=
  atGet k <= atPriority k /\ atPriority k <= atStale k /\ atStale k <= atEnqueue k.

(** [issue] up to the [await] of the fetch. *)
Definition issueBefore (issueId : string) (k : Clock) (tr : RateLimitTracker.t)
    (c : IssueCache.t) : IssueStart * IssueCache.t :=
  match IssueCache.get issueId false (atGet k) c with
  | (Some cached, c1) => (Cached cached, c1)
  | (None, c1) =>
      let '(priority, c2) := determinePriorityIssue issueId (atPriority k) c1 in
      let fetch c3 :=
        let '(p, c4) := determinePriorityIssue issueId (atEnqueue k) c3 in
        (Fetch p, c4) in
      if match priority with critical => false | _ => true end
         && negb (RateLimitTracker.shouldAllowRequest tr priority)
      then
        match IssueCache.get issueId true (atStale k) c2 with
        | (Some stale, c3) => (StaleBefore stale, c3)
        | (None, c3) => fetch c3
        end
      else fetch c2
  end.

(** How the awaited fetch settles: with an issue (or a falsy value), or
    with an error. *)
Inductive Fetched : Type :=
| Got (i : option IssueCache.LinearIssue)
| Failed (error : Error).

Inductive Returned : Type :=
| Return (i : option IssueCache.LinearIssue)
| Throw (error : Error).

(** [issue] from the settlement of the fetch on. *)
Definition issueAfter (issueId : string) (fetched : Fetched) (now : Z) (c : IssueCache.t)
  : Returned * IssueCache.t :=
  match fetched with
  | Got (Some i) => (Return (Some i), IssueCache.set issueId i now c)
  | Got None => (Return None, c)
  | Failed error =>
      match IssueCache.get issueId true now c with
      | (Some stale, c') => (Return (Some stale), c')
      | (None, c') => (Throw error, c')
      end
  end.

(** [updateIssue]: the cache entry is dropped, then the call is queued.
    [determinePriority] does not read the arguments of this method; the
    embedding passes an empty payload in their place. *)
Definition updateIssue (operation : nat -> Outcome) (issueId : string)
    (w : t) (c : IssueCache.t) : nat * t * IssueCache.t :=
  let c' := IssueCache.invalidate issueId c in
  let '(p, w') := executeWithTracking operation "updateIssue" (mkInput "" None) w in
  (p, w', c').

(** A clock that reads [now] four times. *)
Definition still (now : Z) : Clock := mkClock now now now now.

(** The cache of [Scenario.oneEntry], read at a time when its entry has
    expired. *)
Definition expiredAt : Z := 700000.

(** *** The gateway at work *)

(** A fresh gateway on which three thoughts were emitted for session "s",
    100 ms apart. *)
Definition threeEmitted : Gateway.t :=
  Gateway.mk
    (Scenario.emitThoughts Scenario.alwaysOk "s" Scenario.threeThoughts
       (LinearClientWrapper.init 0 (RateLimitTracker.init 0))).2 [].

(** On a fresh gateway a comment is made, and the queue runs its call,
    which is refused with status 429; three thoughts are then emitted for
    session "s", and their flush timer fires. *)
Definition refusedThenThoughts : list Gateway.Action :=
  [Gateway.Other 0 (fun _ => Thrown tooMany) normal;
   Gateway.NextTimer 10;
   Gateway.CreateAgentActivity 1000 (Scenario.thought "s" "a");
   Gateway.CreateAgentActivity 1100 (Scenario.thought "s" "b");
   Gateway.CreateAgentActivity 1200 (Scenario.thought "s" "c");
   Gateway.NextTimer 10].

End WrapperMore.

(** ** The states of the gateway that its callers bring about *)

Module GatewayMore.

Import RequestQueue (Value, Error, Outcome, Fulfilled, Thrown,
                     Future, Pending, Resolved, Rejected).
Import LinearClientWrapper WrapperMore.

(** The queue holds the request: it waits in the queue or for its retry
    timer. *)
Definition held (request : RequestQueue.QueuedRequest) (st : RequestQueue.t) : Prop :=
  In request (RequestQueue.queue st) \/
  exists tm, In tm (RequestQueue.timers st) /\
             RequestQueue.callback tm = RequestQueue.Requeue request.



(** The batch of the flush held thoughts only: the flush made the merged
    call and has nothing else to send. *)
Definition mergedOnly (f : Flush) : Prop :=
  current f = None /\ otherCallbacks f = [] /\ toSend f = [].

(** [p] is a callback: the promise of an entry of a batch or of a
    suspended flush. *)
Definition isCallback (x : Gateway.t) (p : nat) : Prop :=
  (exists sessionId items item,
     activityBatch (Gateway.wrapper x) !! sessionId = Some items /\
     In item items /\ promise item = p) \/
  (exists f, In f (Gateway.flushes x) /\
     (In p (thoughtCallbacks f) \/ In p (otherCallbacks f) \/ current f = Some p)).

(** [p] is the promise of a call: of a request that the queue holds, or
    the promise that a suspended flush awaits. *)
Definition isCall (x : Gateway.t) (p : nat) : Prop :=
  (exists request,
     held request (rq (Gateway.wrapper x)) /\ RequestQueue.id request = p) \/
  (exists f, In f (Gateway.flushes x) /\ awaited f = p).

(** The flush began in emergency mode and the call that it awaits is not
    critical. *)
Definition stuck (x : Gateway.t) (f : Flush) : Prop :=
  atMost 100 (RequestQueue.tracker (rq (Gateway.wrapper x))) /\
  forall request,
    held request (rq (Gateway.wrapper x)) ->
    RequestQueue.id request = awaited f ->
    RequestQueue.priority request <> critical.

(** What holds of the gateway between two actions, but for the promises
    that the flushes await. *)
Definition wellFormed (x : Gateway.t) : Prop :=
  let st := rq (Gateway.wrapper x) in
  allTracked st /\
  (exists r, atMost r (RequestQueue.tracker st)) /\
  (forall p, isCallback x p -> (p < RequestQueue.nextId st)%nat) /\
  (forall p, isCall x p -> (p < RequestQueue.nextId st)%nat) /\
  (forall p, isCallback x p -> isCall x p -> False) /\
  (forall sessionId items,
     activityBatch (Gateway.wrapper x) !! sessionId = Some items ->
     Forall (fun item => isThought item = true) items \/
     atMost 100 (RequestQueue.tracker st)) /\
  (forall f, In f (Gateway.flushes x) -> mergedOnly f \/ stuck x f).



(** *** A merged call that fails *)

(** Every remote call fails with the same error, which the queue does not
    retry. *)
Definition alwaysFails : ActivityInput -> nat -> Outcome :=
  fun _ _ => Thrown Scenario.regular.

(** Three thoughts are emitted for session "s" on a fresh gateway, and
    their flush timer fires. *)
Definition thoughtsFlushed : list Gateway.Action :=
  [Gateway.CreateAgentActivity 0 (Scenario.thought "s" "a");
   Gateway.CreateAgentActivity 100 (Scenario.thought "s" "b");
   Gateway.CreateAgentActivity 200 (Scenario.thought "s" "c");
   Gateway.NextTimer 10].

Definition beforeFailure : Gateway.t :=
  default (Gateway.init 0) (Gateway.reach alwaysFails thoughtsFlushed (Gateway.init 0)).

(** The timer of the queue has fired, and the merged call has failed. *)
Definition afterFailure : Gateway.t :=
  default beforeFailure (Gateway.act alwaysFails (Gateway.NextTimer 10) beforeFailure).

End GatewayMore.

(* ===================================================================== *)
(** * Properties *)
(* ===================================================================== *)

(** ** JavaScript numbers and [parseInt] *)

Module JsFacts.
Import Js.

(** *** Rounding to a double *)

Lemma two53_pow : two53 = 2 ^ 53.
Proof. reflexivity. Qed.

Lemma of_Z_small (z : Z) : Z.abs z < two53 -> of_Z z = Num z.
Proof. intros H. unfold of_Z. apply Z.ltb_lt in H. by rewrite H. Qed.

Lemma round53_small (z : Z) : Z.abs z < two53 -> round53 z = z.
Proof. intros H. unfold round53. apply Z.ltb_lt in H. by rewrite H. Qed.

Lemma round53_opp (z : Z) : round53 (- z) = - round53 z.
Proof.
  unfold round53. rewrite Z.abs_opp, Z.sgn_opp.
  destruct (Z.abs z <? two53); [reflexivity | lia].
Qed.

(** The unit in the last place of [a >= 2^53]. *)
Lemma ulp_bounds (a : Z) :
  two53 <= a ->
  let u := 2 ^ (Z.log2 a - 52) in
  53 <= Z.log2 a /\ 2 <= u /\ 2 ^ 52 * u <= a < 2 ^ 53 * u /\
  2 ^ 52 <= a / u < 2 ^ 53.
Proof.
  intros Ha. cbn zeta.
  assert (Hpos : 0 < a) by (unfold two53 in Ha; lia).
  pose proof (Z.log2_spec a Hpos) as [Hlo Hhi].
  assert (He : 53 <= Z.log2 a).
  { change 53 with (Z.log2 two53). apply Z.log2_le_mono. exact Ha. }
  set (e := Z.log2 a) in *.
  assert (Hu : 2 ^ e = 2 ^ 52 * 2 ^ (e - 52)).
  { rewrite <- Z.pow_add_r by lia. f_equal. lia. }
  assert (Hu' : 2 ^ Z.succ e = 2 ^ 53 * 2 ^ (e - 52)).
  { rewrite <- Z.pow_add_r by lia. f_equal. lia. }
  assert (H2 : 2 <= 2 ^ (e - 52)).
  { change 2 with (2 ^ 1) at 1. apply Z.pow_le_mono_r; lia. }
  split; [exact He|]. split; [exact H2|]. split; [lia|].
  set (u := 2 ^ (e - 52)) in *. split.
  - apply Z.div_le_lower_bound; lia.
  - apply Z.div_lt_upper_bound; lia.
Qed.

Lemma round53_big (a : Z) :
  two53 <= a ->
  let u := 2 ^ (Z.log2 a - 52) in
  exists q', round53 a = q' * u /\ a / u <= q' <= a / u + 1 /\
             (a mod u = 0 -> q' = a / u).
Proof.
  intros Ha. cbn zeta. unfold round53.
  assert (Hpos : 0 < a) by (unfold two53 in Ha; lia).
  rewrite Z.abs_eq by lia. rewrite Z.sgn_pos by lia.
  destruct (Z.ltb_spec a two53); [lia|].
  eexists. split; [rewrite Z.mul_1_l; reflexivity|]. split.
  - destruct (_ || _); lia.
  - intros ->. rewrite Z.mul_0_r.
    destruct (ulp_bounds a Ha) as (_ & Hu & _). cbn zeta in Hu.
    destruct (Z.ltb_spec (2 ^ (Z.log2 a - 52)) 0); [lia|].
    destruct (Z.eqb_spec 0 (2 ^ (Z.log2 a - 52))); [lia|]. reflexivity.
Qed.

(** An integer from 2^53 on is a double exactly when its unit in the last
    place divides it. *)
Lemma round53_fix (a : Z) :
  two53 <= a -> (round53 a = a <-> a mod 2 ^ (Z.log2 a - 52) = 0).
Proof.
  intros Ha. destruct (round53_big a Ha) as (q' & Hr & Hq & Hz). cbn zeta in *.
  destruct (ulp_bounds a Ha) as (_ & Hu & _). cbn zeta in Hu.
  set (u := 2 ^ (Z.log2 a - 52)) in *. split.
  - intros E. rewrite Hr in E. rewrite <- E. apply Z.mod_mul. lia.
  - intros E. rewrite Hr, (Hz E).
    pose proof (Z.div_mod a u ltac:(lia)). lia.
Qed.

Lemma log2_mul_ulp (q e : Z) :
  53 <= e -> 2 ^ 52 <= q < 2 ^ 53 -> Z.log2 (q * 2 ^ (e - 52)) = e.
Proof.
  intros He Hq. apply Z.log2_unique; [lia|].
  assert (Hu : 2 ^ e = 2 ^ 52 * 2 ^ (e - 52)).
  { rewrite <- Z.pow_add_r by lia. f_equal. lia. }
  assert (Hu' : 2 ^ Z.succ e = 2 ^ 53 * 2 ^ (e - 52)).
  { rewrite <- Z.pow_add_r by lia. f_equal. lia. }
  assert (0 < 2 ^ (e - 52)) by (apply Z.pow_pos_nonneg; lia).
  rewrite Hu, Hu'. nia.
Qed.

Lemma round53_idem_pos (a : Z) : 0 <= a -> round53 (round53 a) = round53 a.
Proof.
  intros H0. destruct (Z.lt_ge_cases a two53) as [Hs|Ha].
  - rewrite (round53_small a) by lia. apply round53_small. lia.
  - destruct (round53_big a Ha) as (q' & Hr & Hq & _). cbn zeta in *.
    destruct (ulp_bounds a Ha) as (He & Hu & Hb & Hd). cbn zeta in *.
    set (e := Z.log2 a) in *. set (u := 2 ^ (e - 52)) in *.
    assert (Hy : two53 <= round53 a).
    { rewrite Hr, two53_pow. change (2 ^ 53) with (2 ^ 52 * 2 ^ 1).
      assert (2 ^ 1 <= u) by (change (2 ^ 1) with 2; lia). nia. }
    apply round53_fix; [exact Hy|]. rewrite Hr.
    destruct (Z.eq_dec q' (2 ^ 53)) as [->|Hne].
    + assert (E : 2 ^ 53 * u = 2 ^ (Z.succ e)).
      { unfold u. rewrite <- Z.pow_add_r by lia. f_equal. lia. }
      rewrite E, Z.log2_pow2 by lia.
      replace (Z.succ e) with (52 + (Z.succ e - 52)) at 1 by lia.
      rewrite Z.pow_add_r by lia. apply Z.mod_mul.
      apply Z.pow_nonzero; lia.
    + unfold u at 2. rewrite log2_mul_ulp by lia. apply Z.mod_mul. unfold u. lia.
Qed.

Lemma round53_idem (z : Z) : round53 (round53 z) = round53 z.
Proof.
  destruct (Z.le_ge_cases 0 z) as [H|H]; [by apply round53_idem_pos|].
  pose (w := - z). assert (Hw : 0 <= w) by lia. replace z with (- w) by lia.
  rewrite (round53_opp w), (round53_opp (round53 w)). f_equal.
  by apply round53_idem_pos.
Qed.

(** One less than a double is rounded to that double at most. *)
Lemma round53_pred (r : Z) : round53 r = r -> 0 <= r -> round53 (r - 1) <= r.
Proof.
  intros Hr H0. destruct (Z.le_gt_cases r two53) as [Hs|Hb].
  - rewrite round53_small; [lia|]. unfold two53 in *. lia.
  - assert (Ha : two53 <= r - 1) by lia.
    destruct (round53_big (r - 1) Ha) as (q' & Hq & Hqb & _). cbn zeta in *.
    destruct (ulp_bounds (r - 1) Ha) as (He & Hu & _). cbn zeta in *.
    set (e := Z.log2 (r - 1)) in *. set (u := 2 ^ (e - 52)) in *.
    (* [u] divides [r] *)
    assert (Hdiv : r mod u = 0).
    { apply round53_fix in Hr; [|lia].
      assert (Hle : e <= Z.log2 r) by (apply Z.log2_le_mono; lia).
      replace (Z.log2 r - 52) with ((Z.log2 r - e) + (e - 52)) in Hr by lia.
      rewrite Z.pow_add_r in Hr by lia. fold u in Hr.
      apply Z.mod_divide in Hr; [|nia]. apply Z.mod_divide; [lia|].
      destruct Hr as [k Hk]. exists (k * 2 ^ (Z.log2 r - e)). lia. }
    pose proof (Z.div_mod (r - 1) u ltac:(lia)) as Hdm.
    pose proof (Z.mod_pos_bound (r - 1) u ltac:(lia)) as Hmb.
    pose proof (Z.div_mod r u ltac:(lia)) as Hdm'. rewrite Hdiv in Hdm'.
    set (k := r / u) in *. set (d := (r - 1) / u) in *. set (m := (r - 1) mod u) in *.
    assert (Hk : k = d + 1) by nia.
    rewrite Hq. nia.
Qed.

Lemma two53_lt_overflow : two53 < 2 ^ 1024.
Proof. rewrite two53_pow. apply Z.pow_lt_mono_r; lia. Qed.

Lemma exact_iff (z : Z) : exact z <-> round53 z = z /\ Z.abs z < 2 ^ 1024.
Proof.
  unfold exact, of_Z. pose proof two53_lt_overflow as Hlt.
  destruct (Z.ltb_spec (Z.abs z) two53) as [Hs|Hb].
  - split; [|reflexivity]. intros _. split; [by apply round53_small | lia].
  - destruct (Z.ltb_spec (Z.abs (round53 z)) (2 ^ 1024)) as [Hf|Hi].
    + split.
      * intros [= E]. split; [exact E|]. by rewrite E in Hf.
      * intros [E _]. by rewrite E.
    + split.
      * destruct (0 <? z); discriminate.
      * intros [E H]. rewrite E in Hi. lia.
Qed.

Lemma exact_small (z : Z) : Z.abs z < two53 -> exact z.
Proof. apply of_Z_small. Qed.

(** What an operation returns is a double. *)
Lemma of_Z_exact (x r : Z) : of_Z x = Num r -> exact r.
Proof.
  unfold of_Z. destruct (Z.ltb_spec (Z.abs x) two53) as [Hs|Hb].
  - intros [= <-]. by apply exact_small.
  - destruct (Z.ltb_spec (Z.abs (round53 x)) (2 ^ 1024)) as [Hf|Hi].
    + intros [= <-]. apply exact_iff. split; [apply round53_idem | exact Hf].
    + destruct (0 <? x); discriminate.
Qed.

Lemma round53_nonneg (a : Z) : 0 <= a -> 0 <= round53 a.
Proof.
  intros H0. destruct (Z.lt_ge_cases a two53) as [Hs|Ha].
  - rewrite round53_small; lia.
  - destruct (round53_big a Ha) as (q' & Hr & Hq & _). cbn zeta in *.
    destruct (ulp_bounds a Ha) as (_ & Hu & _ & Hd). cbn zeta in *.
    rewrite Hr. nia.
Qed.

(** [Math.max(0, r - 1)] on a double [r >= 0] is a double between 0 and [r]. *)
Lemma max0_pred_exact (r : Z) :
  exact r -> 0 <= r ->
  exists w, max0_pred (Num r) = Num w /\ 0 <= w <= r /\ exact w.
Proof.
  intros Hr H0. apply exact_iff in Hr as [Hfix Hfin].
  unfold max0_pred, sub.
  assert (Hw : exists w, of_Z (r - 1) = Num w /\ w <= r /\ exact w).
  { unfold of_Z. destruct (Z.ltb_spec (Z.abs (r - 1)) two53) as [Hs|Hb].
    - exists (r - 1). split; [reflexivity|]. split; [lia | by apply exact_small].
    - pose proof (round53_pred r Hfix H0) as Hle.
      assert (Hge : 0 <= round53 (r - 1)) by (apply round53_nonneg; unfold two53 in Hb; lia).
      destruct (Z.ltb_spec (Z.abs (round53 (r - 1))) (2 ^ 1024)) as [Hf|Hi]; [|lia].
      exists (round53 (r - 1)). split; [reflexivity|]. split; [exact Hle|].
      apply exact_iff. split; [apply round53_idem | exact Hf]. }
  destruct Hw as (w & -> & Hle & Hex). cbn [max0].
  exists (Z.max 0 w). split; [reflexivity|]. split; [lia|].
  destruct (Z.max_spec 0 w) as [[_ ->]|[_ ->]]; [exact Hex | by apply exact_small].
Qed.

Lemma max0_pred_small (r : Z) :
  0 <= r <= two53 -> max0_pred (Num r) = Num (Z.max 0 (r - 1)).
Proof.
  intros H. unfold max0_pred, sub. rewrite of_Z_small; [reflexivity|].
  unfold two53 in *. lia.
Qed.

(** *** [parseInt] on decimal numerals *)

Ltac eval_digit :=
  repeat match goal with
  | |- context [digit_value ?c] =>
      let v := eval vm_compute in (digit_value c) in change (digit_value c) with v
  end.

Lemma digits_value_acc (d : Decimal.uint) (p : positive) :
  digits_value (Zpos p) (NilEmpty.string_of_uint d) = Zpos (Pos.of_uint_acc d p).
Proof.
  revert p. induction d; intros p; simpl; try reflexivity.
  all: rewrite <- IHd; f_equal; eval_digit; lia.
Qed.

Lemma digits_value_uint (d : Decimal.uint) :
  digits_value 0 (NilEmpty.string_of_uint d) = Z.of_N (Pos.of_uint d).
Proof.
  induction d; simpl; try reflexivity; try assumption;
    apply (digits_value_acc d).
Qed.

Lemma digits_value_pos (p : positive) :
  digits_value 0 (NilEmpty.string_of_uint (Pos.to_uint p)) = Zpos p.
Proof. rewrite digits_value_uint, DecimalPos.Unsigned.of_to. reflexivity. Qed.

Lemma to_uint_digit (p : positive) :
  starts_with_digit (NilEmpty.string_of_uint (Pos.to_uint p)) = true.
Proof.
  pose proof (DecimalPos.Unsigned.to_uint_nonnil p) as H.
  destruct (Pos.to_uint p); try reflexivity. congruence.
Qed.

Lemma digit_not_space (c c2 c3 : ascii) :
  is_digit c = true ->
  space1 c = false /\ space2 c c2 = false /\ space3 c c2 c3 = false.
Proof.
  destruct c as [[] [] [] [] [] [] [] []]; try discriminate; intros _; repeat split.
Qed.

Lemma skip_space_digit (s : string) :
  starts_with_digit s = true -> skip_space s = s.
Proof.
  destruct s as [|c r]; [reflexivity|]. cbn [starts_with_digit]. intros H.
  destruct r as [|c2 [|c3 r]]; cbn [skip_space].
  - by destruct (digit_not_space c c c H) as (-> & _).
  - by destruct (digit_not_space c c2 c H) as (-> & -> & _).
  - by destruct (digit_not_space c c2 c3 H) as (-> & -> & ->).
Qed.

Lemma digit_not_sign (c : ascii) :
  is_digit c = true -> Ascii.eqb c "-" = false /\ Ascii.eqb c "+" = false.
Proof.
  intros H. split; apply Ascii.eqb_neq; intros ->; discriminate H.
Qed.

(** The value parsed from a string that starts with a digit. *)
Lemma parseInt_digits (s : string) :
  starts_with_digit s = true -> parseInt s = of_Z (digits_value 0 s).
Proof.
  intros H. unfold parseInt. rewrite (skip_space_digit s H).
  destruct s as [|c r]; [discriminate|].
  destruct (digit_not_sign c H) as [-> ->]. rewrite H.
  f_equal; lia.
Qed.

Lemma string_of_uint_nonnil (d : Decimal.uint) :
  d <> Decimal.Nil -> NilZero.string_of_uint d = NilEmpty.string_of_uint d.
Proof. destruct d; [congruence | reflexivity ..]. Qed.

Lemma skip_space_minus (s : string) : skip_space (String "-" s) = String "-" s.
Proof. by destruct s as [|c2 [|c3 r]]. Qed.

Lemma parseInt_minus (s : string) :
  starts_with_digit s = true -> parseInt (String "-" s) = of_Z (- digits_value 0 s).
Proof.
  intros H. unfold parseInt. rewrite skip_space_minus.
  rewrite Ascii.eqb_refl, H. f_equal; lia.
Qed.

(** A decimal numeral parses to the double nearest to the integer that it
    denotes, hence to that integer when it is a double. *)
Lemma parseInt_numeral (z : Z) : parseInt (to_string z) = of_Z z.
Proof.
  destruct z as [|p|p]; [reflexivity| |];
    unfold to_string; simpl Z.to_int; simpl NilZero.string_of_int;
    rewrite string_of_uint_nonnil by apply DecimalPos.Unsigned.to_uint_nonnil.
  - rewrite parseInt_digits by apply to_uint_digit.
    by rewrite digits_value_pos.
  - rewrite parseInt_minus by apply to_uint_digit.
    by rewrite digits_value_pos.
Qed.

Lemma parseInt_to_string (z : Z) : Z.abs z < two53 -> parseInt (to_string z) = Num z.
Proof. intros H. rewrite parseInt_numeral. by apply of_Z_small. Qed.

(** What [parseInt] returns is a double. *)
Lemma parseInt_exact (s : string) (r : Z) : parseInt s = Num r -> exact r.
Proof.
  unfold parseInt. destruct (skip_space s) as [|c rest].
  - discriminate.
  - destruct (Ascii.eqb c "-"); [|destruct (Ascii.eqb c "+")];
      match goal with |- context [starts_with_digit ?x] => destruct (starts_with_digit x) end;
      try discriminate; apply of_Z_exact.
Qed.

(** Without a digit after the optional sign there is no number. *)
Lemma parseInt_letters : parseInt "abc" = NaN /\ parseInt "" = NaN /\ parseInt "-" = NaN.
Proof. repeat split. Qed.

(** White space of any kind is skipped, what follows the digits is
    ignored, and the value is rounded as a double is: above 2^53 to the
    even neighbour, from 2^1024 on to infinity. *)
Lemma parseInt_samples :
  parseInt (Scenario.nbsp ++ "42") = Num 42 /\
  parseInt (Scenario.bom ++ " " ++ Scenario.ideographicSpace ++ "-7 requests") = Num (-7) /\
  parseInt "12px" = Num 12 /\
  parseInt "0x1F" = Num 0 /\
  parseInt "9007199254740993" = Num 9007199254740992 /\
  parseInt "9007199254740995" = Num 9007199254740996 /\
  parseInt (Scenario.digits 400) = PosInf /\
  parseInt ("-" ++ Scenario.digits 400) = NegInf.
Proof. repeat split; vm_compute; reflexivity. Qed.
End JsFacts.

(** ** The quota tracker *)

Module TrackerSpec.
Import RateLimitTracker.

(** C9. For an integer count [r] of remaining requests: the mode is normal
    when r > 300, conservative when 100 < r <= 300 and emergency otherwise;
    admission lets every priority pass in normal mode, all but low in
    conservative mode and only critical in emergency mode; the batch
    window is 500, 2000 and 5000 ms in these modes. *)
Theorem mode_admission_window (tr : t) (r : Z) :
  requestsRemaining tr = Num r ->
  (300 < r -> getOperationMode tr = normal_mode) /\
  (100 < r <= 300 -> getOperationMode tr = conservative) /\
  (r <= 100 -> getOperationMode tr = emergency) /\
  (forall p,
     shouldAllowRequest tr p =
     match getOperationMode tr with
     | normal_mode => true
     | conservative => match p with low => false | _ => true end
     | emergency => match p with critical => true | _ => false end
     end) /\
  getRecommendedBatchWindow tr =
    match getOperationMode tr with
    | normal_mode => 500
    | conservative => 2000
    | emergency => 5000
    end.
Proof.
  intros Hr.
  unfold getOperationMode, shouldAllowRequest, getRecommendedBatchWindow.
  rewrite Hr. unfold Js.gt, Js.le, CONSERVATIVE_THRESHOLD, EMERGENCY_THRESHOLD.
  destruct (Z.ltb_spec 300 r), (Z.ltb_spec 100 r), (Z.leb_spec r 100), (Z.leb_spec r 300);
    try lia; repeat split; intros; try lia; try reflexivity;
    match goal with p : RequestPriority |- _ => destruct p; reflexivity end.
Qed.

(** C9 at 200 remaining requests. *)
Lemma mode_admission_window_witness :
  getOperationMode (Scenario.trackerAt "200") = conservative /\
  shouldAllowRequest (Scenario.trackerAt "200") low = false /\
  getRecommendedBatchWindow (Scenario.trackerAt "200") = 2000.
Proof.
  destruct (mode_admission_window (Scenario.trackerAt "200") 200 eq_refl)
    as (_ & Hc & _ & Ha & Hw).
  assert (Hm : getOperationMode (Scenario.trackerAt "200") = conservative)
    by (apply Hc; lia).
  rewrite Ha, Hw, Hm. repeat split.
Defined.

(** After a header that does not parse, the count is NaN: the mode reads
    as emergency while every comparison of [shouldAllowRequest] fails. *)
Lemma nan_remaining (tr : t) :
  requestsRemaining tr = NaN ->
  getOperationMode tr = emergency /\ forall p, shouldAllowRequest tr p = true.
Proof.
  intros H. unfold getOperationMode, shouldAllowRequest. rewrite H. split; reflexivity.
Qed.

(** *** Field-by-field update *)

Lemma mul_one (a : number) : Js.mul a 1 = match a with Num z => Js.of_Z z | _ => a end.
Proof. destruct a as [|z| |]; try reflexivity. simpl. by rewrite Z.mul_1_r. Qed.

Lemma mul_parseInt_one (s : string) : Js.mul (Js.parseInt s) 1 = Js.parseInt s.
Proof.
  rewrite mul_one. destruct (Js.parseInt s) as [|z| |] eqn:E; try reflexivity.
  by apply JsFacts.parseInt_exact in E.
Qed.

Lemma assign_rule (v : option string) (prior : number) :
  field_rule v 1 prior (assign v prior).
Proof.
  repeat split.
  - by intros ->.
  - intros s ->. simpl. by rewrite mul_parseInt_one.
  - intros z -> Hz _. simpl. rewrite JsFacts.parseInt_to_string by exact Hz.
    f_equal; lia.
  - intros s -> H. exact H.
Qed.

(** C3, as amended. [updateFromHeaders] is total (it cannot throw), and it
    treats each of the five fields on its own: a missing header (or an
    empty array) leaves the prior value; a value that is present is
    replaced by [parseInt] of it (times 1000 for the reset time, as
    doubles multiply), so that the decimal numeral of an integer below 2^53
    in absolute value is applied as it is, and a value that does not parse
    replaces the prior value by NaN. *)
Theorem updateFromHeaders_fieldwise (headers : gmap string HeaderValue) (now : Z) (tr : t) :
  let tr' := updateFromHeaders headers now tr in
  let value := getHeaderValue headers in
  field_rule (value "x-ratelimit-requests-remaining") 1
    (requestsRemaining tr) (requestsRemaining tr') /\
  field_rule (value "x-ratelimit-requests-limit") 1
    (requestsLimit tr) (requestsLimit tr') /\
  field_rule (value "x-ratelimit-requests-reset") 1000
    (resetTimestamp tr) (resetTimestamp tr') /\
  field_rule (value "x-ratelimit-complexity-remaining") 1
    (complexityRemaining tr) (complexityRemaining tr') /\
  field_rule (value "x-ratelimit-complexity-limit") 1
    (complexityLimit tr) (complexityLimit tr').
Proof.
  cbn zeta. unfold updateFromHeaders, trackRequest. cbn [requestsRemaining requestsLimit
    resetTimestamp complexityRemaining complexityLimit].
  split; [apply assign_rule|]. split; [apply assign_rule|].
  split; [|split; apply assign_rule].
  unfold field_rule. repeat split.
  - by intros ->.
  - by intros s ->.
  - intros z -> Hz Hs. rewrite JsFacts.parseInt_to_string by exact Hz.
    by apply JsFacts.of_Z_small.
  - intros s -> H. by rewrite H.
Qed.

(** C3 on a response that carries the remaining count and the limit. *)
Lemma updateFromHeaders_fieldwise_witness :
  let tr' := updateFromHeaders Scenario.wellFormed 7 (init 0) in
  requestsRemaining tr' = Num 800 /\
  requestsLimit tr' = Num 1200 /\
  complexityLimit tr' = Num 50000.
Proof.
  destruct (updateFromHeaders_fieldwise Scenario.wellFormed 7 (init 0))
    as ((_ & _ & Hr & _) & (_ & _ & Hl & _) & _ & _ & (Hc & _)).
  cbn zeta. split; [apply (Hr 800 eq_refl); vm_compute; reflexivity|].
  split; [apply (Hl 1200 eq_refl); vm_compute; reflexivity|]. exact (Hc eq_refl).
Defined.

(** Against C3 as stated. A value that does not parse is not ignored: it replaces the prior
    value by NaN, while the limit next to it is applied. *)
Lemma malformed_value_overwrites :
  let tr := init 0 in
  let tr' := updateFromHeaders Scenario.malformed 0 tr in
  getHeaderValue Scenario.malformed "x-ratelimit-requests-remaining" = Some "abc" /\
  Js.parseInt "abc" = NaN /\
  requestsRemaining tr = Num 1200 /\
  requestsRemaining tr' = NaN /\
  requestsRemaining tr' <> requestsRemaining tr /\
  requestsLimit tr' = Num 1500.
Proof. repeat split. discriminate. Qed.

(** *** The quota invariant *)

Lemma quota_inv_consume (now : Z) (tr : t) :
  remaining_exact tr -> quota_inv tr ->
  quota_inv (consumeRequest now tr) /\ remaining_exact (consumeRequest now tr).
Proof.
  intros Hex (r & l & Hr & Hl & Hb).
  destruct (JsFacts.max0_pred_exact r (Hex r Hr) ltac:(lia)) as (w & Hw & Hwb & Hwe).
  unfold quota_inv, remaining_exact, consumeRequest, trackRequest.
  cbn [requestsRemaining requestsLimit]. rewrite Hr, Hw, Hl. split.
  - exists w, l. repeat split; lia.
  - by intros ? [= <-].
Qed.

Lemma quota_inv_update (headers : gmap string HeaderValue) (now : Z) (tr : t) :
  coherent tr headers -> remaining_exact tr -> quota_inv tr ->
  quota_inv (updateFromHeaders headers now tr) /\
  remaining_exact (updateFromHeaders headers now tr).
Proof.
  unfold coherent, quota_inv, remaining_exact, in_range, updateFromHeaders, trackRequest.
  cbn [requestsRemaining requestsLimit].
  destruct (getHeaderValue headers "x-ratelimit-requests-remaining") as [sr|],
           (getHeaderValue headers "x-ratelimit-requests-limit") as [sl|];
    cbn [assign]; intros Hc Hex Hinv; (split; [first [exact Hc | exact Hinv]|]);
    first [exact Hex | intros z; apply JsFacts.parseInt_exact].
Qed.

Lemma quota_inv_run (ops : list op) (tr : t) :
  coherent_trace tr ops -> remaining_exact tr -> quota_inv tr -> quota_inv (run ops tr).
Proof.
  revert tr. induction ops as [|o ops IH]; intros tr Hops Hex Htr; [exact Htr|].
  destruct Hops as [Ho Hrest]. cbn [run fold_left]. fold (run ops (step tr o)).
  destruct o as [headers now|now]; cbn [step op_coherent] in *.
  - destruct (quota_inv_update headers now tr Ho Hex Htr) as [H1 H2]. by apply IH.
  - destruct (quota_inv_consume now tr Hex Htr) as [H1 H2]. by apply IH.
Qed.

Lemma quota_inv_init (now : Z) : quota_inv (init now) /\ remaining_exact (init now).
Proof.
  split; [exists 1200, 1200; repeat split; lia|].
  intros r [= <-]. reflexivity.
Qed.

(** C4, as amended. After every sequence of [consumeRequest] and of
    [updateFromHeaders] in which every update leaves the request quota in
    range (a reported remaining count is between 0 and the limit that then
    holds, a limit reported alone is not below the remaining count), the
    state satisfies 0 <= remaining <= limit. *)
Theorem quota_inv_coherent_trace (ops : list op) (now : Z) :
  coherent_trace (init now) ops -> quota_inv (run ops (init now)).
Proof.
  intros H. destruct (quota_inv_init now) as [Hi He]. by apply quota_inv_run.
Qed.

(** C4 on an update of both fields, a consumption, the update that the
    wrapper makes on a rate-limit error (remaining 0 and the reset time),
    and an update without quota headers. *)
Lemma quota_inv_coherent_trace_witness :
  quota_inv
    (run [Update Scenario.wellFormed 5; Consume 6; Update Scenario.limitHit 7;
          Consume 8; Update ∅ 9] (init 0)).
Proof.
  apply (quota_inv_coherent_trace
           [Update Scenario.wellFormed 5; Consume 6; Update Scenario.limitHit 7;
            Consume 8; Update ∅ 9] 0).
  cbn [coherent_trace op_coherent]. repeat split.
  - exists 800, 1200. vm_compute. repeat split; discriminate.
  - exists 0, 1200. vm_compute. repeat split; discriminate.
Defined.

(** Against C4 as stated. One response that reports more remaining
    requests than the limit breaks the invariant. *)
Lemma quota_inv_broken :
  ~ quota_inv (run [Update Scenario.overLimit 0] (init 0)).
Proof.
  intros (r & l & Hr & Hl & Hb). vm_compute in Hr, Hl.
  injection Hr as <-. injection Hl as <-. lia.
Qed.
End TrackerSpec.

(** ** The issue cache *)

Module CacheSpec.
Import IssueCache.

Lemma lookup_store_same (key : string) (e e' : CachedIssue) (c : t) :
  lookup key c = Some e -> lookup key (store key e' c) = Some e'.
Proof.
  induction c as [|[k x] r IH]; simpl; [discriminate|].
  destruct (String.eqb k key) eqn:E; simpl; rewrite E; [reflexivity | exact IH].
Qed.

Lemma lookup_store_other (key key' : string) (e' : CachedIssue) (c : t) :
  key' <> key -> lookup key' (store key e' c) = lookup key' c.
Proof.
  intros Hne. induction c as [|[k x] r IH]; simpl; [reflexivity|].
  destruct (String.eqb k key) eqn:E; simpl.
  - apply String.eqb_eq in E. subst k.
    destruct (String.eqb key key') eqn:E'; [|reflexivity].
    apply String.eqb_eq in E'. congruence.
  - by rewrite IH.
Qed.

Lemma lookup_tiered (key : string) (e : CachedIssue) (c : t) :
  tiered c -> lookup key c = Some e -> ttl e = DEFAULT_TTL \/ ttl e = EXTENDED_TTL.
Proof.
  unfold tiered. induction 1 as [|[k x] r Hx _ IH]; simpl; [discriminate|].
  destruct (String.eqb k key); [|exact IH]. intros [= <-]. exact Hx.
Qed.

(** [get] leaves the stored issue, its timestamp and its time-to-live
    alone and never removes an entry. *)
Lemma get_entry (key : string) (allowStale : bool) (now : Z) (c : t) (e : CachedIssue) :
  lookup key c = Some e ->
  lookup key (snd (get key allowStale now c)) = Some (touch now e).
Proof.
  intros H. unfold get. rewrite H.
  destruct (now - timestamp e <=? ttl e);
    [|destruct (allowStale && (now - timestamp e <=? STALE_TTL))];
    simpl; by apply lookup_store_same with e.
Qed.

Lemma get_other (key key' : string) (allowStale : bool) (now : Z) (c : t) :
  key' <> key -> lookup key' (snd (get key allowStale now c)) = lookup key' c.
Proof.
  intros Hne. unfold get. destruct (lookup key c) as [e|]; [|reflexivity].
  destruct (now - timestamp e <=? ttl e);
    [|destruct (allowStale && (now - timestamp e <=? STALE_TTL))];
    simpl; by apply lookup_store_other.
Qed.

(** C5, as amended. For a cached key of age [now - timestamp]: [get]
    returns the value when age <= ttl; when ttl < age <= STALE_TTL it
    returns the value exactly when [allowStale] is set; beyond STALE_TTL it
    returns absent. In every case the entry stays in the cache, with its
    access tracking updated: [get] evicts nothing. *)
Theorem get_freshness (key : string) (allowStale : bool) (now : Z) (c : t) (e : CachedIssue) :
  tiered c ->
  lookup key c = Some e ->
  let age := now - timestamp e in
  let result := fst (get key allowStale now c) in
  let c' := snd (get key allowStale now c) in
  (age <= ttl e -> result = Some (issue e)) /\
  (ttl e < age <= STALE_TTL -> result = if allowStale then Some (issue e) else None) /\
  (STALE_TTL < age -> result = None) /\
  lookup key c' = Some (touch now e).
Proof.
  intros Ht He. cbn zeta. split; [|split; [|split]].
  - intros Hage. unfold get. rewrite He.
    destruct (Z.leb_spec (now - timestamp e) (ttl e)); [reflexivity | lia].
  - intros Hage. unfold get. rewrite He.
    destruct (Z.leb_spec (now - timestamp e) (ttl e)); [lia|].
    destruct (Z.leb_spec (now - timestamp e) STALE_TTL); [|lia].
    by destruct allowStale.
  - intros Hage. unfold get. rewrite He.
    pose proof (lookup_tiered key e c Ht He) as Htier.
    unfold DEFAULT_TTL, EXTENDED_TTL, STALE_TTL in *.
    destruct (Z.leb_spec (now - timestamp e) (ttl e)); [lia|].
    destruct (Z.leb_spec (now - timestamp e) 3600000); [lia|].
    by destruct allowStale.
  - by apply get_entry.
Qed.

(** C5 on the scenario of the specification: 5, 11 and 70 minutes after [set]. *)
Lemma get_freshness_witness :
  fst (get "k" false 300000 Scenario.oneEntry) = Some Scenario.anIssue /\
  fst (get "k" false 660000 Scenario.oneEntry) = None /\
  fst (get "k" true 660000 Scenario.oneEntry) = Some Scenario.anIssue /\
  fst (get "k" true 4200000 Scenario.oneEntry) = None.
Proof.
  assert (Ht : tiered Scenario.oneEntry) by (repeat constructor).
  pose (e := mkCached Scenario.anIssue 0 DEFAULT_TTL 0 0).
  assert (He : lookup "k" Scenario.oneEntry = Some e) by reflexivity.
  split; [|split; [|split]].
  - apply (get_freshness "k" false 300000 _ e Ht He). simpl. unfold DEFAULT_TTL. lia.
  - apply (proj1 (proj2 (get_freshness "k" false 660000 _ e Ht He))).
    simpl. unfold DEFAULT_TTL, STALE_TTL. lia.
  - apply (proj1 (proj2 (get_freshness "k" true 660000 _ e Ht He))).
    simpl. unfold DEFAULT_TTL, STALE_TTL. lia.
  - apply (proj1 (proj2 (proj2 (get_freshness "k" true 4200000 _ e Ht He)))).
    simpl. unfold STALE_TTL. lia.
Defined.

(** Against C5 as stated. Beyond the stale limit [get] returns absent,
    and the entry is still in the cache afterwards. *)
Lemma get_beyond_stale_keeps_entry :
  let age := 4200000 - 0 in
  let c' := snd (get "k" true 4200000 Scenario.oneEntry) in
  STALE_TTL < age /\
  fst (get "k" true 4200000 Scenario.oneEntry) = None /\
  lookup "k" c' <> None /\
  length c' = 1%nat.
Proof. repeat split. discriminate. Qed.

(** *** The two tiers are an invariant of the cache *)

Lemma tiered_store (key : string) (e : CachedIssue) (c : t) :
  ttl e = DEFAULT_TTL \/ ttl e = EXTENDED_TTL -> tiered c -> tiered (store key e c).
Proof.
  intros He. unfold tiered. induction 1 as [|[k x] r Hx Hr IH]; simpl; [constructor|].
  destruct (String.eqb k key); constructor; assumption.
Qed.

Lemma tiered_delete (key : string) (c : t) : tiered c -> tiered (delete key c).
Proof.
  unfold tiered. induction 1 as [|[k x] r Hx Hr IH]; simpl; [constructor|].
  destruct (String.eqb k key); [assumption | by constructor].
Qed.

Lemma tiered_map_set (key : string) (e : CachedIssue) (c : t) :
  ttl e = DEFAULT_TTL \/ ttl e = EXTENDED_TTL -> tiered c -> tiered (map_set key e c).
Proof.
  intros He Hc. unfold map_set. destruct (lookup key c).
  - by apply tiered_store.
  - apply Forall_app. split; [exact Hc|]. constructor; [exact He | constructor].
Qed.

Lemma tiered_evictIfNeeded (c : t) : tiered c -> tiered (evictIfNeeded c).
Proof.
  intros Hc. unfold evictIfNeeded. destruct (length c <=? MAX_CACHE_SIZE)%nat; [exact Hc|].
  generalize (take (length c - MAX_CACHE_SIZE + 10) (sort_entries c)). intros l.
  revert c Hc. induction l as [|x l IH]; intros c Hc; simpl; [exact Hc|].
  apply IH. by apply tiered_delete.
Qed.

Lemma tiered_set (key : string) (i : LinearIssue) (now : Z) (c : t) :
  tiered c -> tiered (set key i now c).
Proof.
  intros Hc. unfold set. apply tiered_evictIfNeeded, tiered_map_set; [|exact Hc].
  simpl. destruct (lookup key c) as [e|]; [destruct (5 <? accessCount e)|]; auto.
Qed.

Lemma tiered_get (key : string) (allowStale : bool) (now : Z) (c : t) :
  tiered c -> tiered (snd (get key allowStale now c)).
Proof.
  intros Hc. unfold get. destruct (lookup key c) as [e|] eqn:He; [|exact Hc].
  pose proof (lookup_tiered key e c Hc He) as Ht.
  destruct (now - timestamp e <=? ttl e);
    [|destruct (allowStale && (now - timestamp e <=? STALE_TTL))];
    simpl; by apply tiered_store.
Qed.

Lemma tiered_updateTTL (key : string) (c : t) : tiered c -> tiered (updateTTL key c).
Proof.
  intros Hc. unfold updateTTL. destruct (lookup key c) as [e|]; [|exact Hc].
  destruct (10 <? accessCount e); [|exact Hc]. apply tiered_store; [|exact Hc].
  simpl. by right.
Qed.

Lemma tiered_warm (issues : list LinearIssue) (now : Z) (c : t) :
  tiered c -> tiered (warm issues now c).
Proof.
  unfold warm. revert c. induction issues as [|i r IH]; intros c Hc; simpl; [exact Hc|].
  apply IH. destruct (id i) as [k|]; [|exact Hc].
  destruct (String.eqb k ""); [exact Hc | by apply tiered_set].
Qed.

(** *** Access tracking *)

(** C10. For a key that has an entry, every [get], whatever [allowStale]
    and whatever it returns, adds one to the entry's [accessCount] and
    sets its [lastAccessed] to the current time; the issue, the timestamp
    and the time-to-live are unchanged. *)
Theorem get_tracks_access (key : string) (allowStale : bool) (now : Z) (c : t)
    (e : CachedIssue) :
  lookup key c = Some e ->
  exists e',
    lookup key (snd (get key allowStale now c)) = Some e' /\
    accessCount e' = accessCount e + 1 /\
    lastAccessed e' = now /\
    issue e' = issue e /\ timestamp e' = timestamp e /\ ttl e' = ttl e.
Proof.
  intros He. exists (touch now e). split; [by apply get_entry|]. repeat split.
Qed.

(** C10 on a read that returns absent. *)
Lemma get_tracks_access_witness :
  fst (get "k" false 660000 Scenario.oneEntry) = None /\
  exists e',
    lookup "k" (snd (get "k" false 660000 Scenario.oneEntry)) = Some e' /\
    accessCount e' = 0 + 1 /\
    lastAccessed e' = 660000 /\
    issue e' = Scenario.anIssue /\ timestamp e' = 0 /\ ttl e' = DEFAULT_TTL.
Proof.
  split; [reflexivity|].
  exact (get_tracks_access "k" false 660000 Scenario.oneEntry
           (mkCached Scenario.anIssue 0 DEFAULT_TTL 0 0) eq_refl).
Defined.

(** Six reads that all return absent still lift the next [set] to the
    extended tier, and a read moves the entry behind an untouched one in
    the eviction order. *)
Lemma absent_reads_count :
  let read c := snd (get "k" false 660000 c) in
  let c6 := read (read (read (read (read (read Scenario.oneEntry))))) in
  option_map ttl (lookup "k" (set "k" Scenario.anIssue 700000 c6)) = Some EXTENDED_TTL.
Proof. reflexivity. Qed.

Lemma read_refreshes_order :
  let c := set "b" Scenario.anIssue 1 (set "a" Scenario.anIssue 0 []) in
  List.map fst (sort_entries c) = ["a"; "b"] /\
  List.map fst (sort_entries (snd (get "a" false 900000 c))) = ["b"; "a"].
Proof. split; reflexivity. Qed.
End CacheSpec.

(** ** The request queue *)

Module QueueSpec.
Import RequestQueue.

(** *** The processing pass on a blocked low-priority backlog *)

Lemma processLoop_spins (fuel maxBatch processed : nat) (st : t) :
  queue st <> [] ->
  Forall (fun request => priority request = low) (queue st) ->
  RateLimitTracker.shouldAllowRequest (tracker st) low = false ->
  (processed < maxBatch)%nat ->
  processLoop fuel maxBatch processed st = None.
Proof.
  intros Hne Hlow Hdeny Hlt. revert st Hne Hlow Hdeny.
  induction fuel as [|fuel IH]; intros st Hne Hlow Hdeny; [reflexivity|].
  simpl. destruct (queue st) as [|request rest] eqn:Hq; [congruence|].
  apply Nat.ltb_lt in Hlt as Hlt'. rewrite Hlt'.
  inversion Hlow as [|? ? Hreq Hrest]; subst.
  rewrite Hreq, Hdeny. simpl.
  apply IH; simpl.
  - by destruct rest.
  - apply Forall_app. split; [exact Hrest | by constructor].
  - exact Hdeny.
Qed.

Lemma processQueue_spins (fuel : nat) (st : t) :
  processing st = false ->
  queue st <> [] ->
  Forall (fun request => priority request = low) (queue st) ->
  RateLimitTracker.shouldAllowRequest (tracker st) low = false ->
  processQueue fuel st = None.
Proof.
  intros Hp Hne Hlow Hdeny. unfold processQueue. rewrite Hp.
  destruct (queue st) as [|r q] eqn:Hq; [congruence|]. simpl.
  rewrite processLoop_spins; simpl; rewrite ?Hq; try done.
  destruct (RateLimitTracker.getOperationMode (tracker st)); simpl; lia.
Qed.

(** C1, evaluated on the code. The queue holds one low-priority request
    and the tracker is in conservative mode, so admission denies the head.
    The pass moves the request to the tail and goes on with the loop
    ([continue]); it neither counts the request as processed nor empties
    the queue, so on no amount of fuel does the pass end, whether it is
    called directly or from its timer. *)
Theorem low_backlog_pass_never_ends (fuel : nat) :
  List.map priority (queue Scenario.lowBacklog) = [low] /\
  RateLimitTracker.getOperationMode (tracker Scenario.lowBacklog) = conservative /\
  RateLimitTracker.shouldAllowRequest (tracker Scenario.lowBacklog) low = false /\
  processQueue fuel Scenario.lowBacklog = None /\
  match nextTimer Scenario.lowBacklog with
  | Some tm => callback tm = ProcessQueue /\ fire fuel tm Scenario.lowBacklog = None
  | None => False
  end.
Proof.
  split; [reflexivity|]. split; [reflexivity|]. split; [reflexivity|].
  split.
  - apply processQueue_spins; try reflexivity; [discriminate | by repeat constructor].
  - simpl. split; [reflexivity|]. unfold fire. simpl callback. cbv iota.
    apply processQueue_spins; try reflexivity; [discriminate | by repeat constructor].
Qed.

(** *** Failure of an executed request *)

Lemma executeRequest_fulfilled (request : QueuedRequest) (st : t) (v : Value)
    (tr : RateLimitTracker.t) :
  execute request (invoked request) (tracker st) (now st) = (Fulfilled v, tr) ->
  executeRequest request st = resolve (id request) v (with_tracker tr st).
Proof. intros H. unfold executeRequest. by rewrite H. Qed.

Lemma executeRequest_retry (request : QueuedRequest) (st : t) (e : Error)
    (tr : RateLimitTracker.t) :
  execute request (invoked request) (tracker st) (now st) = (Thrown e, tr) ->
  isRateLimitError e = true ->
  (retryCount request < MAX_RETRIES)%nat ->
  executeRequest request st =
  snd (setTimeout
         (Requeue (mkRequest (id request) (priority request) (execute request)
                     (timestamp request) (S (retryCount request)) (S (invoked request))))
         (BASE_RETRY_DELAY * 2 ^ Z.of_nat (retryCount request))
         (with_tracker tr st)).
Proof.
  intros H He Hn. unfold executeRequest. rewrite H, He.
  apply Nat.ltb_lt in Hn. by rewrite Hn.
Qed.

Lemma executeRequest_reject (request : QueuedRequest) (st : t) (e : Error)
    (tr : RateLimitTracker.t) :
  execute request (invoked request) (tracker st) (now st) = (Thrown e, tr) ->
  isRateLimitError e = false \/ (MAX_RETRIES <= retryCount request)%nat ->
  executeRequest request st = reject (id request) e (with_tracker tr st).
Proof.
  intros H Hc. unfold executeRequest. rewrite H.
  destruct Hc as [He|Hn]; [by rewrite He|].
  apply Nat.ltb_ge in Hn. rewrite Hn. by rewrite andb_false_r.
Qed.

Lemma executeRequest_queue (request : QueuedRequest) (st : t) :
  queue (executeRequest request st) = queue st.
Proof.
  unfold executeRequest.
  destruct (execute request (invoked request) (tracker st) (now st)) as [[v|e] tr];
    [reflexivity|].
  by destruct (isRateLimitError e && (retryCount request <? MAX_RETRIES)%nat).
Qed.

(** A request's own promise is the only one that its execution settles. *)
Lemma settle_other (p q : nat) (f : Future) (fs : gmap nat Future) :
  p <> q -> settle q f fs !! p = fs !! p.
Proof.
  intros Hne. unfold settle. destruct (fs !! q) as [[]|]; try reflexivity.
  by rewrite lookup_insert_ne.
Qed.

Lemma settle_pending (p : nat) (f : Future) (fs : gmap nat Future) :
  fs !! p = Some Pending -> settle p f fs !! p = Some f.
Proof. intros H. unfold settle. rewrite H. apply lookup_insert_eq. Qed.


(** A pass over a queue that holds one admitted request executes that
    request and ends. *)
Lemma processQueue_single (fuel : nat) (st : t) (request : QueuedRequest) :
  processing st = false ->
  queue st = [request] ->
  RateLimitTracker.shouldAllowRequest (tracker st) (priority request) = true ->
  processQueue (S (S fuel)) st =
  Some (with_processing false
          (executeRequest request
             (with_queue [] (with_lastProcessTime (now st) (with_processing true st))))).
Proof.
  intros Hp Hq Ha. unfold processQueue. rewrite Hp, Hq.
  cbn [length Nat.eqb orb].
  set (st1 := with_lastProcessTime (now st) (with_processing true st)).
  assert (Hq1 : queue st1 = [request]) by exact Hq.
  assert (Ht1 : tracker st1 = tracker st) by reflexivity.
  assert (Hb : (0 <? maxBatchSize (RateLimitTracker.getOperationMode (tracker st1)))%nat = true)
    by (destruct (RateLimitTracker.getOperationMode (tracker st1)); reflexivity).
  cbn [processLoop]. rewrite Hq1, Hb, Ht1, Ha. cbn [negb].
  rewrite executeRequest_queue. cbn [queue with_queue].
  by rewrite executeRequest_queue.
Qed.

Lemma runTimers_fire (n fuel : nat) (st st' : t) (tm : Timer) :
  nextTimer st = Some tm ->
  fire fuel tm st = Some st' ->
  runTimers (S n) fuel st = runTimers n fuel st'.
Proof. intros H1 H2. simpl. by rewrite H1, H2. Qed.


Ltac pass_step He :=
  erewrite runTimers_fire;
  [ | vm_compute; reflexivity
    | unfold fire; cbn [callback];
      erewrite processQueue_single;
      [ | reflexivity | vm_compute; reflexivity | reflexivity ];
      first
        [ erewrite executeRequest_retry;
          [ | vm_compute; reflexivity | exact He | vm_compute; lia ]
        | erewrite executeRequest_reject;
          [ | vm_compute; reflexivity
            | first [ left; exact He | right; vm_compute; lia ] ]
        | erewrite executeRequest_fulfilled; [ | vm_compute; reflexivity ] ];
      vm_compute; reflexivity ].

Ltac requeue_step :=
  erewrite runTimers_fire; [ | vm_compute; reflexivity | vm_compute; reflexivity ].


(** One failure that is not a quota rejection: rejected at once, no timer. *)
Lemma other_error_rejects (e : Error) :
  isRateLimitError e = false ->
  exists st1,
    runTimers 1 10 (Scenario.failingQueue e) = Some st1 /\
    futures st1 !! 0%nat = Some (Rejected e) /\
    timers st1 = [] /\ queue st1 = [].
Proof.
  intros He. eexists. split; [pass_step He; reflexivity|]. repeat split.
Qed.

(** Quota rejections without end: three retries, then the rejection. *)
Lemma retries_exhausted (e : Error) :
  isRateLimitError e = true ->
  exists st1,
    runTimers 7 10 (Scenario.failingQueue e) = Some st1 /\
    futures st1 !! 0%nat = Some (Rejected e) /\
    timers st1 = [] /\ queue st1 = [] /\ now st1 = 500 + 1000 + 2000 + 4000.
Proof.
  intros He. eexists. split.
  - pass_step He. requeue_step. pass_step He. requeue_step. pass_step He.
    requeue_step. pass_step He. reflexivity.
  - repeat split.
Qed.

Lemma scheduleProcessing_queue (st : t) : queue (scheduleProcessing st) = queue st.
Proof. unfold scheduleProcessing. by destruct (batchTimer st). Qed.

Lemma insertByPriority_In (request : QueuedRequest) (st : t) :
  In request (queue (insertByPriority request st)).
Proof. unfold insertByPriority. simpl. apply in_elt. Qed.


End QueueSpec.

(** ** Agent activities: batching, merging and failures *)

Module WrapperSpec.
Import RequestQueue (futures, queue, tracker, Pending, Resolved, Rejected, Fulfilled, Thrown).
Import LinearClientWrapper.

(** *** Terminal payloads and batching *)

Lemma terminal_not_thought (input : ActivityInput) :
  has_type input "response" || has_type input "error" = true ->
  has_type input "thought" = false.
Proof.
  unfold has_type. destruct (content input) as [c|]; [|reflexivity].
  intros H. apply orb_true_iff in H as [H|H]; apply String.eqb_eq in H; by rewrite H.
Qed.

Lemma shouldBatch_terminal (input : ActivityInput) (mode : OperationMode) :
  has_type input "response" || has_type input "error" = true ->
  shouldBatchActivity input mode = OperationMode_eqb mode emergency.
Proof.
  intros H. unfold shouldBatchActivity.
  rewrite (terminal_not_thought input H), H. by destruct mode.
Qed.

(** What [batchAgentActivity] does to the state. *)
Lemma batchAgentActivity_spec (sessionId : string) (a : ActivityInput) (window : Z) (w : t) :
  let p := fst (batchAgentActivity sessionId a window w) in
  let w' := snd (batchAgentActivity sessionId a window w) in
  p = RequestQueue.nextId (rq w) /\
  RequestQueue.nextId (rq w') = S (RequestQueue.nextId (rq w)) /\
  futures (rq w') = <[p := Pending]> (futures (rq w)) /\
  queue (rq w') = queue (rq w) /\
  activityBatch w' =
    <[sessionId := default [] (activityBatch w !! sessionId) ++ [mkItem a p]]>
      (activityBatch w).
Proof.
  unfold batchAgentActivity. cbn zeta. simpl.
  destruct (batchTimers w !! sessionId); repeat split.
Qed.

Lemma executeWithTracking_spec (operation : nat -> RequestQueue.Outcome)
    (methodName : string) (input : ActivityInput) (w : t) :
  let p := fst (executeWithTracking operation methodName input w) in
  let w' := snd (executeWithTracking operation methodName input w) in
  p = RequestQueue.nextId (rq w) /\
  activityBatch w' = activityBatch w /\
  batchTimers w' = batchTimers w /\
  futures (rq w') = <[p := Pending]> (futures (rq w)) /\
  queue (rq w') =
    queue (RequestQueue.insertByPriority
             (RequestQueue.mkRequest p (determinePriority methodName input)
                (tracked operation) (RequestQueue.now (rq w)) 0 0) (rq w)).
Proof.
  unfold executeWithTracking, RequestQueue.enqueue. cbn zeta. simpl.
  rewrite QueueSpec.scheduleProcessing_queue.
  repeat split. unfold RequestQueue.scheduleProcessing. simpl.
  by destruct (RequestQueue.batchTimer (rq w)).
Qed.

(** C2, as amended. A payload whose content type is 'response' or 'error'
    is, in normal and in conservative mode, kept out of every batch and
    enqueued at once as a call of its own at normal priority; in emergency
    mode it is appended to the batch of its session and nothing is
    enqueued. *)
Theorem terminal_payloads (remote : ActivityInput -> nat -> RequestQueue.Outcome)
    (input : ActivityInput) (w : t) :
  has_type input "response" || has_type input "error" = true ->
  let mode := RateLimitTracker.getOperationMode (tracker (rq w)) in
  let p := fst (createAgentActivity remote input w) in
  let w' := snd (createAgentActivity remote input w) in
  (mode <> emergency ->
   activityBatch w' = activityBatch w /\
   batchTimers w' = batchTimers w /\
   futures (rq w') !! p = Some Pending /\
   exists request,
     RequestQueue.id request = p /\
     RequestQueue.priority request = normal /\
     RequestQueue.retryCount request = 0%nat /\
     queue (rq w') = queue (RequestQueue.insertByPriority request (rq w))) /\
  (mode = emergency ->
   queue (rq w') = queue (rq w) /\
   activityBatch w' !! agentSessionId input =
     Some (default [] (activityBatch w !! agentSessionId input) ++ [mkItem input p])).
Proof.
  intros Hty. cbn zeta. unfold createAgentActivity.
  rewrite (shouldBatch_terminal input _ Hty).
  destruct (RateLimitTracker.getOperationMode (tracker (rq w))) eqn:Hm;
    simpl OperationMode_eqb; cbv iota.
  1,2: split; [intros _ | discriminate];
    destruct (executeWithTracking_spec (remote input) "createAgentActivity" input w)
      as (Hp & Hb & Ht & Hf & Hq);
    split; [exact Hb|]; split; [exact Ht|]; split; [rewrite Hf; apply lookup_insert_eq|];
    eexists; split; [|split; [|split; [|exact Hq]]]; try reflexivity;
    unfold determinePriority; simpl; by rewrite Hty.
  split; [congruence | intros _].
  destruct (batchAgentActivity_spec (agentSessionId input) input
              (RateLimitTracker.getRecommendedBatchWindow (tracker (rq w))) w)
    as (Hp & _ & _ & Hq & Hb).
  split; [exact Hq|]. rewrite Hb. apply lookup_insert_eq.
Qed.

(** C2 on a response in conservative mode. *)
Lemma terminal_payloads_witness :
  let w' := snd (createAgentActivity Scenario.alwaysOk (Scenario.response "s" "done")
                   Scenario.conservativeWrapper) in
  activityBatch w' = ∅ /\
  List.map RequestQueue.priority (queue (rq w')) = [normal].
Proof.
  destruct (terminal_payloads Scenario.alwaysOk (Scenario.response "s" "done")
              Scenario.conservativeWrapper eq_refl) as [H _].
  destruct H as (Hb & _ & _ & request & _ & Hp & _ & Hq); [discriminate|].
  cbn zeta. split; [exact Hb|]. rewrite Hq. simpl. by rewrite Hp.
Defined.

(** Against C2 as stated. In emergency mode a response is put into the
    batch of its session and nothing is enqueued. *)
Lemma response_batched_in_emergency :
  let input := Scenario.response "s" "done" in
  let w := Scenario.emergencyWrapper in
  let w' := snd (createAgentActivity Scenario.alwaysOk input w) in
  RateLimitTracker.getOperationMode (tracker (rq w)) = emergency /\
  has_type input "response" = true /\
  activityBatch w' !! "s" = Some [mkItem input 0] /\
  queue (rq w') = [].
Proof. repeat split. Qed.

(** *** Settling the promises of a flush *)

Lemma settle_settled (p q : nat) (f g : RequestQueue.Future) (fs : gmap nat RequestQueue.Future) :
  fs !! p = Some g -> g <> Pending -> RequestQueue.settle q f fs !! p = Some g.
Proof.
  intros Hp Hg. destruct (decide (p = q)) as [->|Hne].
  - unfold RequestQueue.settle. rewrite Hp. by destruct g.
  - by rewrite QueueSpec.settle_other.
Qed.

Section SettleAll.
Variable f : RequestQueue.Future.
Hypothesis f_settled : f <> Pending.


Lemma settleAll_settled (ps : list nat) (fs : gmap nat RequestQueue.Future) (p : nat)
    (g : RequestQueue.Future) :
  fs !! p = Some g -> g <> Pending -> fold_left (fun m q => RequestQueue.settle q f m) ps fs !! p = Some g.
Proof.
  revert fs. induction ps as [|q ps IH]; intros fs Hp Hg; simpl; [exact Hp|].
  apply IH; [by apply settle_settled | exact Hg].
Qed.

Lemma settleAll_in (ps : list nat) (fs : gmap nat RequestQueue.Future) (p : nat) :
  In p ps -> fs !! p = Some Pending -> fold_left (fun m q => RequestQueue.settle q f m) ps fs !! p = Some f.
Proof.
  revert fs. induction ps as [|q ps IH]; intros fs Hin Hp; simpl; [destruct Hin|].
  destruct (decide (q = p)) as [->|Hne].
  - apply settleAll_settled; [by apply QueueSpec.settle_pending | exact f_settled].
  - destruct Hin as [->|Hin]; [congruence|].
    apply IH; [exact Hin|]. by rewrite QueueSpec.settle_other.
Qed.

Lemma settleAll_notin (ps : list nat) (fs : gmap nat RequestQueue.Future) (p : nat) :
  ~ In p ps -> fold_left (fun m q => RequestQueue.settle q f m) ps fs !! p = fs !! p.
Proof.
  revert fs. induction ps as [|q ps IH]; intros fs Hin; simpl; [reflexivity|].
  rewrite IH by (intros H; apply Hin; by right).
  apply QueueSpec.settle_other. intros ->. apply Hin. by left.
Qed.
End SettleAll.

(** *** Thoughts emitted within one batch window *)

Lemma shouldBatch_thought (sessionId b : string) (mode : OperationMode) :
  shouldBatchActivity (Scenario.thought sessionId b) mode = true.
Proof. by destruct mode. Qed.

Lemma emitThoughts_cons (remote : ActivityInput -> nat -> RequestQueue.Outcome)
    (sessionId : string) (now : Z) (tr : RateLimitTracker.t) (b : string)
    (r : list (Z * RateLimitTracker.t * string)) (w : t) :
  let w0 := Scenario.arrive now tr w in
  let first :=
    batchAgentActivity sessionId (Scenario.thought sessionId b)
      (RateLimitTracker.getRecommendedBatchWindow (tracker (rq w0))) w0 in
  Scenario.emitThoughts remote sessionId ((now, tr, b) :: r) w =
  (first.1 :: (Scenario.emitThoughts remote sessionId r first.2).1,
   (Scenario.emitThoughts remote sessionId r first.2).2).
Proof.
  cbn zeta. cbn [Scenario.emitThoughts]. unfold createAgentActivity.
  rewrite shouldBatch_thought. cbn [agentSessionId Scenario.thought].
  destruct (batchAgentActivity _ _ _ _) as [p w1]. cbn [fst snd].
  by destruct (Scenario.emitThoughts remote sessionId r w1).
Qed.

Lemma emitThoughts_spec (remote : ActivityInput -> nat -> RequestQueue.Outcome)
    (sessionId : string) (events : list (Z * RateLimitTracker.t * string)) (w : t) :
  let n := RequestQueue.nextId (rq w) in
  let bodies := List.map snd events in
  let ps := (Scenario.emitThoughts remote sessionId events w).1 in
  let w' := (Scenario.emitThoughts remote sessionId events w).2 in
  ps = List.seq n (length events) /\
  (events <> [] ->
   activityBatch w' !! sessionId =
     Some (default [] (activityBatch w !! sessionId) ++
           List.map (fun bp => mkItem (Scenario.thought sessionId bp.1) bp.2)
             (List.combine bodies ps))) /\
  (forall p, futures (rq w') !! p =
             if decide (n <= p < n + length events)%nat then Some Pending
             else futures (rq w) !! p).
Proof.
  revert w. induction events as [|[[now tr] b] r IH]; intros w; cbn zeta.
  - split; [reflexivity|]. split; [congruence|].
    intros p. simpl. case_decide; [lia | reflexivity].
  - rewrite emitThoughts_cons. cbn zeta.
    set (w0 := Scenario.arrive now tr w).
    set (window := RateLimitTracker.getRecommendedBatchWindow _).
    destruct (batchAgentActivity_spec sessionId (Scenario.thought sessionId b) window w0)
      as (Hp & Hn & Hf & _ & Hb).
    set (first := batchAgentActivity sessionId (Scenario.thought sessionId b) window w0) in *.
    cbn zeta in Hp, Hn, Hf, Hb.
    change (RequestQueue.nextId (rq w0)) with (RequestQueue.nextId (rq w)) in *.
    change (activityBatch w0) with (activityBatch w) in *.
    change (futures (rq w0)) with (futures (rq w)) in *.
    destruct (IH first.2) as (IHps & IHb & IHf). cbn zeta in IHps, IHb, IHf.
    rewrite Hn in IHps, IHf.
    cbn [fst snd length List.map]. split; [|split].
    + rewrite IHps, Hp. reflexivity.
    + intros _. destruct r as [|ev r'].
      * cbn [Scenario.emitThoughts fst snd List.map List.combine].
        rewrite Hb, lookup_insert_eq, Hp. reflexivity.
      * rewrite IHb by discriminate. rewrite Hb, lookup_insert_eq.
        cbn [default from_option Datatypes.id].
        rewrite <- app_assoc, Hp. reflexivity.
    + intros p. rewrite IHf, Hf, Hp.
      cbn [length] in *.
      repeat case_decide; try lia; try reflexivity.
      * replace p with (RequestQueue.nextId (rq w)) by lia. apply lookup_insert_eq.
      * rewrite lookup_insert_ne by lia. reflexivity.
Qed.

Lemma emitThoughts_nextId (remote : ActivityInput -> nat -> RequestQueue.Outcome)
    (sessionId : string) (events : list (Z * RateLimitTracker.t * string)) (w : t) :
  RequestQueue.nextId (rq (Scenario.emitThoughts remote sessionId events w).2) =
  (RequestQueue.nextId (rq w) + length events)%nat.
Proof.
  revert w. induction events as [|[[now tr] b] r IH]; intros w.
  - simpl. lia.
  - rewrite emitThoughts_cons. cbn zeta. cbn [snd length]. rewrite IH.
    destruct (batchAgentActivity_spec sessionId (Scenario.thought sessionId b)
                (RateLimitTracker.getRecommendedBatchWindow
                   (tracker (rq (Scenario.arrive now tr w))))
                (Scenario.arrive now tr w)) as (_ & Hn & _).
    cbn zeta in Hn. rewrite Hn. simpl. lia.
Qed.

(** *** The flush timer of a session *)

Lemma filter_comm {A : Type} (f g : A -> bool) (l : list A) :
  List.filter f (List.filter g l) = List.filter g (List.filter f l).
Proof.
  induction l as [|x l IH]; simpl; [reflexivity|].
  destruct (f x) eqn:Ef, (g x) eqn:Eg; simpl; rewrite ?Ef, ?Eg, IH; reflexivity.
Qed.

(** Each batched entry replaces the session's timer by a new one, due one
    batch window after the entry. *)
Lemma batchAgentActivity_timer (sessionId : string) (a : ActivityInput) (window : Z) (w : t) :
  Scenario.timerState sessionId w ->
  let w' := (batchAgentActivity sessionId a window w).2 in
  batchTimers w' !! sessionId = Some (RequestQueue.nextHandle (rq w)) /\
  Scenario.flushTimersOf sessionId w' =
    [RequestQueue.mkTimer (RequestQueue.nextHandle (rq w)) (RequestQueue.now (rq w) + window)
       (RequestQueue.External sessionId)].
Proof.
  unfold Scenario.timerState, Scenario.flushTimersOf, batchAgentActivity.
  intros Hst. cbn zeta. simpl.
  destruct (batchTimers w !! sessionId) as [h|]; simpl;
    (split; [apply lookup_insert_eq|]); rewrite List.filter_app; simpl;
    unfold Scenario.isFlushTimer at 2; simpl; rewrite String.eqb_refl.
  - destruct Hst as [d Hd]. rewrite filter_comm, Hd. simpl.
    by rewrite Nat.eqb_refl.
  - by rewrite Hst.
Qed.

Lemma emitThoughts_timer (remote : ActivityInput -> nat -> RequestQueue.Outcome)
    (sessionId : string) (events : list (Z * RateLimitTracker.t * string)) (w : t) :
  events <> [] ->
  Scenario.timerState sessionId w ->
  let w' := (Scenario.emitThoughts remote sessionId events w).2 in
  exists h,
    batchTimers w' !! sessionId = Some h /\
    Scenario.flushTimersOf sessionId w' =
      [RequestQueue.mkTimer h (Scenario.lastDue events) (RequestQueue.External sessionId)].
Proof.
  revert w. induction events as [|[[now tr] b] r IH]; intros w Hne Hst; [congruence|].
  cbn zeta. rewrite emitThoughts_cons. cbn zeta. cbn [snd].
  set (w0 := Scenario.arrive now tr w).
  assert (Hst0 : Scenario.timerState sessionId w0) by exact Hst.
  destruct (batchAgentActivity_timer sessionId (Scenario.thought sessionId b)
              (RateLimitTracker.getRecommendedBatchWindow (tracker (rq w0))) w0 Hst0)
    as (Hh & Ht).
  set (first := batchAgentActivity sessionId (Scenario.thought sessionId b) _ w0) in *.
  cbn zeta in Hh, Ht.
  destruct r as [|ev r'].
  - eexists. split; [exact Hh|]. exact Ht.
  - destruct (IH first.2 ltac:(discriminate)) as (h & H1 & H2).
    + unfold Scenario.timerState. rewrite Hh. eexists. exact Ht.
    + exists h. split; [exact H1|]. exact H2.
Qed.
Lemma thought_items (sessionId : string) (bodies : list string) (ps : list nat) :
  length ps = length bodies ->
  let items :=
    List.map (fun bp => mkItem (Scenario.thought sessionId bp.1) bp.2)
      (List.combine bodies ps) in
  List.filter isThought items = items /\
  List.filter (fun i => negb (isThought i)) items = [] /\
  List.map thoughtBody items = bodies /\
  List.map promise items = ps.
Proof.
  revert ps. induction bodies as [|b r IH]; intros [|p ps] Hlen; simpl in Hlen;
    try discriminate; cbn zeta; [by repeat split|].
  destruct (IH ps ltac:(lia)) as (H1 & H2 & H3 & H4). cbn zeta in H1, H2, H3, H4.
  cbn [List.combine List.map List.filter isThought has_type activity content
       Scenario.thought type fst snd negb thoughtBody body promise].
  change (String.eqb "thought" "thought") with true. cbn [negb].
  by rewrite H1, H2, H3, H4.
Qed.

(** *** The closure of [executeWithTracking] on a rate-limit error *)

Lemma limit_headers (s : string) :
  let headers : gmap string RateLimitTracker.HeaderValue :=
    <["x-ratelimit-requests-remaining" := RateLimitTracker.Single "0"]>
      {["x-ratelimit-requests-reset" := RateLimitTracker.Single s]} in
  RateLimitTracker.getHeaderValue headers "x-ratelimit-requests-remaining" = Some "0" /\
  RateLimitTracker.getHeaderValue headers "x-ratelimit-requests-reset" = Some s /\
  RateLimitTracker.getHeaderValue headers "x-ratelimit-requests-limit" = None /\
  RateLimitTracker.getHeaderValue headers "x-ratelimit-complexity-remaining" = None /\
  RateLimitTracker.getHeaderValue headers "x-ratelimit-complexity-limit" = None.
Proof.
  cbn zeta. unfold RateLimitTracker.getHeaderValue.
  rewrite lookup_insert_eq.
  rewrite !lookup_insert_ne by discriminate.
  rewrite lookup_singleton_eq.
  rewrite !lookup_singleton_ne by discriminate.
  repeat split.
Qed.

Lemma tracked_limit (operation : nat -> RequestQueue.Outcome) (k : nat)
    (tr : RateLimitTracker.t) (now : Z) (error : RequestQueue.Error) :
  operation k = Thrown error -> WrapperMore.isLimit error = true ->
  let tr' := snd (tracked operation k tr now) in
  RateLimitTracker.requestsRemaining tr' = Num 0 /\
  RateLimitTracker.requestsLimit tr' = RateLimitTracker.requestsLimit tr /\
  RateLimitTracker.resetTimestamp tr' =
    match RequestQueue.resetHeader error with
    | Some h =>
        if String.eqb h "" then Js.mul (Js.of_Z ((now + 3600000) / 1000)) 1000
        else Js.mul (Js.parseInt h) 1000
    | None => Js.mul (Js.of_Z ((now + 3600000) / 1000)) 1000
    end.
Proof.
  intros Hop Hlim. cbn zeta. unfold tracked. rewrite Hop.
  unfold WrapperMore.isLimit in Hlim. rewrite Hlim. cbn [snd].
  set (s := match RequestQueue.resetHeader error with
            | Some h => if String.eqb h "" then _ else h
            | None => _
            end).
  destruct (limit_headers s) as (H1 & H2 & H3 & _). cbn zeta in H1, H2, H3.
  unfold RateLimitTracker.updateFromHeaders, RateLimitTracker.trackRequest.
  cbn [RateLimitTracker.requestsRemaining RateLimitTracker.requestsLimit
       RateLimitTracker.resetTimestamp].
  rewrite H1, H2, H3. split; [reflexivity|]. split; [reflexivity|].
  unfold s. destruct (RequestQueue.resetHeader error) as [h|];
    [destruct (String.eqb h "")|]; try reflexivity;
    by rewrite JsFacts.parseInt_numeral.
Qed.

(** *** The suspended flush *)

Section Flush.
Variable remote : ActivityInput -> nat -> RequestQueue.Outcome.

Lemma sendNext_spec (thoughtCbs otherCbs : list nat) (item : BatchItem)
    (r : list BatchItem) (w : t) :
  let p := RequestQueue.nextId (rq w) in
  let request :=
    RequestQueue.mkRequest p (determinePriority "createAgentActivity" (activity item))
      (tracked (remote (activity item))) (RequestQueue.now (rq w)) 0 0 in
  let sent := sendNext remote thoughtCbs otherCbs (item :: r) w in
  sent.2 = Some (mkFlush p (Some (promise item)) thoughtCbs otherCbs r) /\
  activityBatch sent.1 = activityBatch w /\
  batchTimers sent.1 = batchTimers w /\
  futures (rq sent.1) = <[p := Pending]> (futures (rq w)) /\
  queue (rq sent.1) = queue (RequestQueue.insertByPriority request (rq w)).
Proof.
  cbn zeta. unfold sendNext.
  destruct (executeWithTracking_spec (remote (activity item)) "createAgentActivity"
              (activity item) w) as (Hp & Hb & Ht & Hf & Hq).
  cbn zeta in Hp, Hb, Ht, Hf, Hq.
  destruct (executeWithTracking _ _ _ w) as [p w'].
  cbn [fst snd] in *. subst p. by repeat split.
Qed.

Lemma resume_pending (f : Flush) (w : t) :
  futures (rq w) !! awaited f = Some Pending -> resume remote f w = (w, Some f).
Proof. intros H. unfold resume. by rewrite H. Qed.

Lemma resume_resolved (f : Flush) (w : t) (result : RequestQueue.Value) :
  futures (rq w) !! awaited f = Some (Resolved result) ->
  resume remote f w =
  sendNext remote (thoughtCallbacks f) (otherCallbacks f) (toSend f)
    (with_rq
       (RequestQueue.with_futures
          match current f with
          | None => resolveAll (thoughtCallbacks f) result (futures (rq w))
          | Some callback => RequestQueue.settle callback (Resolved result) (futures (rq w))
          end (rq w)) w).
Proof. intros H. unfold resume. by rewrite H. Qed.

Lemma resume_rejected (f : Flush) (w : t) (error : RequestQueue.Error) :
  futures (rq w) !! awaited f = Some (Rejected error) ->
  resume remote f w =
  (with_rq
     (RequestQueue.with_futures
        (rejectAll (thoughtCallbacks f ++ otherCallbacks f) error (futures (rq w)))
        (rq w)) w,
   None).
Proof. intros H. unfold resume. by rewrite H. Qed.

(** The flush of a batch that holds thoughts only: one call is handed to
    the queue, and the flush waits for it. *)
Lemma flushTimer_thoughts (sessionId : string) (w : t) (items : list BatchItem) :
  activityBatch w !! sessionId = Some items ->
  items <> [] ->
  List.filter isThought items = items ->
  List.filter (fun i => negb (isThought i)) items = [] ->
  let p := RequestQueue.nextId (rq w) in
  let request :=
    RequestQueue.mkRequest p low
      (tracked (remote (mergedPayload sessionId (List.map thoughtBody items))))
      (RequestQueue.now (rq w)) 0 0 in
  let flushed := flushTimer remote sessionId w in
  flushed.2 = Some (mkFlush p None (List.map promise items) [] []) /\
  queue (rq flushed.1) = queue (RequestQueue.insertByPriority request (rq w)) /\
  futures (rq flushed.1) = <[p := Pending]> (futures (rq w)) /\
  activityBatch flushed.1 = delete sessionId (activityBatch w) /\
  batchTimers flushed.1 = delete sessionId (batchTimers w).
Proof.
  intros Hb Hne H1 H2. cbn zeta. unfold flushTimer, processBatchedActivities.
  rewrite Hb, H1, H2. destruct items as [|i r]; [congruence|].
  cbn [List.map].
  set (w0 := mk (rq w) (delete sessionId (activityBatch w)) (batchTimers w)).
  set (a := mergedPayload sessionId _).
  destruct (executeWithTracking_spec (remote a) "createAgentActivity"
              (mkInput sessionId (Some (mkContent "thought" ""))) w0)
    as (Hp & Hbatch & Ht & Hf & Hq).
  cbn zeta in Hp, Hbatch, Ht, Hf, Hq.
  destruct (executeWithTracking _ _ _ w0) as [p w1].
  cbn [fst snd] in *. subst p.
  cbn [rq activityBatch batchTimers].
  split; [reflexivity|]. split; [exact Hq|]. split; [exact Hf|].
  split; [exact Hbatch | by rewrite Ht].
Qed.

(** A low-priority call is admitted in normal mode and in no other. *)
Lemma low_admitted_in_normal_mode (tr : RateLimitTracker.t) (r : Z) :
  RateLimitTracker.requestsRemaining tr = Num r ->
  RateLimitTracker.shouldAllowRequest tr low = true <->
  RateLimitTracker.getOperationMode tr = normal_mode.
Proof.
  intros Hr. unfold RateLimitTracker.shouldAllowRequest, RateLimitTracker.getOperationMode.
  rewrite Hr. unfold Js.gt, Js.le, RateLimitTracker.CONSERVATIVE_THRESHOLD,
    RateLimitTracker.EMERGENCY_THRESHOLD.
  destruct (Z.ltb_spec 300 r); [by split|].
  destruct (Z.leb_spec r 100), (Z.ltb_spec 100 r); try lia; [by split|].
  destruct (Z.leb_spec r 300); [by split | lia].
Qed.

(** The run of a request that [executeWithTracking] queued. *)
Lemma tracked_fulfilled (operation : nat -> RequestQueue.Outcome) (k : nat)
    (tr : RateLimitTracker.t) (now : Z) (result : RequestQueue.Value) :
  operation k = Fulfilled result ->
  tracked operation k tr now = (Fulfilled result, RateLimitTracker.consumeRequest now tr).
Proof. intros H. unfold tracked. by rewrite H. Qed.

Lemma tracked_thrown (operation : nat -> RequestQueue.Outcome) (k : nat)
    (tr : RateLimitTracker.t) (now : Z) (error : RequestQueue.Error) :
  operation k = Thrown error ->
  tracked operation k tr now = (Thrown error, (tracked operation k tr now).2).
Proof. intros H. unfold tracked. rewrite H. by destruct (_ || _). Qed.

Lemma includes_rate_limit (error : RequestQueue.Error) :
  RequestQueue.isRateLimitError error = true ->
  match RequestQueue.message error with
  | Some m => Js.includes "rate limit" m || Js.includes "429" m
  | None => false
  end
  || match RequestQueue.status error with
     | Some c => c =? 429
     | None => false
     end = true.
Proof.
  unfold RequestQueue.isRateLimitError. destruct (RequestQueue.message error) as [m|];
    [|discriminate]. by intros ->.
Qed.

End Flush.

(** *** The merged call of a flush *)

(** C7, as amended. Thoughts emitted for one idle session while no flush
    of that session intervenes. Until the flush all callers' promises are
    pending, and exactly one flush timer of the session is pending, due one
    batch window after the last thought. The flush hands exactly one call
    to the queue, at low priority, whose body is [combinedBody] of the
    bodies in arrival order, and waits for it; the batch is gone. The queue
    admits a low-priority call in normal mode and in no other (the
    remaining count being a number). While the call's promise is pending
    the flush settles nothing. When the queue runs the call and it
    succeeds, every caller's promise resolves to its result; when it fails
    with an error that the queue does not retry, every caller's promise is
    rejected with that error; in both cases the flush ends and hands
    nothing more to the queue. When it fails with an error that the queue
    retries, the callers stay pending, the call waits for its retry timer
    and the tracker is in emergency mode. *)
Theorem batch_merge (remote : ActivityInput -> nat -> RequestQueue.Outcome)
    (sessionId : string) (events : list (Z * RateLimitTracker.t * string)) (w : t) :
  events <> [] ->
  Scenario.idle sessionId w ->
  let bodies := List.map snd events in
  let callers := (Scenario.emitThoughts remote sessionId events w).1 in
  let w1 := (Scenario.emitThoughts remote sessionId events w).2 in
  let a := mkInput sessionId (Some (mkContent "thought" (combinedBody bodies))) in
  let p := RequestQueue.nextId (rq w1) in
  let request :=
    RequestQueue.mkRequest p low (tracked (remote a)) (RequestQueue.now (rq w1)) 0 0 in
  let f := mkFlush p None callers [] [] in
  let w2 := (flushTimer remote sessionId w1).1 in
  length callers = length events /\
  Forall (fun c => futures (rq w1) !! c = Some Pending) callers /\
  (exists h,
     batchTimers w1 !! sessionId = Some h /\
     Scenario.flushTimersOf sessionId w1 =
       [RequestQueue.mkTimer h (Scenario.lastDue events) (RequestQueue.External sessionId)]) /\
  (flushTimer remote sessionId w1).2 = Some f /\
  queue (rq w2) = queue (RequestQueue.insertByPriority request (rq w1)) /\
  futures (rq w2) = <[p := Pending]> (futures (rq w1)) /\
  activityBatch w2 !! sessionId = None /\
  batchTimers w2 !! sessionId = None /\
  (forall tr r, RateLimitTracker.requestsRemaining tr = Num r ->
     RateLimitTracker.shouldAllowRequest tr (RequestQueue.priority request) = true <->
     RateLimitTracker.getOperationMode tr = normal_mode) /\
  (forall w3,
     futures (rq w3) !! p = Some Pending ->
     Forall (fun c => futures (rq w3) !! c = Some Pending) callers ->
     let st := RequestQueue.executeRequest request (rq w3) in
     let resumed := resume remote f (with_rq st w3) in
     resume remote f w3 = (w3, Some f) /\
     (forall result, remote a 0%nat = Fulfilled result ->
        resumed.2 = None /\
        Forall (fun c => futures (rq resumed.1) !! c = Some (Resolved result)) callers /\
        queue (rq resumed.1) = queue (rq w3)) /\
     (forall error, remote a 0%nat = Thrown error ->
        RequestQueue.isRateLimitError error = false ->
        resumed.2 = None /\
        Forall (fun c => futures (rq resumed.1) !! c = Some (Rejected error)) callers /\
        queue (rq resumed.1) = queue (rq w3)) /\
     (forall error, remote a 0%nat = Thrown error ->
        RequestQueue.isRateLimitError error = true ->
        resumed = (with_rq st w3, Some f) /\
        futures st = futures (rq w3) /\
        RateLimitTracker.getOperationMode (tracker st) = emergency /\
        RequestQueue.timers st =
          RequestQueue.timers (rq w3) ++
          [RequestQueue.mkTimer (RequestQueue.nextHandle (rq w3))
             (RequestQueue.now (rq w3) + 1000)
             (RequestQueue.Requeue
                (RequestQueue.mkRequest p low (tracked (remote a))
                   (RequestQueue.now (rq w1)) 1 1))])).
Proof.
  intros Hne (Hnone & Htimer & Hflush). cbn zeta.
  assert (Hst : Scenario.timerState sessionId w)
    by (unfold Scenario.timerState; by rewrite Htimer).
  pose proof (emitThoughts_timer remote sessionId events w Hne Hst) as Hone.
  cbn zeta in Hone.
  destruct (emitThoughts_spec remote sessionId events w) as (Hps & Hb & Hf).
  cbn zeta in Hps, Hb, Hf. specialize (Hb Hne). rewrite Hnone in Hb. simpl app in Hb.
  pose proof (emitThoughts_nextId remote sessionId events w) as Hn.
  set (callers := (Scenario.emitThoughts remote sessionId events w).1) in *.
  set (w1 := (Scenario.emitThoughts remote sessionId events w).2) in *.
  set (bodies := List.map snd events) in *.
  assert (Hlen : length callers = length bodies).
  { rewrite Hps. unfold bodies. by rewrite length_seq, length_map. }
  destruct (thought_items sessionId bodies callers Hlen) as (H1 & H2 & H3 & H4).
  cbn zeta in H1, H2, H3, H4.
  set (items := List.map (fun bp => mkItem (Scenario.thought sessionId bp.1) bp.2)
                  (List.combine bodies callers)) in *.
  assert (Hitems : items <> []).
  { intros E. rewrite E in H3. simpl in H3. unfold bodies in H3.
    destruct events; [congruence | discriminate]. }
  assert (Hpending : forall c, In c callers -> futures (rq w1) !! c = Some Pending).
  { intros c Hin. rewrite Hf. rewrite Hps in Hin. apply in_seq in Hin.
    case_decide; [reflexivity | lia]. }
  assert (Hfresh : ~ In (RequestQueue.nextId (rq w1)) callers).
  { rewrite Hps, Hn. intros Hin. apply in_seq in Hin. lia. }
  destruct (flushTimer_thoughts remote sessionId w1 items Hb Hitems H1 H2)
    as (Eflush & Eq & Efs & Ebatch & Etimers).
  cbn zeta in Eflush, Eq, Efs, Ebatch, Etimers. rewrite H3, H4 in *.
  set (p := RequestQueue.nextId (rq w1)) in *.
  set (a := mkInput sessionId (Some (mkContent "thought" (combinedBody bodies)))).
  change (mergedPayload sessionId bodies) with a in *.
  set (request := RequestQueue.mkRequest p low (tracked (remote a))
                    (RequestQueue.now (rq w1)) 0 0) in *.
  set (f := mkFlush p None callers [] []) in *.
  split; [by rewrite Hlen; unfold bodies; rewrite length_map|].
  split; [by apply List.Forall_forall|].
  split; [exact Hone|].
  split; [exact Eflush|]. split; [exact Eq|]. split; [exact Efs|].
  split; [rewrite Ebatch; apply lookup_delete_eq|].
  split; [rewrite Etimers; apply lookup_delete_eq|].
  split; [intros tr r Hr; by apply (low_admitted_in_normal_mode tr r)|].
  intros w3 Hp3 Hc3. rewrite List.Forall_forall in Hc3.
  split; [by apply resume_pending|]. split; [|split].
  - intros result Hok.
    pose proof (tracked_fulfilled (remote a) 0 (tracker (rq w3)) (RequestQueue.now (rq w3))
                  result Hok) as Hrun.
    rewrite (QueueSpec.executeRequest_fulfilled request (rq w3) result _ Hrun).
    set (st := RequestQueue.resolve _ _ _).
    assert (Hp : futures st !! p = Some (Resolved result))
      by (by apply QueueSpec.settle_pending).
    rewrite (resume_resolved remote f (with_rq st w3) result Hp).
    cbn [sendNext toSend f fst snd current thoughtCallbacks rq with_rq futures
         RequestQueue.with_futures queue].
    split; [reflexivity|]. split; [|reflexivity].
    apply List.Forall_forall. intros c Hin. apply settleAll_in; [discriminate | exact Hin|].
    unfold st. cbn [RequestQueue.resolve futures RequestQueue.with_futures
                    RequestQueue.with_tracker RequestQueue.id request].
    rewrite QueueSpec.settle_other by (intros ->; by apply Hfresh).
    by apply Hc3.
  - intros error Hfail Hretry.
    pose proof (tracked_thrown (remote a) 0 (tracker (rq w3)) (RequestQueue.now (rq w3))
                  error Hfail) as Hrun.
    rewrite (QueueSpec.executeRequest_reject request (rq w3) error _ Hrun (or_introl Hretry)).
    set (st := RequestQueue.reject _ _ _).
    assert (Hp : futures st !! p = Some (Rejected error))
      by (by apply QueueSpec.settle_pending).
    rewrite (resume_rejected remote f (with_rq st w3) error Hp).
    cbn [fst snd thoughtCallbacks otherCallbacks f rq with_rq futures
         RequestQueue.with_futures queue].
    rewrite app_nil_r.
    split; [reflexivity|]. split; [|reflexivity].
    apply List.Forall_forall. intros c Hin. apply settleAll_in; [discriminate | exact Hin|].
    unfold st. cbn [RequestQueue.reject futures RequestQueue.with_futures
                    RequestQueue.with_tracker RequestQueue.id request].
    rewrite QueueSpec.settle_other by (intros ->; by apply Hfresh).
    by apply Hc3.
  - intros error Hfail Hretry.
    pose proof (tracked_thrown (remote a) 0 (tracker (rq w3)) (RequestQueue.now (rq w3))
                  error Hfail) as Hrun.
    rewrite (QueueSpec.executeRequest_retry request (rq w3) error _ Hrun Hretry)
      by (cbn; unfold RequestQueue.MAX_RETRIES; lia).
    destruct (tracked_limit (remote a) 0 (tracker (rq w3)) (RequestQueue.now (rq w3)) error
                Hfail (includes_rate_limit error Hretry)) as (Hzero & _).
    cbn zeta in Hzero.
    set (tr := (tracked (remote a) 0%nat (tracker (rq w3)) (RequestQueue.now (rq w3))).2) in *.
    split; [|split; [reflexivity|split]].
    + apply resume_pending. exact Hp3.
    + cbn [RequestQueue.setTimeout snd tracker RequestQueue.with_timers
           RequestQueue.with_nextHandle RequestQueue.with_tracker].
      unfold RateLimitTracker.getOperationMode. by rewrite Hzero.
    + reflexivity.
Qed.

Lemma combinedBody_one (b : string) : combinedBody [b] = b.
Proof. reflexivity. Qed.

Lemma combinedBody_three (a b c : string) :
  combinedBody [a; b; c] =
  ("1. " ++ a ++ newline ++ "2. " ++ b ++ newline ++ "3. " ++ c)%string.
Proof. reflexivity. Qed.

(** C7 on three thoughts, emitted 100 ms apart on a fresh wrapper: one
    call with the numbered body is queued, and when the queue runs it the
    three callers get its result. *)
Lemma batch_merge_witness :
  let w := LinearClientWrapper.init 0 (RateLimitTracker.init 0) in
  let callers := (Scenario.emitThoughts Scenario.alwaysOk "s" Scenario.threeThoughts w).1 in
  let w1 := (Scenario.emitThoughts Scenario.alwaysOk "s" Scenario.threeThoughts w).2 in
  let flushed := flushTimer Scenario.alwaysOk "s" w1 in
  let request :=
    RequestQueue.mkRequest 3 low
      (tracked (Scenario.alwaysOk
                  (Scenario.thought "s" ("1. a" ++ newline ++ "2. b" ++ newline ++ "3. c"))))
      200 0 0 in
  let st := RequestQueue.executeRequest request (rq flushed.1) in
  let resumed := resume Scenario.alwaysOk (mkFlush 3 None callers [] [])
                   (with_rq st flushed.1) in
  callers = [0; 1; 2]%nat /\
  List.map RequestQueue.due (Scenario.flushTimersOf "s" w1) = [200 + 500] /\
  flushed.2 = Some (mkFlush 3 None callers [] []) /\
  queue (rq flushed.1) = [request] /\
  resumed.2 = None /\
  Forall (fun c => futures (rq resumed.1) !! c = Some (Resolved "ok")) callers.
Proof.
  destruct (batch_merge Scenario.alwaysOk "s" Scenario.threeThoughts
              (LinearClientWrapper.init 0 (RateLimitTracker.init 0))
              ltac:(discriminate) ltac:(repeat split))
    as (_ & _ & (h & _ & Htimer) & Hflush & Hq & Hfs & _ & _ & _ & Hrun).
  cbn zeta. split; [reflexivity|]. split; [by rewrite Htimer|].
  split; [exact Hflush|]. split; [exact Hq|].
  destruct (Hrun (flushTimer Scenario.alwaysOk "s"
                    (Scenario.emitThoughts Scenario.alwaysOk "s" Scenario.threeThoughts
                       (LinearClientWrapper.init 0 (RateLimitTracker.init 0))).2).1)
    as (_ & Hok & _).
  - rewrite Hfs. apply lookup_insert_eq.
  - rewrite Hfs. repeat constructor.
  - destruct (Hok "ok" eq_refl) as (Hend & Hres & _). split; [exact Hend | exact Hres].
Defined.

(** A run that is evaluated gives its result. *)
Lemma evaluated {A : Type} (o : option A) (P : A -> Prop) :
  match o with Some x => P x | None => False end -> exists x, o = Some x /\ P x.
Proof. destruct o as [x|]; [|done]. intros H. by exists x. Qed.

(** The same three thoughts in the timer loop. The flush timer fires and
    then the timer of the queue, whose pass admits the call (the mode is
    normal): the callers are resolved, and one request was consumed. *)
Lemma three_thoughts_in_normal_mode :
  exists x,
    Gateway.runTimers Scenario.alwaysOk 2 10 WrapperMore.threeEmitted = Some x /\
    (List.map (fun c => futures (rq (Gateway.wrapper x)) !! c) [0; 1; 2]%nat =
       [Some (Resolved "ok"); Some (Resolved "ok"); Some (Resolved "ok")] /\
     Gateway.flushes x = [] /\
     List.map RequestQueue.id (queue (rq (Gateway.wrapper x))) = [] /\
     List.map RequestQueue.handle (RequestQueue.timers (rq (Gateway.wrapper x))) = [] /\
     RateLimitTracker.requestsRemaining (tracker (rq (Gateway.wrapper x))) = Num 1199).
Proof. apply evaluated. vm_compute. by repeat split. Qed.

(** A pass of the queue over low-priority calls that are not admitted
    does not end, so that the firing of its timer does not return. *)
Lemma blocked_pass_never_ends (remote : ActivityInput -> nat -> RequestQueue.Outcome)
    (fuel : nat) (x : Gateway.t) :
  option_map RequestQueue.callback (RequestQueue.nextTimer (rq (Gateway.wrapper x))) =
    Some RequestQueue.ProcessQueue ->
  RequestQueue.processing (rq (Gateway.wrapper x)) = false ->
  queue (rq (Gateway.wrapper x)) <> [] ->
  Forall (fun request => RequestQueue.priority request = low)
    (queue (rq (Gateway.wrapper x))) ->
  RateLimitTracker.shouldAllowRequest (tracker (rq (Gateway.wrapper x))) low = false ->
  Gateway.act remote (Gateway.NextTimer fuel) x = None.
Proof.
  intros Hn Hp Hq Hlow Hdeny. cbn [Gateway.act Gateway.runTimers].
  destruct (RequestQueue.nextTimer (rq (Gateway.wrapper x))) as [tm|]; [|discriminate].
  injection Hn as Hcb.
  unfold Gateway.fire, RequestQueue.fire. rewrite Hcb.
  by rewrite QueueSpec.processQueue_spins.
Qed.

(** Against C7 as stated. A comment on a fresh gateway is refused with
    status 429, which puts the tracker into emergency mode. Three thoughts
    are then emitted for one session and their flush timer fires: the
    merged call is queued at low priority, which emergency mode does not
    admit. The pass of the queue that finds it does not end on any amount
    of fuel: no outbound call is made, though the remote call would
    succeed, and the three callers stay pending. *)
Lemma merged_call_never_made :
  exists x,
    Gateway.reach Scenario.alwaysOk WrapperMore.refusedThenThoughts (Gateway.init 0)
      = Some x /\
    RateLimitTracker.getOperationMode (tracker (rq (Gateway.wrapper x))) = emergency /\
    Gateway.flushes x = [mkFlush 4 None [1; 2; 3]%nat [] []] /\
    List.map (fun request => (RequestQueue.id request, RequestQueue.priority request))
      (queue (rq (Gateway.wrapper x))) = [(4%nat, low)] /\
    List.map (fun c => futures (rq (Gateway.wrapper x)) !! c) [1; 2; 3; 4]%nat =
      [Some Pending; Some Pending; Some Pending; Some Pending] /\
    forall fuel, Gateway.act Scenario.alwaysOk (Gateway.NextTimer fuel) x = None.
Proof.
  assert (H : match Gateway.reach Scenario.alwaysOk WrapperMore.refusedThenThoughts
                      (Gateway.init 0) with
              | Some x =>
                  (RateLimitTracker.getOperationMode (tracker (rq (Gateway.wrapper x)))
                     = emergency /\
                   Gateway.flushes x = [mkFlush 4 None [1; 2; 3]%nat [] []] /\
                   List.map (fun request =>
                               (RequestQueue.id request, RequestQueue.priority request))
                     (queue (rq (Gateway.wrapper x))) = [(4%nat, low)] /\
                   List.map (fun c => futures (rq (Gateway.wrapper x)) !! c)
                     [1; 2; 3; 4]%nat =
                     [Some Pending; Some Pending; Some Pending; Some Pending]) /\
                  option_map RequestQueue.callback
                    (RequestQueue.nextTimer (rq (Gateway.wrapper x))) =
                    Some RequestQueue.ProcessQueue /\
                  RequestQueue.processing (rq (Gateway.wrapper x)) = false /\
                  RateLimitTracker.shouldAllowRequest
                    (tracker (rq (Gateway.wrapper x))) low = false
              | None => False
              end).
  { vm_compute. by repeat split. }
  destruct (Gateway.reach _ _ _) as [x|]; [|destruct H]. exists x.
  destruct H as ((Hm & Hf & Hq & Hp) & Hn & Hproc & Hdeny).
  split; [reflexivity|]. split; [exact Hm|]. split; [exact Hf|].
  split; [exact Hq|]. split; [exact Hp|].
  intros fuel. apply blocked_pass_never_ends; try assumption.
  - intros E. by rewrite E in Hq.
  - destruct (queue (rq (Gateway.wrapper x))) as [|r [|r' q]]; try discriminate.
    injection Hq as _ Hlow. by repeat constructor.
Qed.

End WrapperSpec.

(** ** More on the quota tracker *)

Module TrackerProps.
Import RateLimitTracker TrackerMore.

(** *** Admission *)

(** X1. Admission never prefers a lower priority: whatever the state of the
    tracker (NaN included), a critical request is admitted, and a request
    is admitted whenever one of lower priority is. *)
Theorem admission_by_priority (tr : t) :
  shouldAllowRequest tr critical = true /\
  forall p q,
    (RequestQueue.priorityOrder q <= RequestQueue.priorityOrder p)%nat ->
    shouldAllowRequest tr p = true -> shouldAllowRequest tr q = true.
Proof.
  unfold shouldAllowRequest.
  destruct (Js.gt (requestsRemaining tr) CONSERVATIVE_THRESHOLD),
           (Js.le (requestsRemaining tr) EMERGENCY_THRESHOLD),
           (Js.le (requestsRemaining tr) CONSERVATIVE_THRESHOLD);
    (split; [reflexivity|]); intros [] []; simpl; intros; try reflexivity;
    try discriminate; lia.
Qed.

(** X2. More remaining requests never close a door: a priority admitted at
    a count [r] is admitted at every larger count. *)
Theorem admission_by_remaining (tr tr' : t) (r r' : Z) (p : RequestPriority) :
  requestsRemaining tr = Num r ->
  requestsRemaining tr' = Num r' ->
  r <= r' ->
  shouldAllowRequest tr p = true ->
  shouldAllowRequest tr' p = true.
Proof.
  unfold shouldAllowRequest. intros -> -> Hle.
  unfold Js.gt, Js.le, CONSERVATIVE_THRESHOLD, EMERGENCY_THRESHOLD.
  destruct (Z.ltb_spec 300 r), (Z.ltb_spec 300 r'), (Z.leb_spec r 100), (Z.leb_spec r' 100),
    (Z.leb_spec r 300), (Z.leb_spec r' 300); try lia; destruct p; simpl; congruence.
Qed.

Lemma admission_by_remaining_witness :
  shouldAllowRequest (Scenario.trackerAt "250") normal = true.
Proof.
  apply (admission_by_remaining (Scenario.trackerAt "200") (Scenario.trackerAt "250")
           200 250 normal eq_refl eq_refl); [lia | reflexivity].
Defined.

(** *** Manual consumption *)

Lemma consume_fields (now : Z) (tr : t) :
  requestsRemaining (consumeRequest now tr) = Js.max0_pred (requestsRemaining tr) /\
  requestsLimit (consumeRequest now tr) = requestsLimit tr /\
  resetTimestamp (consumeRequest now tr) = resetTimestamp tr /\
  complexityRemaining (consumeRequest now tr) = complexityRemaining tr /\
  complexityLimit (consumeRequest now tr) = complexityLimit tr.
Proof. repeat split. Qed.

(** X3. [n] manual consumptions take [n] off a remaining count of at most
    2^53 and stop at zero; the limit, the reset time and the complexity
    quota are not touched. *)
Theorem consume_repeatedly (times : list Z) (tr : t) (r : Z) :
  requestsRemaining tr = Num r ->
  0 <= r <= Js.two53 ->
  let tr' := run (List.map Consume times) tr in
  requestsRemaining tr' = Num (Z.max 0 (r - Z.of_nat (length times))) /\
  requestsLimit tr' = requestsLimit tr /\
  resetTimestamp tr' = resetTimestamp tr /\
  complexityRemaining tr' = complexityRemaining tr /\
  complexityLimit tr' = complexityLimit tr.
Proof.
  cbn zeta. revert tr r. induction times as [|now times IH]; intros tr r Hr Hpos.
  - simpl. rewrite Hr. repeat split. f_equal. lia.
  - cbn [List.map run fold_left step length].
    destruct (consume_fields now tr) as (H1 & H2 & H3 & H4 & H5).
    rewrite Hr, JsFacts.max0_pred_small in H1 by exact Hpos.
    destruct (IH (consumeRequest now tr) (Z.max 0 (r - 1)) H1 ltac:(lia))
      as (I1 & I2 & I3 & I4 & I5).
    unfold run in *. rewrite I1, I2, I3, I4, I5, H2, H3, H4, H5.
    repeat split. f_equal. lia.
Qed.

Lemma consume_repeatedly_witness :
  requestsRemaining (run (List.map Consume [1; 2; 3]) (Scenario.trackerAt "2")) = Num 0.
Proof.
  apply (consume_repeatedly [1; 2; 3] (Scenario.trackerAt "2") 2 eq_refl).
  unfold Js.two53. lia.
Defined.

(** Beyond 2^53 a consumption need not change the count: 2^54 - 1 is no
    double and is rounded back to 2^54. *)
Lemma consume_beyond_exact (now : Z) :
  requestsRemaining (consumeRequest now (Scenario.trackerAt "18014398509481984"))
  = Num 18014398509481984.
Proof. vm_compute. reflexivity. Qed.

(** *** The sliding window of request times *)

Lemma step_history (tr : t) (o : op) :
  requestHistory (step tr o) =
  List.filter (fun ts => opTime o - HISTORY_WINDOW_MS <? ts) (requestHistory tr ++ [opTime o]).
Proof. by destruct o. Qed.

Lemma filter_narrow (c1 c2 : Z) (l : list Z) :
  c1 <= c2 ->
  List.filter (fun ts => c2 <? ts) (List.filter (fun ts => c1 <? ts) l) =
  List.filter (fun ts => c2 <? ts) l.
Proof.
  intros Hc. induction l as [|x l IH]; simpl; [reflexivity|].
  destruct (Z.ltb_spec c1 x); simpl.
  - by rewrite IH.
  - destruct (Z.ltb_spec c2 x); [lia | exact IH].
Qed.

Lemma nondecreasing_snoc (l : list Z) (t : Z) :
  nondecreasing (l ++ [t]) -> nondecreasing l /\ List.last l t <= t.
Proof.
  intros H. split.
  - intros l1 a b l2 ->. apply (H l1 a b (l2 ++ [t])).
    by rewrite <- !app_assoc.
  - destruct l as [|x l] using rev_ind; [simpl; lia|].
    rewrite last_last. apply (H l x t []). by rewrite <- app_assoc.
Qed.

(** X4. While the clock does not go back, the history is the list of the
    times of the operations of the last 60 seconds: every
    [updateFromHeaders] and [consumeRequest] appends its time and drops
    what is older than the window. *)
Theorem history_is_window (ops : list op) (now0 : Z) :
  nondecreasing (List.map opTime ops) ->
  let times := List.map opTime ops in
  requestHistory (run ops (init now0)) =
  List.filter (fun ts => List.last times 0 - HISTORY_WINDOW_MS <? ts) times.
Proof.
  cbn zeta. induction ops as [|o ops IH] using rev_ind; intros Hmono; [reflexivity|].
  unfold run in *. rewrite fold_left_app. cbn [fold_left].
  rewrite List.map_app in Hmono |- *. cbn [List.map] in Hmono |- *.
  destruct (nondecreasing_snoc _ _ Hmono) as [Hprev Hlast].
  rewrite step_history, IH by exact Hprev. rewrite last_last.
  rewrite !List.filter_app. f_equal.
  destruct ops as [|o' ops' _] using rev_ind; [reflexivity|].
  apply filter_narrow.
  rewrite List.map_app in Hlast |- *. cbn [List.map] in Hlast |- *.
  rewrite last_last in Hlast |- *. lia.
Qed.

Lemma history_is_window_witness :
  requestHistory (run [Consume 1000; Consume 2000; Consume 70000] (init 0)) = [70000].
Proof.
  apply (history_is_window [Consume 1000; Consume 2000; Consume 70000] 0).
  intros [|x [|y [|z l1]]] a b l2 E; simpl in E; inversion E; subst; try lia.
  by destruct l1.
Defined.

(** *** Time until the reset *)

(** X5. A reset header in epoch seconds (up to 9007199254740, so that the
    milliseconds stay below 2^53) is read back, at a reading [later] of
    the clock, as the milliseconds left until then, and as 0 once that
    time has passed. *)
Theorem reset_header_read_back (headers : gmap string HeaderValue) (now later : Z)
    (tr : t) (seconds : Z) :
  getHeaderValue headers "x-ratelimit-requests-reset" = Some (Js.to_string seconds) ->
  0 <= seconds <= 9007199254740 ->
  0 <= later <= 8640000000000000 ->
  getTimeUntilReset later (updateFromHeaders headers now tr) =
    Num (Z.max 0 (seconds * 1000 - later)) /\
  (seconds * 1000 <= later ->
   getTimeUntilReset later (updateFromHeaders headers now tr) = Num 0).
Proof.
  intros H Hs Hl.
  assert (E : resetTimestamp (updateFromHeaders headers now tr) = Num (seconds * 1000)).
  { unfold updateFromHeaders, trackRequest. cbn [resetTimestamp]. rewrite H.
    rewrite JsFacts.parseInt_to_string by (unfold Js.two53; lia).
    cbn [Js.mul]. apply JsFacts.of_Z_small. unfold Js.two53. lia. }
  unfold getTimeUntilReset. rewrite E. cbn [Js.sub].
  rewrite JsFacts.of_Z_small by (unfold Js.two53; lia).
  split; [reflexivity|].
  intros Hpast. cbn [Js.max0]. f_equal. lia.
Qed.

Lemma reset_header_read_back_witness :
  getTimeUntilReset 1000000
    (updateFromHeaders {["x-ratelimit-requests-reset" := Single "4600"]} 1000000 (init 0))
  = Num 3600000.
Proof.
  apply (reset_header_read_back
           {["x-ratelimit-requests-reset" := Single "4600"]} 1000000 1000000 (init 0) 4600);
    [reflexivity | lia | lia].
Defined.

(** Beyond that bound the header is not read back exactly: the numeral
    of 2^53 + 1 is parsed as 2^53. *)
Lemma reset_header_rounded :
  resetTimestamp
    (updateFromHeaders {["x-ratelimit-requests-reset" := Single "9007199254740993"]} 0 (init 0))
  = Num 9007199254740992000.
Proof. vm_compute. reflexivity. Qed.

End TrackerProps.

(** ** More on the issue cache *)

Module CacheProps.
Import IssueCache CacheMore.

(** *** Keys, lookup and deletion *)

Lemma keys_store (key : string) (e : CachedIssue) (c : t) : keys (store key e c) = keys c.
Proof.
  unfold keys. induction c as [|[k x] r IH]; simpl; [reflexivity|].
  destruct (String.eqb k key); simpl; [reflexivity | by rewrite IH].
Qed.

Lemma length_store (key : string) (e : CachedIssue) (c : t) :
  length (store key e c) = length c.
Proof.
  induction c as [|[k x] r IH]; simpl; [reflexivity|].
  destruct (String.eqb k key); simpl; [reflexivity | by rewrite IH].
Qed.

Lemma lookup_None_keys (key : string) (c : t) : lookup key c = None <-> ~ In key (keys c).
Proof.
  unfold keys. induction c as [|[k x] r IH]; simpl; [tauto|].
  destruct (String.eqb_spec k key) as [->|Hne].
  - split; [discriminate | intros H; exfalso; apply H; by left].
  - rewrite IH. split; [intros H [E|E]; [congruence | contradiction] | tauto].
Qed.

Lemma lookup_Some_In (key : string) (e : CachedIssue) (c : t) :
  lookup key c = Some e -> In (key, e) c.
Proof.
  induction c as [|[k x] r IH]; simpl; [discriminate|].
  destruct (String.eqb_spec k key) as [->|Hne]; [intros [= ->]; by left | right; auto].
Qed.

Lemma In_lookup_Some (key : string) (e : CachedIssue) (c : t) :
  List.NoDup (keys c) -> In (key, e) c -> lookup key c = Some e.
Proof.
  unfold keys. induction c as [|[k x] r IH]; simpl; [contradiction|].
  intros Hnd [E|Hin]; inversion Hnd as [|? ? Hk Hr]; subst.
  - injection E as -> ->. by rewrite String.eqb_refl.
  - destruct (String.eqb_spec k key) as [->|Hne]; [|by apply IH].
    exfalso. apply Hk. change key with (fst (key, e)). by apply in_map.
Qed.

Lemma lookup_app_new (key : string) (e : CachedIssue) (c : t) :
  lookup key c = None -> lookup key (c ++ [(key, e)]) = Some e.
Proof.
  induction c as [|[k x] r IH]; simpl; [by rewrite String.eqb_refl|].
  destruct (String.eqb k key); [discriminate | exact IH].
Qed.

Lemma lookup_app_old (key key' : string) (e : CachedIssue) (c : t) :
  key' <> key -> lookup key' (c ++ [(key, e)]) = lookup key' c.
Proof.
  intros Hne. induction c as [|[k x] r IH]; simpl.
  - destruct (String.eqb_spec key key'); [congruence | reflexivity].
  - by destruct (String.eqb k key').
Qed.

Lemma lookup_delete_other (key key' : string) (c : t) :
  key' <> key -> lookup key' (delete key c) = lookup key' c.
Proof.
  intros Hne. induction c as [|[k x] r IH]; simpl; [reflexivity|].
  destruct (String.eqb_spec k key) as [->|H1]; simpl.
  - destruct (String.eqb_spec key key'); [congruence | reflexivity].
  - by rewrite IH.
Qed.

Lemma keys_delete_In (key key' : string) (c : t) :
  In key' (keys (delete key c)) -> In key' (keys c).
Proof.
  unfold keys. induction c as [|[k x] r IH]; simpl; [tauto|].
  destruct (String.eqb k key); simpl; [by right | intros [E|H]; auto].
Qed.

Lemma keys_delete_other (key key' : string) (c : t) :
  In key' (keys c) -> key' <> key -> In key' (keys (delete key c)).
Proof.
  unfold keys. induction c as [|[k x] r IH]; simpl; [tauto|].
  intros [E|H] Hne; destruct (String.eqb_spec k key) as [->|Hk]; simpl; auto; congruence.
Qed.

Lemma NoDup_delete (key : string) (c : t) : List.NoDup (keys c) -> List.NoDup (keys (delete key c)).
Proof.
  unfold keys. induction c as [|[k x] r IH]; simpl; [done|].
  intros Hnd. inversion Hnd as [|? ? Hk Hr]; subst.
  destruct (String.eqb k key); [exact Hr|]. simpl. constructor; [|by apply IH].
  intros H. apply Hk. by apply (keys_delete_In key).
Qed.

Lemma lookup_delete_same (key : string) (c : t) :
  List.NoDup (keys c) -> lookup key (delete key c) = None.
Proof.
  unfold keys. induction c as [|[k x] r IH]; simpl; [done|].
  intros Hnd. inversion Hnd as [|? ? Hk Hr]; subst.
  destruct (String.eqb_spec k key) as [->|Hne]; simpl.
  - by apply lookup_None_keys.
  - destruct (String.eqb_spec k key); [congruence | by apply IH].
Qed.

Lemma length_delete (key : string) (c : t) :
  In key (keys c) -> S (length (delete key c)) = length c.
Proof.
  unfold keys. induction c as [|[k x] r IH]; simpl; [contradiction|].
  destruct (String.eqb_spec k key) as [->|Hne]; [reflexivity|].
  intros [E|H]; [congruence|]. simpl. by rewrite IH.
Qed.

Lemma length_delete_le (key : string) (c : t) : (length (delete key c) <= length c)%nat.
Proof.
  induction c as [|[k x] r IH]; simpl; [lia|].
  destruct (String.eqb k key); simpl; lia.
Qed.

(** Deleting the keys [ks], one after the other. *)
Lemma delete_all (ks : list string) (c : t) :
  List.NoDup (keys c) -> List.NoDup ks -> incl ks (keys c) ->
  let c' := fold_left (fun m k => delete k m) ks c in
  List.NoDup (keys c') /\
  (length c' + length ks = length c)%nat /\
  (forall k, In k ks -> lookup k c' = None) /\
  (forall k, ~ In k ks -> lookup k c' = lookup k c).
Proof.
  cbn zeta. revert c. induction ks as [|k ks IH]; intros c Hc Hks Hin; simpl.
  - repeat split; [exact Hc | lia | contradiction].
  - inversion Hks as [|? ? Hk Hks']; subst.
    assert (Hin' : incl ks (keys (delete k c))).
    { intros k' Hk'. apply keys_delete_other; [apply Hin; by right|].
      intros ->. contradiction. }
    destruct (IH (delete k c) (NoDup_delete k c Hc) Hks' Hin') as (I1 & I2 & I3 & I4).
    split; [exact I1|]. split.
    + pose proof (length_delete k c (Hin k ltac:(by left))). lia.
    + split.
      * intros k' [->|Hk']; [|by apply I3].
        destruct (in_dec string_dec k' ks) as [Hi|Hi]; [by apply I3|].
        rewrite I4 by exact Hi. by apply lookup_delete_same.
      * intros k' Hn. rewrite I4 by (intros H; apply Hn; by right).
        apply lookup_delete_other. intros ->. apply Hn. by left.
Qed.

(** *** The sort of [evictIfNeeded] *)

Lemma insert_entry_perm (x : string * CachedIssue) (l : t) :
  Permutation (insert_entry x l) (x :: l).
Proof.
  induction l as [|y r IH]; simpl; [reflexivity|].
  destruct (lastAccessed (snd x) <=? lastAccessed (snd y)); [reflexivity|].
  rewrite IH. apply perm_swap.
Qed.

Lemma sort_entries_perm (c : t) : Permutation (sort_entries c) c.
Proof.
  unfold sort_entries. induction c as [|x r IH]; simpl; [reflexivity|].
  rewrite insert_entry_perm. by constructor.
Qed.

Lemma insert_entry_sorted (x : string * CachedIssue) (l : t) :
  StronglySorted olderOrEqual l -> StronglySorted olderOrEqual (insert_entry x l).
Proof.
  induction 1 as [|y r Hr IH Hy]; simpl; [repeat constructor|].
  destruct (Z.leb_spec (lastAccessed (snd x)) (lastAccessed (snd y))) as [Hle|Hgt].
  - constructor; [by constructor|]. constructor; [exact Hle|].
    eapply List.Forall_impl; [|exact Hy]. unfold olderOrEqual. intros z Hz. simpl in *. lia.
  - constructor; [exact IH|].
    eapply Permutation_Forall; [symmetry; apply insert_entry_perm|].
    constructor; [unfold olderOrEqual; lia | exact Hy].
Qed.

Lemma sort_entries_sorted (c : t) : StronglySorted olderOrEqual (sort_entries c).
Proof.
  unfold sort_entries. induction c as [|x r IH]; simpl; [constructor|].
  by apply insert_entry_sorted.
Qed.

Lemma sorted_split (l1 l2 : t) (a b : string * CachedIssue) :
  StronglySorted olderOrEqual (l1 ++ l2) -> In a l1 -> In b l2 -> olderOrEqual a b.
Proof.
  induction l1 as [|x l1 IH]; simpl; [contradiction|].
  intros Hs [->|Ha] Hb; inversion Hs as [|? ? Hs' Hall]; subst.
  - rewrite List.Forall_forall in Hall. apply Hall, in_or_app. by right.
  - by apply IH.
Qed.

(** *** Eviction *)

Lemma evict_fold (l : t) (c : t) :
  fold_left (fun m entry => delete (fst entry) m) l c =
  fold_left (fun m k => delete k m) (keys l) c.
Proof. revert c. induction l as [|x l IH]; intros c; simpl; [reflexivity | apply IH]. Qed.

(** The keys that [evictIfNeeded] removes from a cache that is too large. *)
Lemma victims_spec (c : t) (n : nat) :
  List.NoDup (keys c) ->
  (n <= length c)%nat ->
  let victims := keys (take n (sort_entries c)) in
  List.NoDup victims /\ incl victims (keys c) /\ length victims = n.
Proof.
  intros Hnd Hn. cbn zeta.
  assert (Hp : Permutation (keys (sort_entries c)) (keys c))
    by (unfold keys; apply Permutation_map, sort_entries_perm).
  assert (Hnd' : List.NoDup (keys (sort_entries c)))
    by (eapply Permutation_NoDup; [symmetry; exact Hp | exact Hnd]).
  unfold keys in *. rewrite <- List.firstn_map.
  split; [|split].
  - rewrite <- (List.firstn_skipn n (List.map fst (sort_entries c))) in Hnd'.
    by apply NoDup_app_remove_r in Hnd'.
  - intros k Hk. eapply Permutation_in; [exact Hp|].
    rewrite <- (List.firstn_skipn n (List.map fst (sort_entries c))).
    apply in_or_app. by left.
  - rewrite List.length_firstn, List.length_map.
    rewrite (Permutation_length (sort_entries_perm c)). lia.
Qed.

Lemma length_evictIfNeeded (c : t) :
  List.NoDup (keys c) ->
  length (evictIfNeeded c) =
    if (length c <=? MAX_CACHE_SIZE)%nat then length c else (MAX_CACHE_SIZE - 10)%nat.
Proof.
  intros Hnd. unfold evictIfNeeded.
  destruct (Nat.leb_spec (length c) MAX_CACHE_SIZE) as [Hle|Hgt]; [reflexivity|].
  unfold MAX_CACHE_SIZE in *. rewrite evict_fold.
  destruct (victims_spec c (length c - 100 + 10) Hnd ltac:(lia)) as (V1 & V2 & V3).
  destruct (delete_all _ c Hnd V1 V2) as (_ & Hlen & _). cbn zeta in Hlen.
  rewrite V3 in Hlen. lia.
Qed.

(** X6. Eviction leaves a cache within its capacity alone and cuts a larger
    one down to 90 entries: the overage and ten more are removed. *)
Theorem evict_size (c : t) :
  List.NoDup (keys c) ->
  length (evictIfNeeded c) =
    if (length c <=? MAX_CACHE_SIZE)%nat then length c else (MAX_CACHE_SIZE - 10)%nat.
Proof. apply length_evictIfNeeded. Qed.

(** X7. Eviction is by least recent access: no evicted entry was accessed
    later than an entry that is kept. *)
Theorem evict_least_recent (c : t) (k k' : string) (e e' : CachedIssue) :
  List.NoDup (keys c) ->
  lookup k c = Some e ->
  lookup k (evictIfNeeded c) = None ->
  lookup k' (evictIfNeeded c) = Some e' ->
  lastAccessed e <= lastAccessed e'.
Proof.
  intros Hnd Hk Hgone Hkept. unfold evictIfNeeded in *.
  destruct (Nat.leb_spec (length c) MAX_CACHE_SIZE) as [Hle|Hgt]; [congruence|].
  unfold MAX_CACHE_SIZE in *. rewrite evict_fold in Hgone, Hkept.
  set (n := (length c - 100 + 10)%nat) in *.
  destruct (victims_spec c n Hnd ltac:(lia)) as (V1 & V2 & V3). cbn zeta in V1, V2, V3.
  destruct (delete_all _ c Hnd V1 V2) as (_ & _ & Hin & Hout). cbn zeta in Hin, Hout.
  set (s := sort_entries c) in *.
  assert (Hk_in : In k (keys (take n s))).
  { destruct (in_dec string_dec k (keys (take n s))) as [H|H]; [exact H|].
    rewrite (Hout k H) in Hgone. congruence. }
  assert (Hk'_out : ~ In k' (keys (take n s))).
  { intros H. rewrite (Hin k' H) in Hkept. discriminate. }
  rewrite (Hout k' Hk'_out) in Hkept.
  assert (Hnd_s : List.NoDup (keys s)).
  { eapply Permutation_NoDup; [|exact Hnd]. unfold keys.
    apply Permutation_map. symmetry. apply sort_entries_perm. }
  assert (Hse : forall key x, In (key, x) s -> lookup key c = Some x).
  { intros key x H. apply In_lookup_Some; [exact Hnd|].
    eapply Permutation_in; [apply sort_entries_perm | exact H]. }
  (* the evicted entry is in the prefix, the kept one in the rest *)
  unfold keys in Hk_in. apply in_map_iff in Hk_in as ([k0 x] & Ek & Hx). simpl in Ek. subst k0.
  assert (Ex : x = e).
  { assert (H : In (k, x) s)
      by (rewrite <- (List.firstn_skipn n s); apply in_or_app; by left).
    apply Hse in H. congruence. }
  subst x.
  assert (Hrest : In (k', e') (drop n s)).
  { assert (H : In (k', e') s).
    { eapply Permutation_in; [symmetry; apply sort_entries_perm|].
      by apply lookup_Some_In. }
    rewrite <- (List.firstn_skipn n s) in H. apply in_app_or in H as [H|H]; [|exact H].
    exfalso. apply Hk'_out. unfold keys. change k' with (fst (k', e')). by apply in_map. }
  apply (sorted_split (take n s) (drop n s) (k, e) (k', e')); try assumption.
  rewrite List.firstn_skipn. apply sort_entries_sorted.
Qed.

Lemma crowded_keys : List.NoDup (keys crowded).
Proof. apply NoDup_ListNoDup. apply (bool_decide_unpack _). vm_compute. exact I. Defined.

Lemma evict_size_witness : length (evictIfNeeded crowded) = 90%nat.
Proof. exact (evict_size crowded crowded_keys). Defined.

Lemma evict_least_recent_witness :
  lastAccessed (mkCached Scenario.anIssue 0 DEFAULT_TTL 0 0)
  <= lastAccessed (mkCached Scenario.anIssue 0 DEFAULT_TTL 0 100).
Proof.
  apply (evict_least_recent crowded "0" "100" _ _ crowded_keys); vm_compute; reflexivity.
Defined.

(** *** The shape of the cache *)

Lemma shaped_nil : shaped [].
Proof. repeat split; [constructor | simpl; lia | constructor]. Qed.

Lemma NoDup_map_set (key : string) (e : CachedIssue) (c : t) :
  List.NoDup (keys c) -> List.NoDup (keys (map_set key e c)).
Proof.
  intros Hnd. unfold map_set. destruct (lookup key c) eqn:E.
  - by rewrite keys_store.
  - unfold keys. rewrite List.map_app. simpl.
    apply List.NoDup_app; [exact Hnd | repeat constructor; simpl; tauto |].
    intros a Ha [<-|[]]. by apply lookup_None_keys in E.
Qed.

Lemma length_map_set (key : string) (e : CachedIssue) (c : t) :
  (length (map_set key e c) <= S (length c))%nat.
Proof.
  unfold map_set. destruct (lookup key c).
  - rewrite length_store. lia.
  - rewrite length_app. simpl. lia.
Qed.

Lemma NoDup_evict (c : t) : List.NoDup (keys c) -> List.NoDup (keys (evictIfNeeded c)).
Proof.
  intros Hnd. unfold evictIfNeeded.
  destruct (Nat.leb_spec (length c) MAX_CACHE_SIZE) as [Hle|Hgt]; [exact Hnd|].
  unfold MAX_CACHE_SIZE in *. rewrite evict_fold.
  destruct (victims_spec c (length c - 100 + 10) Hnd ltac:(lia)) as (V1 & V2 & V3).
  by destruct (delete_all _ c Hnd V1 V2) as (H & _).
Qed.

Lemma shaped_set (key : string) (i : LinearIssue) (now : Z) (c : t) :
  shaped c -> shaped (set key i now c).
Proof.
  intros (Hnd & Hlen & Ht). split; [|split].
  - apply NoDup_evict, NoDup_map_set, Hnd.
  - unfold set. rewrite length_evictIfNeeded by apply NoDup_map_set, Hnd.
    destruct (Nat.leb_spec (length (map_set key
      {| issue := i; timestamp := now;
         ttl := match lookup key c with
                | Some e => if 5 <? accessCount e then EXTENDED_TTL else DEFAULT_TTL
                | None => DEFAULT_TTL
                end;
         accessCount := match lookup key c with Some e => accessCount e | None => 0 end;
         lastAccessed := now |} c)) MAX_CACHE_SIZE); [assumption|].
    unfold MAX_CACHE_SIZE. lia.
  - by apply CacheSpec.tiered_set.
Qed.

Lemma shaped_get (key : string) (allowStale : bool) (now : Z) (c : t) :
  shaped c -> shaped (snd (get key allowStale now c)).
Proof.
  intros (Hnd & Hlen & Ht). split; [|split]; [| |by apply CacheSpec.tiered_get].
  all: unfold get; destruct (lookup key c) as [e|]; [|assumption];
    destruct (now - timestamp e <=? ttl e);
      [|destruct (allowStale && (now - timestamp e <=? STALE_TTL))];
    simpl; rewrite ?keys_store, ?length_store; assumption.
Qed.

Lemma shaped_invalidate (key : string) (c : t) : shaped c -> shaped (invalidate key c).
Proof.
  intros (Hnd & Hlen & Ht). split; [|split].
  - by apply NoDup_delete.
  - pose proof (length_delete_le key c). unfold invalidate. lia.
  - by apply CacheSpec.tiered_delete.
Qed.

Lemma shaped_updateTTL (key : string) (c : t) : shaped c -> shaped (updateTTL key c).
Proof.
  intros (Hnd & Hlen & Ht). split; [|split]; [| |by apply CacheSpec.tiered_updateTTL].
  all: unfold updateTTL; destruct (lookup key c) as [e|]; [|assumption];
    destruct (10 <? accessCount e); rewrite ?keys_store, ?length_store; assumption.
Qed.

Lemma shaped_warm (issues : list LinearIssue) (now : Z) (c : t) :
  shaped c -> shaped (warm issues now c).
Proof.
  unfold warm. revert c. induction issues as [|i r IH]; intros c Hc; simpl; [exact Hc|].
  apply IH. destruct (id i) as [k|]; [|exact Hc].
  destruct (String.eqb k ""); [exact Hc | by apply shaped_set].
Qed.

Lemma shaped_step (c : t) (o : op) : shaped c -> shaped (step c o).
Proof.
  destruct o; simpl.
  - apply shaped_set.
  - apply shaped_get.
  - apply shaped_invalidate.
  - intros _. apply shaped_nil.
  - apply shaped_warm.
  - apply shaped_updateTTL.
Qed.

(** X8. Whatever is done with a cache that starts empty, it holds one
    entry per key, at most 100 entries, and in every entry one of the two
    time-to-live tiers. *)
Theorem reachable_shaped (ops : list op) : shaped (run ops []).
Proof.
  unfold run. generalize shaped_nil. generalize (@nil (string * CachedIssue)).
  induction ops as [|o ops IH]; intros c Hc; simpl; [exact Hc|].
  apply IH. by apply shaped_step.
Qed.

(** *** Storing and reading back *)

Lemma insert_entry_snoc (y x : string * CachedIssue) (s : t) :
  lastAccessed (snd y) <= lastAccessed (snd x) ->
  insert_entry y (s ++ [x]) = insert_entry y s ++ [x].
Proof.
  intros Hle. induction s as [|z s IH]; simpl.
  - destruct (Z.leb_spec (lastAccessed (snd y)) (lastAccessed (snd x))); [reflexivity | lia].
  - destruct (lastAccessed (snd y) <=? lastAccessed (snd z)); [reflexivity | by rewrite IH].
Qed.

Lemma sort_entries_snoc (x : string * CachedIssue) (c : t) :
  accessedBy (lastAccessed (snd x)) c ->
  sort_entries (c ++ [x]) = sort_entries c ++ [x].
Proof.
  unfold sort_entries, accessedBy. induction 1 as [|y c Hy Hc IH]; simpl; [reflexivity|].
  rewrite IH. by apply insert_entry_snoc.
Qed.

Lemma lookup_delete_others (ks : list string) (key : string) (c : t) :
  ~ In key ks -> lookup key (fold_left (fun m k => delete k m) ks c) = lookup key c.
Proof.
  revert c. induction ks as [|k ks IH]; intros c Hn; simpl; [reflexivity|].
  rewrite IH by (intros H; apply Hn; by right).
  apply lookup_delete_other. intros ->. apply Hn. by left.
Qed.

(** The entry that [set] writes. *)
Lemma set_lookup (key : string) (i : LinearIssue) (now : Z) (c : t) :
  (length c <= MAX_CACHE_SIZE)%nat ->
  accessedBy now c ->
  lookup key (set key i now c) =
  Some {| issue := i;
          timestamp := now;
          ttl := match lookup key c with
                 | Some e => if 5 <? accessCount e then EXTENDED_TTL else DEFAULT_TTL
                 | None => DEFAULT_TTL
                 end;
          accessCount := match lookup key c with Some e => accessCount e | None => 0 end;
          lastAccessed := now |}.
Proof.
  intros Hlen Hacc. unfold set.
  set (entry := {| issue := i; timestamp := now; ttl := _; accessCount := _;
                   lastAccessed := now |}).
  unfold map_set. destruct (lookup key c) as [e|] eqn:E.
  - unfold evictIfNeeded. rewrite length_store.
    destruct (Nat.leb_spec (length c) MAX_CACHE_SIZE); [|lia].
    by apply CacheSpec.lookup_store_same with e.
  - unfold evictIfNeeded. rewrite length_app. cbn [length].
    destruct (Nat.leb_spec (length c + 1) MAX_CACHE_SIZE); [by apply lookup_app_new|].
    rewrite evict_fold, (sort_entries_snoc (key, entry) c) by exact Hacc.
    assert (Hc : length (sort_entries c) = 100%nat)
      by (rewrite (Permutation_length (sort_entries_perm c)); unfold MAX_CACHE_SIZE in *; lia).
    unfold MAX_CACHE_SIZE in *.
    replace (length c + 1 - 100 + 10)%nat with 11%nat by lia.
    rewrite List.firstn_app, Hc. cbn [Nat.sub take]. rewrite app_nil_r.
    rewrite lookup_delete_others; [by apply lookup_app_new|].
    intros Hin. apply lookup_None_keys in E. apply E.
    unfold keys in Hin. apply in_map_iff in Hin as (x & <- & Hx).
    apply in_map. eapply Permutation_in; [apply sort_entries_perm|].
    rewrite <- (List.firstn_skipn 11 (sort_entries c)). apply in_or_app. by left.
Qed.

(** X9. What is stored is read back: on a cache within its capacity, and
    while the clock has not gone back behind an earlier access, [get]
    returns the issue that [set] stored for at least ten minutes. *)
Theorem set_get (key : string) (i : LinearIssue) (now later : Z) (allowStale : bool) (c : t) :
  (length c <= MAX_CACHE_SIZE)%nat ->
  accessedBy now c ->
  later - now <= DEFAULT_TTL ->
  fst (get key allowStale later (set key i now c)) = Some i.
Proof.
  intros Hlen Hacc Hage. unfold get. rewrite (set_lookup key i now c Hlen Hacc).
  cbn [timestamp ttl issue].
  set (tier := match lookup key c with
               | Some e => if 5 <? accessCount e then EXTENDED_TTL else DEFAULT_TTL
               | None => DEFAULT_TTL
               end).
  assert (Htier : DEFAULT_TTL <= tier).
  { unfold tier, DEFAULT_TTL, EXTENDED_TTL.
    destruct (lookup key c) as [e|]; [destruct (5 <? accessCount e)|]; lia. }
  destruct (Z.leb_spec (later - now) tier); [reflexivity | lia].
Qed.

Lemma set_get_witness :
  fst (get "n" false 600000 (set "n" Scenario.anIssue 0 Scenario.oneEntry))
  = Some Scenario.anIssue.
Proof.
  apply (set_get "n" Scenario.anIssue 0 600000 false Scenario.oneEntry).
  - simpl. unfold MAX_CACHE_SIZE. lia.
  - repeat constructor. simpl. lia.
  - unfold DEFAULT_TTL. lia.
Defined.

(** X10. A frequently read issue is kept longer: storing again an entry
    that was read more than five times gives it the 30-minute tier, and
    the access count is carried over; otherwise the entry is fresh for ten
    minutes only. *)
Theorem set_escalates (key : string) (i : LinearIssue) (now later : Z) (c : t)
    (e : CachedIssue) :
  (length c <= MAX_CACHE_SIZE)%nat ->
  accessedBy now c ->
  lookup key c = Some e ->
  let c' := set key i now c in
  option_map accessCount (lookup key c') = Some (accessCount e) /\
  (5 < accessCount e -> later - now <= EXTENDED_TTL ->
   fst (get key false later c') = Some i) /\
  (accessCount e <= 5 -> DEFAULT_TTL < later - now ->
   fst (get key false later c') = None).
Proof.
  intros Hlen Hacc He. cbn zeta.
  pose proof (set_lookup key i now c Hlen Hacc) as Hset. rewrite He in Hset.
  split; [by rewrite Hset|]. unfold get. rewrite Hset. cbn [timestamp ttl issue].
  split; intros Hcount Hage.
  - destruct (Z.ltb_spec 5 (accessCount e)); [|lia].
    destruct (Z.leb_spec (later - now) EXTENDED_TTL); [reflexivity | lia].
  - destruct (Z.ltb_spec 5 (accessCount e)); [lia|].
    destruct (Z.leb_spec (later - now) DEFAULT_TTL); [lia | reflexivity].
Qed.

Lemma set_escalates_witness :
  fst (get "k" false 1200000 (set "k" Scenario.anIssue 1000 readSixTimes))
  = Some Scenario.anIssue.
Proof.
  apply (set_escalates "k" Scenario.anIssue 1000 1200000 readSixTimes
           (mkCached Scenario.anIssue 0 DEFAULT_TTL 6 1000)).
  - simpl. unfold MAX_CACHE_SIZE. lia.
  - repeat constructor. simpl. lia.
  - reflexivity.
  - simpl. lia.
  - unfold EXTENDED_TTL. lia.
Defined.

(** *** Invalidation and the refresh signal *)

(** X11. After [invalidate] the key is gone: [get] returns absent even
    with [allowStale], [needsRefresh] is true, and the entries of the other
    keys are as before. *)
Theorem invalidate_forgets (key : string) (c : t) :
  List.NoDup (keys c) ->
  (forall allowStale now,
     get key allowStale now (invalidate key c) = (None, invalidate key c)) /\
  (forall now, needsRefresh key now (invalidate key c) = true) /\
  (forall key', key' <> key -> lookup key' (invalidate key c) = lookup key' c).
Proof.
  intros Hnd. pose proof (lookup_delete_same key c Hnd) as H. unfold invalidate.
  split; [|split].
  - intros allowStale now. unfold get. by rewrite H.
  - intros now. unfold needsRefresh. by rewrite H.
  - intros key' Hne. by apply lookup_delete_other.
Qed.

Lemma invalidate_forgets_witness :
  get "k" true 1 (invalidate "k" Scenario.oneEntry) = (None, []).
Proof.
  apply (invalidate_forgets "k" Scenario.oneEntry). repeat constructor. simpl. tauto.
Defined.

(** X12. [needsRefresh] answers what a read without stale data would: it
    is true exactly when [get] with [allowStale = false] returns absent. *)
Theorem needsRefresh_agrees_with_get (key : string) (now : Z) (c : t) :
  needsRefresh key now c = true <-> fst (get key false now c) = None.
Proof.
  unfold needsRefresh, get. destruct (lookup key c) as [e|]; [|by split].
  destruct (Z.leb_spec (now - timestamp e) (ttl e)) as [Hle|Hgt]; simpl.
  - split; [|discriminate]. intros H. apply Z.ltb_lt in H. lia.
  - split; [reflexivity|]. intros _. apply Z.ltb_lt. lia.
Qed.

(** *** Statistics *)

Lemma scan_counts (now : Z) (c : t) (acc : Scan) :
  let acc' := fold_left (scanEntry now) c acc in
  (fresh acc' + stale acc' <= fresh acc + stale acc + length c)%nat /\
  (fresh acc <= fresh acc')%nat /\ (stale acc <= stale acc')%nat /\
  total acc' = total acc + fold_right (fun kv s => accessCount (snd kv) + s) 0 c.
Proof.
  cbn zeta. revert acc. induction c as [|kv c IH]; intros acc; simpl.
  - repeat split; lia.
  - destruct (IH (scanEntry now acc kv)) as (H1 & H2 & H3 & H4).
    rewrite H4. unfold scanEntry in *. cbn [fresh stale total] in *.
    destruct (now - timestamp (snd kv) <=? ttl (snd kv));
      [|destruct (now - timestamp (snd kv) <=? STALE_TTL)]; repeat split; lia.
Qed.

Lemma scan_most (now : Z) (c : t) (acc : Scan) :
  let acc' := fold_left (scanEntry now) c acc in
  match most acc' with
  | None => most acc = None /\ c = []
  | Some m =>
      (most acc = Some m \/ exists x, In (fst m, x) c /\ accessCount x = snd m) /\
      (forall m0, most acc = Some m0 -> snd m0 <= snd m) /\
      (forall kv, In kv c -> accessCount (snd kv) <= snd m)
  end.
Proof.
  cbn zeta. revert acc. induction c as [|kv c IH]; intros acc; simpl.
  - destruct (most acc) as [m|]; [|by split].
    split; [by left|]. split; [intros m0 [= <-]; lia | contradiction].
  - specialize (IH (scanEntry now acc kv)).
    destruct (most (fold_left (scanEntry now) c (scanEntry now acc kv))) as [m|].
    + destruct IH as (Hsrc & Hge & Hall).
      assert (Hkv : forall m1, most (scanEntry now acc kv) = Some m1 ->
                      accessCount (snd kv) <= snd m1 /\
                      (forall m0, most acc = Some m0 -> snd m0 <= snd m1) /\
                      (most acc = Some m1 \/ m1 = (fst kv, accessCount (snd kv)))).
      { intros m1. unfold scanEntry. cbn [most].
        destruct (most acc) as [m0|].
        - destruct (Z.ltb_spec (snd m0) (accessCount (snd kv))); intros [= <-]; simpl.
          + split; [lia|]. split; [intros ? [= <-]; lia | by right].
          + split; [lia|]. split; [intros ? [= <-]; lia | by left].
        - intros [= <-]. simpl. split; [lia|]. split; [discriminate | by right]. }
      destruct (most (scanEntry now acc kv)) as [m1|] eqn:E1.
      2:{ exfalso. unfold scanEntry in E1. cbn [most] in E1.
          destruct (most acc) as [m0|]; [|discriminate].
          destruct (snd m0 <? accessCount (snd kv)); discriminate. }
      destruct (Hkv m1 eq_refl) as (K1 & K2 & K3). pose proof (Hge m1 eq_refl) as Hm1.
      split; [|split].
      * destruct Hsrc as [Hs|(x & Hin & Hx)].
        -- injection Hs as <-. destruct K3 as [K3|K3]; [by left|].
           right. exists (snd kv). subst m1. simpl. split; [left; by destruct kv | reflexivity].
        -- right. exists x. split; [by right | exact Hx].
      * intros m0 H0. specialize (K2 m0 H0). lia.
      * intros kv' [<-|Hin]; [lia | by apply Hall].
    + destruct IH as [E _]. exfalso. unfold scanEntry in E. cbn [most] in E.
      destruct (most acc) as [m0|]; [|discriminate].
      destruct (snd m0 <? accessCount (snd kv)); discriminate.
Qed.

Lemma sum_store (key : string) (e e' : CachedIssue) (c : t) :
  lookup key c = Some e ->
  fold_right (fun kv n => accessCount (snd kv) + n) 0 (store key e' c) =
  fold_right (fun kv n => accessCount (snd kv) + n) 0 c - accessCount e + accessCount e'.
Proof.
  induction c as [|[k x] r IH]; simpl; [discriminate|].
  destruct (String.eqb k key); simpl.
  - intros [= ->]. lia.
  - intros H. rewrite (IH H). lia.
Qed.

Lemma sum_get (key : string) (allowStale : bool) (now : Z) (e : CachedIssue) (c : t) :
  lookup key c = Some e ->
  fold_right (fun kv n => accessCount (snd kv) + n) 0 (snd (get key allowStale now c)) =
  fold_right (fun kv n => accessCount (snd kv) + n) 0 c + 1.
Proof.
  intros H. unfold get. rewrite H.
  destruct (now - timestamp e <=? ttl e);
    [|destruct (allowStale && (now - timestamp e <=? STALE_TTL))];
    simpl; rewrite (sum_store key e _ c H); simpl; lia.
Qed.

(** X13. The statistics are consistent: the fresh and the stale entries
    together are at most all entries; the total is the sum of the access
    counts; the most accessed issue is absent only for an empty cache, and
    otherwise names an entry of the cache with its access count, which no
    entry exceeds. A [get] of a cached key adds one to the total. *)
Theorem stats_consistent (now : Z) (c : t) :
  let s := getStats now c in
  size s = length c /\
  (freshCount s + staleCount s <= size s)%nat /\
  totalAccessCount s = fold_right (fun kv n => accessCount (snd kv) + n) 0 c /\
  (mostAccessed s = None <-> c = []) /\
  (forall k n, mostAccessed s = Some (k, n) ->
     (exists x, In (k, x) c /\ accessCount x = n) /\
     forall kv, In kv c -> accessCount (snd kv) <= n) /\
  (forall key allowStale when e, lookup key c = Some e ->
     totalAccessCount (getStats now (snd (get key allowStale when c))) =
     totalAccessCount s + 1).
Proof.
  cbn zeta. unfold getStats. cbn [size freshCount staleCount totalAccessCount mostAccessed].
  destruct (scan_counts now c (mkScan 0 0 0 None)) as (H1 & _ & _ & H4).
  cbn zeta in H1, H4. cbn [fresh stale total] in H1, H4.
  pose proof (scan_most now c (mkScan 0 0 0 None)) as Hm. cbn zeta in Hm.
  split; [reflexivity|]. split; [lia|]. split; [rewrite H4; lia|]. split; [|split].
  - destruct (most (fold_left (scanEntry now) c (mkScan 0 0 0 None))) as [m|].
    + split; [discriminate|]. intros ->. simpl in Hm. destruct Hm as ([H|(x & [] & _)] & _).
      discriminate.
    + by destruct Hm as [_ ->].
  - intros k n E. rewrite E in Hm. destruct Hm as ([H|H] & _ & Hall); [discriminate|].
    split; [exact H | exact Hall].
  - intros key allowStale when e He.
    destruct (scan_counts now (snd (get key allowStale when c)) (mkScan 0 0 0 None))
      as (_ & _ & _ & G4). cbn zeta in G4. cbn [total] in G4.
    rewrite G4, H4, (sum_get key allowStale when e c He). lia.
Qed.

End CacheProps.

(** ** More on the request queue *)

Module QueueProps.
Import RequestQueue QueueMore.

(** *** Priority order *)

Lemma insertIndex_spec (p : nat) (q : list QueuedRequest) :
  let i := insertIndex p q in
  Forall (fun r => (priorityOrder (priority r) <= p)%nat) (take i q) /\
  match drop i q with
  | [] => True
  | r :: _ => (p < priorityOrder (priority r))%nat
  end.
Proof.
  cbn zeta. induction q as [|x q IH]; simpl; [by split|].
  destruct (Nat.ltb_spec p (priorityOrder (priority x))); simpl.
  - by split.
  - destruct IH as [IH1 IH2]. split; [constructor; [lia | exact IH1] | exact IH2].
Qed.

Lemma ordered_tail_above (p : nat) (q : list QueuedRequest) :
  ordered q ->
  match q with
  | [] => True
  | r :: _ => (p < priorityOrder (priority r))%nat
  end ->
  Forall (fun r => (p < priorityOrder (priority r))%nat) q.
Proof.
  intros Ho. destruct q as [|r q]; [constructor|]. intros Hr.
  inversion Ho as [|? ? _ Hall]; subst. constructor; [exact Hr|].
  eapply List.Forall_impl; [|exact Hall]. unfold before. intros x Hx. simpl in Hx. lia.
Qed.

Lemma ordered_app (l1 l2 : list QueuedRequest) :
  ordered l1 -> ordered l2 ->
  (forall a b, In a l1 -> In b l2 -> before a b) ->
  ordered (l1 ++ l2).
Proof.
  unfold ordered. induction 1 as [|x l1 Hl1 IH Hx]; intros H2 Hc; simpl; [exact H2|].
  constructor.
  - apply IH; [exact H2|]. intros a b Ha Hb. apply Hc; [by right | exact Hb].
  - apply Forall_app. split; [exact Hx|].
    apply List.Forall_forall. intros b Hb. apply Hc; [by left | exact Hb].
Qed.

Lemma ordered_parts (l1 l2 : list QueuedRequest) :
  ordered (l1 ++ l2) -> ordered l1 /\ ordered l2.
Proof.
  unfold ordered. induction l1 as [|x l1 IH]; simpl; intros H; [split; [constructor | exact H]|].
  inversion H as [|? ? Hs Hall]; subst. destruct (IH Hs) as [I1 I2].
  split; [|exact I2]. constructor; [exact I1|].
  rewrite Forall_app in Hall. tauto.
Qed.

(** Where [insertByPriority] puts a request. *)
Lemma insert_position (request : QueuedRequest) (st : t) :
  ordered (queue st) ->
  exists ahead behind,
    queue st = ahead ++ behind /\
    queue (insertByPriority request st) = ahead ++ request :: behind /\
    Forall (fun r => before r request) ahead /\
    Forall (fun r => (priorityOrder (priority request) < priorityOrder (priority r))%nat)
      behind.
Proof.
  intros Ho. unfold insertByPriority. cbn [queue with_queue].
  set (i := insertIndex (priorityOrder (priority request)) (queue st)).
  destruct (insertIndex_spec (priorityOrder (priority request)) (queue st)) as [H1 H2].
  fold i in H1, H2.
  exists (take i (queue st)), (drop i (queue st)).
  split; [by rewrite take_drop|]. split; [reflexivity|]. split; [exact H1|].
  apply ordered_tail_above; [|exact H2].
  rewrite <- (take_drop i (queue st)) in Ho. by apply ordered_parts in Ho as [_ Ho].
Qed.

Lemma ordered_insert (request : QueuedRequest) (st : t) :
  ordered (queue st) -> ordered (queue (insertByPriority request st)).
Proof.
  intros Ho. destruct (insert_position request st Ho) as (ahead & behind & E & -> & Ha & Hb).
  rewrite E in Ho. destruct (ordered_parts _ _ Ho) as [O1 O2].
  apply ordered_app; [exact O1 | |].
  - constructor; [exact O2|]. eapply List.Forall_impl; [|exact Hb].
    unfold before. intros x Hx. simpl in Hx. lia.
  - intros a b Ha' [<-|Hb'].
    + rewrite List.Forall_forall in Ha. by apply Ha.
    + rewrite List.Forall_forall in Ha, Hb. specialize (Ha a Ha'). specialize (Hb b Hb').
      unfold before in *. simpl in *. lia.
Qed.

(** X14. A request is inserted behind every queued request of its own or
    of a higher priority and ahead of every request of a lower priority;
    the queued requests keep their order, and the queue stays in priority
    order. *)
Theorem insert_by_priority (request : QueuedRequest) (st : t) :
  ordered (queue st) ->
  ordered (queue (insertByPriority request st)) /\
  exists ahead behind,
    queue st = ahead ++ behind /\
    queue (insertByPriority request st) = ahead ++ request :: behind /\
    Forall (fun r => before r request) ahead /\
    Forall (fun r => (priorityOrder (priority request) < priorityOrder (priority r))%nat)
      behind.
Proof.
  intros Ho. split; [by apply ordered_insert | by apply insert_position].
Qed.

Lemma insert_by_priority_witness :
  ordered
    (queue (insertByPriority
              (mkRequest 7 normal (Scenario.scripted (fun _ => Fulfilled "n")) 0 0 0)
              Scenario.lowBacklog)).
Proof.
  apply (insert_by_priority
           (mkRequest 7 normal (Scenario.scripted (fun _ => Fulfilled "n")) 0 0 0)
           Scenario.lowBacklog).
  vm_compute. repeat constructor.
Defined.

Lemma before_low (a request : QueuedRequest) : priority request = low -> before a request.
Proof. unfold before. intros ->. destruct (priority a); cbv [priorityOrder]; lia. Qed.

Lemma processLoop_ordered (fuel maxBatch processed : nat) (st st' : t) :
  ordered (queue st) ->
  processLoop fuel maxBatch processed st = Some st' ->
  ordered (queue st').
Proof.
  revert processed st. induction fuel as [|fuel IH]; intros processed st Ho; simpl;
    [discriminate|].
  destruct (queue st) as [|request rest] eqn:Hq; [intros [= <-]; by rewrite Hq|].
  destruct (processed <? maxBatch)%nat; [|intros [= <-]; by rewrite Hq].
  destruct (negb (RateLimitTracker.shouldAllowRequest (tracker st) (priority request))).
  - destruct (priority request) eqn:Hp; try (intros [= <-]; by rewrite Hq).
    apply IH. cbn [queue with_queue].
    inversion Ho as [|? ? Hrest _]; subst.
    apply ordered_app; [exact Hrest | repeat constructor|].
    intros a b _ [<-|[]]. by apply before_low.
  - apply IH. rewrite QueueSpec.executeRequest_queue. cbn [queue with_queue].
    by inversion Ho.
Qed.

Lemma processQueue_ordered (fuel : nat) (st st' : t) :
  ordered (queue st) -> processQueue fuel st = Some st' -> ordered (queue st').
Proof.
  intros Ho. unfold processQueue.
  destruct (processing st || (length (queue st) =? 0)%nat); [by intros [= <-]|].
  destruct (processLoop fuel _ 0 _) as [st2|] eqn:E; [|discriminate].
  apply processLoop_ordered in E; [|exact Ho]. intros [= <-]. cbn [queue with_processing].
  destruct (0 <? length (queue st2))%nat; [|exact E].
  by rewrite QueueSpec.scheduleProcessing_queue.
Qed.

Lemma fire_ordered (fuel : nat) (tm : Timer) (st st' : t) :
  ordered (queue st) -> fire fuel tm st = Some st' -> ordered (queue st').
Proof.
  intros Ho. unfold fire. destruct (callback tm) as [|request|tag].
  - by apply processQueue_ordered.
  - intros [= <-]. rewrite QueueSpec.scheduleProcessing_queue. by apply ordered_insert.
  - by intros [= <-].
Qed.

(** X15. The queue is in priority order at all times: [enqueue], the retry
    timers and the processing passes keep it so, and so does any run of
    the timer loop. *)
Theorem queue_stays_ordered (st : t) :
  ordered (queue st) ->
  (forall exec p, ordered (queue (snd (enqueue exec p st)))) /\
  (forall n fuel st', runTimers n fuel st = Some st' -> ordered (queue st')).
Proof.
  intros Ho. split.
  - intros exec p. unfold enqueue. cbn [newPromise snd].
    rewrite QueueSpec.scheduleProcessing_queue. by apply ordered_insert.
  - intros n. revert st Ho. induction n as [|n IH]; intros st Ho fuel st'; simpl;
      [by intros [= <-]|].
    destruct (nextTimer st) as [tm|]; [|by intros [= <-]].
    destruct (fire fuel tm st) as [st1|] eqn:E; [|discriminate].
    apply IH. by apply (fire_ordered fuel tm st).
Qed.

Lemma queue_stays_ordered_witness :
  ordered
    (queue (snd (enqueue (Scenario.scripted (fun _ => Fulfilled "c")) critical
                   Scenario.lowBacklog))).
Proof.
  apply (queue_stays_ordered Scenario.lowBacklog). repeat constructor.
Defined.

(** *** Status *)

Lemma count_split (q : list QueuedRequest) :
  (length (List.filter (hasPriority critical) q) +
   length (List.filter (hasPriority normal) q) +
   length (List.filter (hasPriority low) q) = length q)%nat.
Proof.
  induction q as [|r q IH]; [reflexivity|].
  cbn [List.filter].
  destruct (hasPriority critical r) eqn:Hc, (hasPriority normal r) eqn:Hn,
    (hasPriority low r) eqn:Hl; unfold hasPriority in Hc, Hn, Hl;
    destruct (priority r); try discriminate; cbn [length]; lia.
Qed.

Lemma count_insert (p : RequestPriority) (request : QueuedRequest) (st : t) :
  length (List.filter (hasPriority p) (queue (insertByPriority request st))) =
  ((if hasPriority p request then 1 else 0) +
   length (List.filter (hasPriority p) (queue st)))%nat.
Proof.
  unfold insertByPriority. cbn [queue with_queue].
  set (i := insertIndex _ _).
  rewrite <- (take_drop i (queue st)) at 3.
  rewrite !List.filter_app, !length_app. simpl.
  destruct (hasPriority p request); simpl; lia.
Qed.

Lemma countOf_filter (p : RequestPriority) (st : t) :
  countOf p (getStatus st) = length (List.filter (hasPriority p) (queue st)).
Proof. by destruct p. Qed.

(** X16. The status counts every queued request once: the three counts add
    up to the queue length; [enqueue] adds one to the length and to the
    count of the priority it was called with, and leaves the two other
    counts as they were. *)
Theorem status_counts (st : t) (exec : Executor) (p : RequestPriority) :
  let s := getStatus st in
  let s' := getStatus (snd (enqueue exec p st)) in
  (criticalCount s + normalCount s + lowCount s = queueLength s)%nat /\
  queueLength s' = S (queueLength s) /\
  countOf p s' = S (countOf p s) /\
  (forall p', p' <> p -> countOf p' s' = countOf p' s).
Proof.
  cbn zeta. split; [apply count_split|].
  assert (Hq : queue (snd (enqueue exec p st)) =
               queue (insertByPriority (mkRequest (nextId st) p exec (now st) 0 0) st)).
  { unfold enqueue. cbn [newPromise snd]. by rewrite QueueSpec.scheduleProcessing_queue. }
  split.
  { unfold getStatus. cbn [queueLength]. rewrite Hq.
    unfold insertByPriority. cbn [queue with_queue].
    rewrite length_app. cbn [length].
    rewrite length_take, length_drop. lia. }
  rewrite !countOf_filter.
  split; [|intros p' Hp'; rewrite !countOf_filter]; rewrite Hq, count_insert.
  - unfold hasPriority at 1. cbn [priority]. by destruct p.
  - unfold hasPriority at 1. cbn [priority]. destruct p, p'; try reflexivity; by destruct Hp'.
Qed.

(** *** Clearing the queue *)

Lemma reject_all_fold (e : Error) (q : list QueuedRequest) (st : t) :
  fold_left (fun s request => reject (id request) e s) q st =
  with_futures
    (fold_left (fun m p => settle p (Rejected e) m) (List.map id q) (futures st)) st.
Proof.
  revert st. induction q as [|r q IH]; intros st; simpl.
  - by destruct st.
  - rewrite IH. by destruct st.
Qed.

Lemma clear_futures (st : t) :
  futures (clear st) =
  fold_left (fun m p => settle p (Rejected cleared) m) (List.map id (queue st)) (futures st).
Proof.
  unfold clear. rewrite reject_all_fold.
  by destruct st as [? ? ? ? [h|] ? ? ? ? ?].
Qed.

Lemma clear_timers (st : t) :
  timers (clear st) =
  match batchTimer st with
  | Some h => List.filter (fun tm => negb (handle tm =? h)%nat) (timers st)
  | None => timers st
  end.
Proof.
  unfold clear. rewrite reject_all_fold.
  by destruct st as [? ? ? ? [h|] ? ? ? ? ?].
Qed.

(** X17. [clear] empties the queue and cancels the pending processing pass.
    Every request that was queued and still pending is rejected with
    Queue cleared; a promise of no queued request is left as it was (so a
    request that waits for its retry is not rejected), a settled promise
    keeps its value, and every timer other than the processing pass stays
    pending. *)
Theorem clear_rejects_queued (st : t) :
  queue (clear st) = [] /\
  batchTimer (clear st) = None /\
  (forall tm, In tm (timers (clear st)) ->
     In tm (timers st) /\ batchTimer st <> Some (handle tm)) /\
  (forall tm, In tm (timers st) -> batchTimer st <> Some (handle tm) ->
     In tm (timers (clear st))) /\
  (forall r, In r (queue st) -> futures st !! id r = Some Pending ->
     futures (clear st) !! id r = Some (Rejected cleared)) /\
  (forall p, ~ In p (List.map id (queue st)) ->
     futures (clear st) !! p = futures st !! p) /\
  (forall p g, futures st !! p = Some g -> g <> Pending ->
     futures (clear st) !! p = Some g).
Proof.
  split; [unfold clear; rewrite reject_all_fold; by destruct st as [? ? ? ? [h|] ? ? ? ? ?]|].
  split; [unfold clear; rewrite reject_all_fold; by destruct st as [? ? ? ? [h|] ? ? ? ? ?]|].
  rewrite clear_futures, clear_timers.
  split; [|split; [|split; [|split]]].
  - intros tm. destruct (batchTimer st) as [h|]; [|by intros H].
    rewrite List.filter_In. intros [Hin Hh]. split; [exact Hin|].
    intros [= ->]. by rewrite Nat.eqb_refl in Hh.
  - intros tm Hin Hne. destruct (batchTimer st) as [h|]; [|exact Hin].
    apply List.filter_In. split; [exact Hin|].
    destruct (Nat.eqb_spec (handle tm) h) as [E|]; [destruct Hne; by rewrite E|reflexivity].
  - intros r Hin Hp. apply WrapperSpec.settleAll_in; [discriminate| |exact Hp].
    by apply in_map.
  - intros p Hni. by apply WrapperSpec.settleAll_notin.
  - intros p g Hp Hg. by apply WrapperSpec.settleAll_settled.
Qed.

(** *** The pending processing pass *)

Lemma NoDup_map_filter {A B : Type} (f : A -> B) (P : A -> bool) (l : list A) :
  List.NoDup (List.map f l) -> List.NoDup (List.map f (List.filter P l)).
Proof.
  induction l as [|a l IH]; simpl; [done|].
  intros Hnd. inversion Hnd as [|? ? Hni Hnd']; subst.
  destruct (P a); simpl; [|by apply IH].
  constructor; [|by apply IH].
  intros Hin. apply Hni. apply in_map_iff in Hin as (x & Hx & Hin).
  apply in_map_iff. exists x. split; [exact Hx|].
  apply List.filter_In in Hin. tauto.
Qed.

Lemma NoDup_map_inj_on {A B : Type} (f : A -> B) (l : list A) (a b : A) :
  List.NoDup (List.map f l) -> In a l -> In b l -> f a = f b -> a = b.
Proof.
  induction l as [|x l IH]; simpl; [done|].
  intros Hnd. inversion Hnd as [|? ? Hni Hnd']; subst.
  intros [->|Ha] [->|Hb] Hf; try reflexivity.
  - destruct Hni. rewrite Hf. by apply in_map.
  - destruct Hni. rewrite <- Hf. by apply in_map.
  - by apply IH.
Qed.

Lemma scheduled_frame (st st' : t) :
  timers st' = timers st -> nextHandle st' = nextHandle st -> batchTimer st' = batchTimer st ->
  scheduled st -> scheduled st'.
Proof. unfold scheduled. by intros -> -> ->. Qed.

Lemma scheduled_init (now0 : Z) (tr : RateLimitTracker.t) : scheduled (init now0 tr).
Proof. repeat split; simpl; constructor. Qed.

Lemma setTimeout_handles (cb : Callback) (delay : Z) (st : t) :
  List.NoDup (List.map handle (timers st)) ->
  Forall (fun tm => (handle tm < nextHandle st)%nat) (timers st) ->
  List.NoDup (List.map handle (timers (snd (setTimeout cb delay st)))) /\
  Forall (fun tm => (handle tm < nextHandle (snd (setTimeout cb delay st)))%nat)
    (timers (snd (setTimeout cb delay st))).
Proof.
  intros Hnd Hlt. cbn [setTimeout snd timers nextHandle with_timers with_nextHandle].
  split.
  - rewrite List.map_app. apply List.NoDup_app; [exact Hnd|repeat constructor; by intros []|].
    intros h Hin [<-|[]]. apply in_map_iff in Hin as (tm & Hh & Hin).
    rewrite List.Forall_forall in Hlt. specialize (Hlt tm Hin). cbn [handle] in Hh. lia.
  - apply Forall_app. split.
    + eapply List.Forall_impl; [|exact Hlt]. simpl. lia.
    + repeat constructor.
Qed.

Lemma scheduled_setTimeout (cb : Callback) (delay : Z) (st : t) :
  cb <> ProcessQueue -> scheduled st -> scheduled (snd (setTimeout cb delay st)).
Proof.
  intros Hcb (Hnd & Hlt & Hb).
  destruct (setTimeout_handles cb delay st Hnd Hlt) as [Hnd' Hlt'].
  split; [exact Hnd'|]. split; [exact Hlt'|].
  cbn [setTimeout snd timers batchTimer with_timers with_nextHandle].
  rewrite List.filter_app. cbn [List.filter isProcessTimer callback].
  destruct cb; [by destruct Hcb| |]; by rewrite app_nil_r.
Qed.

Lemma scheduled_scheduleProcessing (st : t) :
  scheduled st -> scheduled (scheduleProcessing st).
Proof.
  intros Hs. unfold scheduleProcessing.
  destruct (batchTimer st) as [h|] eqn:Hb; [exact Hs|].
  destruct Hs as (Hnd & Hlt & Hf). rewrite Hb in Hf.
  set (d := Z.max 0 _).
  destruct (setTimeout_handles ProcessQueue d st Hnd Hlt) as [Hnd' Hlt'].
  cbn [setTimeout]. split; [exact Hnd'|]. split; [exact Hlt'|].
  cbn [batchTimer with_batchTimer timers with_timers with_nextHandle].
  exists (now st + d). rewrite List.filter_app, Hf. reflexivity.
Qed.

Lemma scheduled_executeRequest (request : QueuedRequest) (st : t) :
  scheduled st -> scheduled (executeRequest request st).
Proof.
  intros Hs. unfold executeRequest.
  destruct (execute request (invoked request) (tracker st) (now st)) as [[v|e] tr].
  - by apply (scheduled_frame st).
  - destruct (isRateLimitError e && (retryCount request <? MAX_RETRIES)%nat).
    + apply scheduled_setTimeout; [discriminate|]. by apply (scheduled_frame st).
    + by apply (scheduled_frame st).
Qed.

Lemma scheduled_processLoop (fuel maxBatch processed : nat) (st st' : t) :
  scheduled st -> processLoop fuel maxBatch processed st = Some st' -> scheduled st'.
Proof.
  revert processed st. induction fuel as [|fuel IH]; intros processed st Hs; simpl;
    [discriminate|].
  destruct (queue st) as [|request rest]; [by intros [= <-]|].
  destruct (processed <? maxBatch)%nat; [|by intros [= <-]].
  destruct (negb (RateLimitTracker.shouldAllowRequest (tracker st) (priority request))).
  - destruct (priority request); try (by intros [= <-]).
    apply IH. by apply (scheduled_frame st).
  - apply IH. apply scheduled_executeRequest. by apply (scheduled_frame st).
Qed.

Lemma scheduled_processQueue (fuel : nat) (st st' : t) :
  scheduled st -> processQueue fuel st = Some st' -> scheduled st'.
Proof.
  intros Hs. unfold processQueue.
  destruct (processing st || (length (queue st) =? 0)%nat); [by intros [= <-]|].
  destruct (processLoop fuel _ 0 _) as [st2|] eqn:E; [|discriminate].
  apply scheduled_processLoop in E; [|by apply (scheduled_frame st)].
  intros [= <-].
  destruct (0 <? length (queue st2))%nat.
  - apply (scheduled_frame (scheduleProcessing st2)); try reflexivity.
    by apply scheduled_scheduleProcessing.
  - by apply (scheduled_frame st2).
Qed.

Lemma earliest_In (l : list Timer) (best : Timer) : In (earliest best l) (best :: l).
Proof.
  revert best. induction l as [|x l IH]; intros best; simpl; [by left|].
  destruct (IH (if due x <? due best then x else best)) as [H|H]; [|by right; right].
  rewrite <- H. destruct (due x <? due best); [right; by left | by left].
Qed.

Lemma nextTimer_In (st : t) (tm : Timer) : nextTimer st = Some tm -> In tm (timers st).
Proof.
  unfold nextTimer. destruct (timers st) as [|x r]; [discriminate|].
  intros [= <-]. apply earliest_In.
Qed.

Lemma isProcessTimer_eq (tm : Timer) :
  isProcessTimer tm = true -> tm = mkTimer (handle tm) (due tm) ProcessQueue.
Proof. destruct tm as [h d []]; by intros [=]. Qed.

(** Cancelling the timer that fires keeps the invariant; when that timer
    is the processing pass, [batchTimer] is reset with it. *)
Lemma scheduled_fired (tm : Timer) (st : t) :
  scheduled st -> In tm (timers st) ->
  scheduled
    (if isProcessTimer tm then with_batchTimer None (clearTimeout (handle tm) st)
     else clearTimeout (handle tm) st).
Proof.
  intros (Hnd & Hlt & Hb) Hin.
  assert (Hnd' : List.NoDup (List.map handle (timers (clearTimeout (handle tm) st))))
    by (by apply NoDup_map_filter).
  assert (Hlt' : Forall (fun x => (handle x < nextHandle st)%nat)
                   (timers (clearTimeout (handle tm) st))).
  { cbn [clearTimeout timers with_timers]. rewrite List.Forall_forall in *.
    intros x Hx. apply Hlt. apply List.filter_In in Hx. tauto. }
  destruct (isProcessTimer tm) eqn:Hp.
  - split; [exact Hnd'|]. split; [exact Hlt'|].
    cbn [batchTimer with_batchTimer clearTimeout timers with_timers].
    rewrite WrapperSpec.filter_comm.
    assert (Hf : In tm (List.filter isProcessTimer (timers st)))
      by (apply List.filter_In; by split).
    destruct (batchTimer st) as [h|]; [|by rewrite Hb in Hf].
    destruct Hb as [d Hb]. rewrite Hb in Hf |- *. destruct Hf as [<-|[]].
    simpl. by rewrite Nat.eqb_refl.
  - split; [exact Hnd'|]. split; [exact Hlt'|].
    cbn [batchTimer clearTimeout timers with_timers].
    rewrite WrapperSpec.filter_comm.
    destruct (batchTimer st) as [h|]; [|by rewrite Hb].
    destruct Hb as [d Hb]. exists d. rewrite Hb. simpl.
    destruct (Nat.eqb_spec h (handle tm)) as [He|]; [|reflexivity].
    assert (Hpt : In (mkTimer h d ProcessQueue) (timers st)).
    { assert (H : In (mkTimer h d ProcessQueue) (List.filter isProcessTimer (timers st)))
        by (rewrite Hb; by left).
      apply List.filter_In in H. tauto. }
    assert (Heq : mkTimer h d ProcessQueue = tm)
      by (apply (NoDup_map_inj_on handle (timers st)); done).
    rewrite <- Heq in Hp. discriminate.
Qed.

Lemma scheduled_fire (fuel : nat) (tm : Timer) (st st' : t) :
  scheduled st -> In tm (timers st) -> fire fuel tm st = Some st' -> scheduled st'.
Proof.
  intros Hs Hin. unfold fire.
  set (st0 := with_now _ st).
  assert (Hs0 : scheduled st0) by (by apply (scheduled_frame st)).
  pose proof (scheduled_fired tm st0 Hs0 Hin) as H.
  destruct tm as [h d [|request|tag]]; cbn [isProcessTimer callback handle] in *.
  - by apply scheduled_processQueue.
  - intros [= <-]. apply scheduled_scheduleProcessing.
    by apply (scheduled_frame (clearTimeout h st0)).
  - by intros [= <-].
Qed.

(** X18. At most one processing pass is scheduled at any time. On a fresh
    queue no pass is pending; [enqueue], [clear] and every run of the timer
    loop keep timer handles unique, and keep [batchTimer] naming the one
    pending processing timer when it holds a handle, and no processing
    timer pending when it holds none. *)
Theorem one_pass_scheduled (st : t) :
  scheduled st ->
  (forall exec p, scheduled (snd (enqueue exec p st))) /\
  scheduled (clear st) /\
  (forall n fuel st', runTimers n fuel st = Some st' -> scheduled st').
Proof.
  intros Hs. split; [|split].
  - intros exec p. unfold enqueue. cbn [newPromise snd].
    apply scheduled_scheduleProcessing. by apply (scheduled_frame st).
  - destruct Hs as (Hnd & Hlt & Hb). unfold scheduled.
    rewrite clear_timers.
    assert (Hh : nextHandle (clear st) = nextHandle st).
    { unfold clear. rewrite reject_all_fold. by destruct st as [? ? ? ? [h|] ? ? ? ? ?]. }
    assert (Hn : batchTimer (clear st) = None).
    { unfold clear. rewrite reject_all_fold. by destruct st as [? ? ? ? [h|] ? ? ? ? ?]. }
    rewrite Hh, Hn. destruct (batchTimer st) as [h|]; [|done].
    split; [by apply NoDup_map_filter|]. split.
    + rewrite List.Forall_forall in *. intros x Hx. apply Hlt.
      apply List.filter_In in Hx. tauto.
    + rewrite WrapperSpec.filter_comm. destruct Hb as [d ->]. simpl.
      by rewrite Nat.eqb_refl.
  - intros n. revert st Hs. induction n as [|n IH]; intros st Hs fuel st'; simpl;
      [by intros [= <-]|].
    destruct (nextTimer st) as [tm|] eqn:Hn; [|by intros [= <-]].
    destruct (fire fuel tm st) as [st1|] eqn:E; [|discriminate].
    apply IH. apply (scheduled_fire fuel tm st); [exact Hs| |exact E].
    by apply nextTimer_In.
Qed.

Lemma one_pass_scheduled_witness :
  scheduled (clear Scenario.lowBacklog).
Proof.
  apply (one_pass_scheduled Scenario.lowBacklog).
  apply (one_pass_scheduled (init 0 (Scenario.trackerAt "250"))).
  apply scheduled_init.
Defined.

(** *** A processing pass *)





Lemma denied_above_low (tr : RateLimitTracker.t) (p : RequestPriority) :
  p <> low -> RateLimitTracker.shouldAllowRequest tr p = false ->
  p = normal /\ RateLimitTracker.getRecommendedBatchWindow tr = 5000.
Proof.
  unfold RateLimitTracker.shouldAllowRequest, RateLimitTracker.getRecommendedBatchWindow.
  intros Hp. destruct (RateLimitTracker.requestsRemaining tr) as [|r| |]; simpl.
  - discriminate.
  - unfold RateLimitTracker.CONSERVATIVE_THRESHOLD, RateLimitTracker.EMERGENCY_THRESHOLD.
    destruct (Z.ltb_spec 300 r); [discriminate|].
    destruct (Z.leb_spec r 100).
    + destruct (Z.ltb_spec 100 r); [lia|]. destruct p; try discriminate; by split.
    + destruct (Z.leb_spec r 300); [|discriminate]. destruct p; try discriminate.
      by destruct Hp.
  - discriminate.
  - destruct p; try discriminate; by split.
Qed.

(** X20. When the head of the queue is above low priority and the tracker
    denies it, the pass ends at once: it executes nothing, settles no
    promise, leaves the queue and the tracker as they are, and makes sure
    that a next pass is scheduled. When none was pending, the next pass is
    set one emergency batch window (5000 ms) ahead; the time of the quota
    reset plays no part. *)
Theorem blocked_head_waits (fuel : nat) (st : t) (r : QueuedRequest)
    (rest : list QueuedRequest) :
  processing st = false ->
  queue st = r :: rest ->
  priority r <> low ->
  RateLimitTracker.shouldAllowRequest (tracker st) (priority r) = false ->
  exists st',
    processQueue (S fuel) st = Some st' /\
    queue st' = queue st /\ futures st' = futures st /\ tracker st' = tracker st /\
    processing st' = false /\ lastProcessTime st' = now st /\
    match batchTimer st with
    | Some h => batchTimer st' = Some h /\ timers st' = timers st
    | None =>
        batchTimer st' = Some (nextHandle st) /\
        timers st' = timers st ++ [mkTimer (nextHandle st) (now st + 5000) ProcessQueue]
    end.
Proof.
  intros Hproc Hq Hp Hdeny.
  destruct (denied_above_low _ _ Hp Hdeny) as [Hn Hw].
  unfold processQueue. rewrite Hproc, Hq. cbn [length Nat.eqb orb processLoop].
  cbn [queue tracker with_lastProcessTime with_processing]. rewrite Hq, Hdeny, Hn.
  set (st1 := with_lastProcessTime (now st) (with_processing true st)).
  assert (Hloop :
    (if (0 <? maxBatchSize (RateLimitTracker.getOperationMode (tracker st)))%nat
     then if negb false then Some st1
          else processLoop fuel
                 (maxBatchSize (RateLimitTracker.getOperationMode (tracker st))) 1
                 (executeRequest r (with_queue rest st1))
     else Some st1) = Some st1) by (by destruct (_ <? _)%nat).
  rewrite Hloop.
  assert (Hlen : (0 <? length (queue st1))%nat = true) by (cbn; by rewrite Hq).
  rewrite Hlen. eexists. split; [reflexivity|].
  unfold scheduleProcessing.
  cbn [batchTimer tracker now lastProcessTime st1 with_lastProcessTime with_processing].
  rewrite Hw. replace (Z.max 0 (5000 - (now st - now st))) with 5000 by lia.
  destruct (batchTimer st) as [h|] eqn:Hb; cbn; rewrite ?Hq, ?Hb; repeat split.
Qed.

Lemma blocked_head_waits_witness :
  exists st',
    processQueue 1 blocked = Some st' /\
    queue st' = queue blocked /\ futures st' = futures blocked /\
    tracker st' = tracker blocked /\
    processing st' = false /\ lastProcessTime st' = 0 /\
    batchTimer st' = Some 0%nat /\ timers st' = timers blocked.
Proof.
  apply (blocked_head_waits 0 blocked
           (mkRequest 0 normal (Scenario.scripted (fun _ => Fulfilled "n")) 0 0 0) []);
    [reflexivity | reflexivity | discriminate | reflexivity].
Defined.

End QueueProps.

(** ** More on the wrapper *)

Module WrapperProps.
Import RequestQueue (futures, queue, tracker, timers, Pending, Resolved, Rejected,
                     Fulfilled, Thrown).
Import LinearClientWrapper WrapperMore.

(** *** The closure of [executeWithTracking] *)

(** X21. The closure that [executeWithTracking] queues passes the outcome
    of the remote call through unchanged. A success costs one request. An
    error that it takes for a rate-limit rejection forces the remaining
    count to 0, hence emergency mode with only critical requests admitted,
    and sets the reset time from the error's header or, without one and at
    a reading of the clock (at most 8.64e15 in absolute value), to the
    full second at most an hour ahead; any other error leaves the tracker
    alone. *)
Theorem tracked_outcomes (operation : nat -> RequestQueue.Outcome) (k : nat)
    (tr : RateLimitTracker.t) (now : Z) :
  let tr' := snd (tracked operation k tr now) in
  fst (tracked operation k tr now) = operation k /\
  (forall v, operation k = Fulfilled v -> tr' = RateLimitTracker.consumeRequest now tr) /\
  (forall error, operation k = Thrown error -> isLimit error = false -> tr' = tr) /\
  (forall error, operation k = Thrown error -> isLimit error = true ->
     RateLimitTracker.requestsRemaining tr' = Num 0 /\
     RateLimitTracker.getOperationMode tr' = emergency /\
     (forall p, RateLimitTracker.shouldAllowRequest tr' p = true <-> p = critical) /\
     (RequestQueue.resetHeader error = None ->
      Z.abs now <= 8640000000000000 ->
      exists reset,
        RateLimitTracker.resetTimestamp tr' = Num reset /\
        reset mod 1000 = 0 /\ now + 3599000 < reset <= now + 3600000)).
Proof.
  cbn zeta. split; [|split; [|split]].
  - unfold tracked. destruct (operation k) as [v|error]; [reflexivity|].
    by destruct (_ || _).
  - intros v Hop. unfold tracked. by rewrite Hop.
  - intros error Hop Hlim. unfold tracked. rewrite Hop.
    unfold isLimit in Hlim. by rewrite Hlim.
  - intros error Hop Hlim.
    destruct (WrapperSpec.tracked_limit operation k tr now error Hop Hlim) as (Hr & _ & Ht).
    cbn zeta in Hr, Ht. split; [exact Hr|].
    unfold RateLimitTracker.getOperationMode, RateLimitTracker.shouldAllowRequest.
    rewrite Hr. split; [reflexivity|]. split.
    + intros p. cbn. destruct p; split; intros H; try reflexivity; discriminate.
    + intros Hnone Hnow. rewrite Hnone in Ht.
      pose proof (Z.div_mod (now + 3600000) 1000 ltac:(lia)) as Hd.
      pose proof (Z.mod_pos_bound (now + 3600000) 1000 ltac:(lia)) as Hm.
      rewrite JsFacts.of_Z_small in Ht by (unfold Js.two53; lia).
      cbn [Js.mul] in Ht. rewrite JsFacts.of_Z_small in Ht by (unfold Js.two53; lia).
      eexists. split; [exact Ht|]. split; [apply Z.mod_mul; lia | lia].
Qed.

(** *** The remaining count never recovers *)

Lemma tracked_atMost (operation : nat -> RequestQueue.Outcome) (k : nat)
    (tr : RateLimitTracker.t) (now r : Z) :
  atMost r tr -> atMost r (snd (tracked operation k tr now)).
Proof.
  intros (r' & Hr & Hex & Hle). destruct (operation k) as [v|error] eqn:Hop.
  - unfold tracked. rewrite Hop. cbn [snd].
    destruct (JsFacts.max0_pred_exact r' Hex ltac:(lia)) as (w & Hw & Hwb & Hwe).
    exists w. unfold RateLimitTracker.consumeRequest,
      RateLimitTracker.trackRequest. cbn [RateLimitTracker.requestsRemaining].
    rewrite Hr, Hw. split; [reflexivity|]. split; [exact Hwe | lia].
  - destruct (isLimit error) eqn:Hlim.
    + destruct (WrapperSpec.tracked_limit operation k tr now error Hop Hlim) as (H0 & _).
      exists 0. split; [exact H0|]. split; [reflexivity | lia].
    + unfold tracked. rewrite Hop. unfold isLimit in Hlim. rewrite Hlim.
      by exists r'.
Qed.

Lemma atMost_mode (r : Z) (tr : RateLimitTracker.t) :
  atMost r tr -> r <= 100 -> RateLimitTracker.getOperationMode tr = emergency.
Proof.
  intros (r' & Hr & _ & Hle) H. unfold RateLimitTracker.getOperationMode. rewrite Hr.
  unfold Js.gt, RateLimitTracker.CONSERVATIVE_THRESHOLD, RateLimitTracker.EMERGENCY_THRESHOLD.
  destruct (Z.ltb_spec 300 r'); [lia|]. destruct (Z.ltb_spec 100 r'); [lia | reflexivity].
Qed.

Lemma allTracked_frame (st st' : RequestQueue.t) :
  queue st' = queue st -> timers st' = timers st -> allTracked st -> allTracked st'.
Proof. unfold allTracked. by intros -> ->. Qed.

Lemma bounded_executeRequest (request : RequestQueue.QueuedRequest) (st : RequestQueue.t)
    (r : Z) :
  isTracked request -> allTracked st -> atMost r (tracker st) ->
  allTracked (RequestQueue.executeRequest request st) /\
  atMost r (tracker (RequestQueue.executeRequest request st)).
Proof.
  intros [operation Hex] [Hq Ht] Hr. unfold RequestQueue.executeRequest. rewrite Hex.
  pose proof (tracked_atMost operation (RequestQueue.invoked request) (tracker st)
                (RequestQueue.now st) r Hr) as Hr'.
  destruct (tracked operation _ _ _) as [[v|e] tr]; cbn [snd] in Hr'.
  - by split.
  - destruct (RequestQueue.isRateLimitError e && _).
    + split; [|exact Hr']. split; [exact Hq|].
      cbn [RequestQueue.setTimeout snd timers RequestQueue.with_timers
           RequestQueue.with_nextHandle RequestQueue.with_tracker].
      apply Forall_app. split; [exact Ht|]. repeat constructor. cbn.
      by exists operation.
    + by split.
Qed.

Lemma bounded_processLoop (fuel maxBatch processed : nat) (st st' : RequestQueue.t) (r : Z) :
  allTracked st -> atMost r (tracker st) ->
  RequestQueue.processLoop fuel maxBatch processed st = Some st' ->
  allTracked st' /\ atMost r (tracker st').
Proof.
  revert processed st. induction fuel as [|fuel IH]; intros processed st Ha Hr; simpl;
    [discriminate|].
  destruct (queue st) as [|request rest] eqn:Hq; [by intros [= <-]|].
  destruct (processed <? maxBatch)%nat; [|by intros [= <-]].
  destruct Ha as [Hall Ht]. rewrite Hq in Hall.
  inversion Hall as [|? ? Hreq Hrest]; subst.
  destruct (negb (RateLimitTracker.shouldAllowRequest (tracker st)
                    (RequestQueue.priority request))).
  - destruct (RequestQueue.priority request);
      try (intros [= <-]; split; [split; [by rewrite Hq | exact Ht] | exact Hr]).
    apply IH; [|exact Hr]. split; [|exact Ht].
    cbn [queue RequestQueue.with_queue]. apply Forall_app. split; [exact Hrest|].
    by repeat constructor.
  - assert (Ha : allTracked (RequestQueue.with_queue rest st)) by (by split).
    destruct (bounded_executeRequest request (RequestQueue.with_queue rest st) r Hreq Ha Hr)
      as [Ha' Hr'].
    by apply IH.
Qed.

Lemma allTracked_scheduleProcessing (st : RequestQueue.t) :
  allTracked st -> allTracked (RequestQueue.scheduleProcessing st).
Proof.
  intros [Hq Ht]. unfold RequestQueue.scheduleProcessing.
  destruct (RequestQueue.batchTimer st); [by split|]. split; [exact Hq|].
  cbn [RequestQueue.setTimeout timers RequestQueue.with_timers RequestQueue.with_nextHandle
       RequestQueue.with_batchTimer].
  apply Forall_app. split; [exact Ht|]. by repeat constructor.
Qed.

Lemma scheduleProcessing_tracker (st : RequestQueue.t) :
  tracker (RequestQueue.scheduleProcessing st) = tracker st.
Proof. unfold RequestQueue.scheduleProcessing. by destruct (RequestQueue.batchTimer st). Qed.

Lemma bounded_processQueue (fuel : nat) (st st' : RequestQueue.t) (r : Z) :
  allTracked st -> atMost r (tracker st) ->
  RequestQueue.processQueue fuel st = Some st' ->
  allTracked st' /\ atMost r (tracker st').
Proof.
  intros Ha Hr. unfold RequestQueue.processQueue.
  destruct (RequestQueue.processing st || _); [by intros [= <-]|].
  destruct (RequestQueue.processLoop fuel _ 0 _) as [st2|] eqn:E; [|discriminate].
  apply (bounded_processLoop _ _ _ _ _ r) in E; [|exact Ha|exact Hr].
  destruct E as [Ha2 Hr2]. intros [= <-].
  destruct (0 <? length (queue st2))%nat.
  - split.
    + apply (allTracked_frame (RequestQueue.scheduleProcessing st2)); try reflexivity.
      by apply allTracked_scheduleProcessing.
    + cbn [tracker RequestQueue.with_processing]. by rewrite scheduleProcessing_tracker.
  - by split.
Qed.

Lemma allTracked_insert (request : RequestQueue.QueuedRequest) (st : RequestQueue.t) :
  isTracked request -> allTracked st -> allTracked (RequestQueue.insertByPriority request st).
Proof.
  intros Hreq [Hq Ht]. split; [|exact Ht].
  unfold RequestQueue.insertByPriority. cbn [queue RequestQueue.with_queue].
  rewrite <- (take_drop (RequestQueue.insertIndex
                           (RequestQueue.priorityOrder (RequestQueue.priority request))
                           (queue st)) (queue st)) in Hq.
  apply Forall_app in Hq as [H1 H2]. apply Forall_app. split; [exact H1|].
  by constructor.
Qed.

Lemma bounded_fire (fuel : nat) (tm : RequestQueue.Timer) (st st' : RequestQueue.t) (r : Z) :
  In tm (timers st) -> allTracked st -> atMost r (tracker st) ->
  RequestQueue.fire fuel tm st = Some st' ->
  allTracked st' /\ atMost r (tracker st').
Proof.
  intros Hin [Hq Ht] Hr. unfold RequestQueue.fire.
  set (st1 := RequestQueue.clearTimeout _ _).
  assert (Ha1 : allTracked st1).
  { split; [exact Hq|]. unfold st1.
    cbn [RequestQueue.clearTimeout timers RequestQueue.with_timers RequestQueue.with_now].
    rewrite List.Forall_forall in *. intros x Hx. apply Ht.
    apply List.filter_In in Hx. tauto. }
  assert (Hr1 : atMost r (tracker st1)) by exact Hr.
  destruct (RequestQueue.callback tm) as [|request|tag] eqn:Hcb.
  - apply bounded_processQueue; [|exact Hr1].
    by apply (allTracked_frame st1).
  - intros [= <-]. split.
    + apply allTracked_scheduleProcessing, allTracked_insert; [|exact Ha1].
      rewrite List.Forall_forall in Ht. specialize (Ht tm Hin). by rewrite Hcb in Ht.
    + by rewrite scheduleProcessing_tracker.
  - by intros [= <-].
Qed.

(** X22. The remaining count never recovers. While every queued request
    was made by [executeWithTracking], neither [enqueue] nor any run of
    the timer loop raises the remaining request count: it stays between 0
    and the bound it had. Once the gateway is in emergency mode it stays
    there. *)
Theorem remaining_never_recovers (st : RequestQueue.t) (r : Z) :
  allTracked st -> atMost r (tracker st) ->
  (forall operation p,
     let st' := snd (RequestQueue.enqueue (tracked operation) p st) in
     allTracked st' /\ atMost r (tracker st')) /\
  (forall n fuel st', RequestQueue.runTimers n fuel st = Some st' ->
     allTracked st' /\ atMost r (tracker st') /\
     (r <= 100 -> RateLimitTracker.getOperationMode (tracker st') = emergency)).
Proof.
  intros Ha Hr. split.
  - intros operation p. cbn zeta. unfold RequestQueue.enqueue.
    cbn [RequestQueue.newPromise snd]. split.
    + apply allTracked_scheduleProcessing, allTracked_insert.
      * by exists operation.
      * by apply (allTracked_frame st).
    + by rewrite scheduleProcessing_tracker.
  - intros n. revert st Ha Hr. induction n as [|n IH]; intros st Ha Hr fuel st'; simpl.
    { intros [= <-]. split; [exact Ha|]. split; [exact Hr|]. by apply atMost_mode. }
    destruct (RequestQueue.nextTimer st) as [tm|] eqn:Hn.
    2:{ intros [= <-]. split; [exact Ha|]. split; [exact Hr|]. by apply atMost_mode. }
    destruct (RequestQueue.fire fuel tm st) as [st1|] eqn:E; [|discriminate].
    apply (bounded_fire _ _ _ _ r) in E; [|by apply QueueProps.nextTimer_In|exact Ha|exact Hr].
    destruct E as [Ha1 Hr1]. by apply IH.
Qed.

Lemma remaining_never_recovers_witness :
  let st' := snd (RequestQueue.enqueue (tracked (fun _ => Fulfilled "ok")) normal
                    (RequestQueue.init 0 (RateLimitTracker.init 0))) in
  allTracked st' /\ atMost 1200 (tracker st').
Proof.
  apply (remaining_never_recovers (RequestQueue.init 0 (RateLimitTracker.init 0)) 1200).
  - split; constructor.
  - exists 1200. split; [reflexivity|]. split; [reflexivity | lia].
Defined.

(** *** Two tests for one error *)

(** X23. The wrapper and the queue do not test for the same errors. An
    error that the wrapper takes for a rate-limit rejection (by its status
    429, say) but whose message does not contain the words rate limit puts
    the tracker into emergency mode and is not retried: the caller's
    promise is rejected with it at once and no timer is set. *)
Theorem limit_error_without_retry (operation : nat -> RequestQueue.Outcome)
    (request : RequestQueue.QueuedRequest) (st : RequestQueue.t)
    (error : RequestQueue.Error) :
  RequestQueue.execute request = tracked operation ->
  operation (RequestQueue.invoked request) = Thrown error ->
  isLimit error = true ->
  RequestQueue.isRateLimitError error = false ->
  futures st !! RequestQueue.id request = Some Pending ->
  let st' := RequestQueue.executeRequest request st in
  RateLimitTracker.getOperationMode (tracker st') = emergency /\
  timers st' = timers st /\
  futures st' !! RequestQueue.id request = Some (Rejected error).
Proof.
  intros Hex Hop Hlim Hretry Hpend. cbn zeta.
  destruct (WrapperSpec.tracked_limit operation (RequestQueue.invoked request) (tracker st)
              (RequestQueue.now st) error Hop Hlim) as (Hr & _). cbn zeta in Hr.
  assert (Hout : RequestQueue.execute request (RequestQueue.invoked request) (tracker st)
                   (RequestQueue.now st)
                 = (Thrown error,
                    snd (tracked operation (RequestQueue.invoked request) (tracker st)
                           (RequestQueue.now st)))).
  { rewrite Hex. unfold tracked. rewrite Hop. by destruct (_ || _). }
  rewrite (QueueSpec.executeRequest_reject request st error _ Hout (or_introl Hretry)).
  split; [|split; [reflexivity|]].
  - cbn [RequestQueue.reject tracker RequestQueue.with_futures RequestQueue.with_tracker].
    unfold RateLimitTracker.getOperationMode. by rewrite Hr.
  - cbn [RequestQueue.reject futures RequestQueue.with_futures RequestQueue.with_tracker].
    by apply QueueSpec.settle_pending.
Qed.

Lemma limit_error_without_retry_witness :
  let request := RequestQueue.mkRequest 0 normal (tracked (fun _ => Thrown tooMany)) 0 0 0 in
  let st := RequestQueue.with_futures {[0%nat := Pending]}
              (RequestQueue.init 0 (RateLimitTracker.init 0)) in
  let st' := RequestQueue.executeRequest request st in
  RateLimitTracker.getOperationMode (tracker st') = emergency /\
  timers st' = timers st /\
  futures st' !! 0%nat = Some (Rejected tooMany).
Proof.
  apply (limit_error_without_retry (fun _ => Thrown tooMany)
           (RequestQueue.mkRequest 0 normal (tracked (fun _ => Thrown tooMany)) 0 0 0)
           (RequestQueue.with_futures {[0%nat := Pending]}
              (RequestQueue.init 0 (RateLimitTracker.init 0))) tooMany);
    reflexivity.
Defined.

(** *** What is batched *)

(** X24. The four tests of [shouldBatchActivity] come to one: a payload is
    batched exactly when the mode is emergency or its content type is
    thought. *)
Theorem shouldBatch_iff (input : ActivityInput) (mode : OperationMode) :
  shouldBatchActivity input mode = true <->
  mode = emergency \/ has_type input "thought" = true.
Proof.
  unfold shouldBatchActivity.
  destruct (has_type input "thought") eqn:Ht.
  - assert (Hr : has_type input "response" || has_type input "error" = false).
    { unfold has_type in *. destruct (content input) as [c|]; [|reflexivity].
      apply String.eqb_eq in Ht. by rewrite Ht. }
    rewrite Hr. destruct mode; simpl; split; auto.
  - destruct mode; simpl; destruct (has_type input "response" || has_type input "error");
      split; intros H; try discriminate; auto; destruct H; discriminate.
Qed.

(** *** The calls of a flush, one after the other *)

Lemma no_thoughts_all_others (items : list BatchItem) :
  List.filter isThought items = [] ->
  List.filter (fun i => negb (isThought i)) items = items.
Proof.
  induction items as [|item items IH]; [reflexivity|]. cbn [List.filter].
  destruct (isThought item); [discriminate|]. intros H. cbn [negb]. by rewrite IH.
Qed.

Lemma processBatchedActivities_merged
    (remote : ActivityInput -> nat -> RequestQueue.Outcome) (sessionId : string)
    (items : list BatchItem) (w : t) (t0 : BatchItem) (thoughtItems : list BatchItem) :
  activityBatch w !! sessionId = Some items ->
  List.filter isThought items = t0 :: thoughtItems ->
  let sent :=
    executeWithTracking
      (remote (mergedPayload sessionId (List.map thoughtBody (t0 :: thoughtItems))))
      "createAgentActivity" (mkInput sessionId (Some (mkContent "thought" "")))
      (mk (rq w) (delete sessionId (activityBatch w)) (batchTimers w)) in
  processBatchedActivities remote sessionId w =
  (sent.2,
   Some (mkFlush sent.1 None (List.map promise (t0 :: thoughtItems))
           (List.map promise (List.filter (fun i => negb (isThought i)) items))
           (List.filter (fun i => negb (isThought i)) items))).
Proof.
  intros Hb Hth. cbn zeta. unfold processBatchedActivities. rewrite Hb, Hth.
  destruct items as [|i0 items0]; [discriminate|]. cbn [List.map].
  by destruct (executeWithTracking _ _ _ _).
Qed.

Lemma processBatchedActivities_others
    (remote : ActivityInput -> nat -> RequestQueue.Outcome) (sessionId : string)
    (item : BatchItem) (rest : list BatchItem) (w : t) :
  activityBatch w !! sessionId = Some (item :: rest) ->
  List.filter isThought (item :: rest) = [] ->
  processBatchedActivities remote sessionId w =
  sendNext remote [] (List.map promise (item :: rest)) (item :: rest)
    (mk (rq w) (delete sessionId (activityBatch w)) (batchTimers w)).
Proof.
  intros Hb Hth. unfold processBatchedActivities.
  rewrite Hb, (no_thoughts_all_others _ Hth), Hth. reflexivity.
Qed.

(** X25. A flush hands its calls to the queue one at a time. It begins
    with the merged call of the thoughts, at low priority, or, when the
    batch holds no thought, with the call of its first entry; the batch is
    gone, and the flush keeps the callbacks of the thoughts and of the
    other entries, both in arrival order. Each time the call that it awaits
    has resolved, the callers of that call, if they are pending, are
    resolved with its result: all callers of thoughts for the merged call,
    the caller of the entry for the call of an entry; no other promise is
    settled; and the next of the other entries, in arrival order, is handed
    to the queue at the priority of its payload, or the flush ends when
    none is left. *)
Theorem flush_all_succeed (remote : ActivityInput -> nat -> RequestQueue.Outcome)
    (sessionId : string) (items : list BatchItem) (w : t) :
  activityBatch w !! sessionId = Some items ->
  items <> [] ->
  let thoughtItems := List.filter isThought items in
  let otherItems := List.filter (fun i => negb (isThought i)) items in
  let callOf (a : ActivityInput) (st : RequestQueue.t) :=
    RequestQueue.mkRequest (RequestQueue.nextId st)
      (determinePriority "createAgentActivity" a) (tracked (remote a))
      (RequestQueue.now st) 0 0 in
  let started := processBatchedActivities remote sessionId w in
  activityBatch started.1 = delete sessionId (activityBatch w) /\
  futures (rq started.1) = <[RequestQueue.nextId (rq w) := Pending]> (futures (rq w)) /\
  match thoughtItems, otherItems with
  | _ :: _, _ =>
      started.2 =
        Some (mkFlush (RequestQueue.nextId (rq w)) None (List.map promise thoughtItems)
                (List.map promise otherItems) otherItems) /\
      queue (rq started.1) =
        queue (RequestQueue.insertByPriority
                 (RequestQueue.mkRequest (RequestQueue.nextId (rq w)) low
                    (tracked (remote (mergedPayload sessionId
                                        (List.map thoughtBody thoughtItems))))
                    (RequestQueue.now (rq w)) 0 0) (rq w))
  | [], item :: rest =>
      started.2 =
        Some (mkFlush (RequestQueue.nextId (rq w)) (Some (promise item)) []
                (List.map promise otherItems) rest) /\
      queue (rq started.1) =
        queue (RequestQueue.insertByPriority (callOf (activity item) (rq w)) (rq w))
  | [], [] => False
  end /\
  forall (f : Flush) (w' : t) (result : RequestQueue.Value),
    futures (rq w') !! awaited f = Some (Resolved result) ->
    let resumed := resume remote f w' in
    let callers :=
      match current f with
      | None => thoughtCallbacks f
      | Some callback => [callback]
      end in
    (forall c, In c callers -> c <> RequestQueue.nextId (rq w') ->
       futures (rq w') !! c = Some Pending ->
       futures (rq resumed.1) !! c = Some (Resolved result)) /\
    (forall c, ~ In c callers -> c <> RequestQueue.nextId (rq w') ->
       futures (rq resumed.1) !! c = futures (rq w') !! c) /\
    match toSend f with
    | [] => resumed.2 = None /\ queue (rq resumed.1) = queue (rq w')
    | item :: rest =>
        resumed.2 =
          Some (mkFlush (RequestQueue.nextId (rq w')) (Some (promise item))
                  (thoughtCallbacks f) (otherCallbacks f) rest) /\
        queue (rq resumed.1) =
          queue (RequestQueue.insertByPriority (callOf (activity item) (rq w')) (rq w')) /\
        futures (rq resumed.1) !! RequestQueue.nextId (rq w') = Some Pending
    end.
Proof.
  intros Hb Hne. cbn zeta.
  assert (Hstart :
    let started := processBatchedActivities remote sessionId w in
    activityBatch started.1 = delete sessionId (activityBatch w) /\
    futures (rq started.1) = <[RequestQueue.nextId (rq w) := Pending]> (futures (rq w)) /\
    match List.filter isThought items, List.filter (fun i => negb (isThought i)) items with
    | _ :: _, _ =>
        started.2 =
          Some (mkFlush (RequestQueue.nextId (rq w)) None
                  (List.map promise (List.filter isThought items))
                  (List.map promise (List.filter (fun i => negb (isThought i)) items))
                  (List.filter (fun i => negb (isThought i)) items)) /\
        queue (rq started.1) =
          queue (RequestQueue.insertByPriority
                   (RequestQueue.mkRequest (RequestQueue.nextId (rq w)) low
                      (tracked (remote (mergedPayload sessionId
                                          (List.map thoughtBody
                                             (List.filter isThought items)))))
                      (RequestQueue.now (rq w)) 0 0) (rq w))
    | [], item :: rest =>
        started.2 =
          Some (mkFlush (RequestQueue.nextId (rq w)) (Some (promise item)) []
                  (List.map promise (List.filter (fun i => negb (isThought i)) items))
                  rest) /\
        queue (rq started.1) =
          queue (RequestQueue.insertByPriority
                   (RequestQueue.mkRequest (RequestQueue.nextId (rq w))
                      (determinePriority "createAgentActivity" (activity item))
                      (tracked (remote (activity item))) (RequestQueue.now (rq w)) 0 0)
                   (rq w))
    | [], [] => False
    end).
  { cbn zeta. destruct (List.filter isThought items) as [|t0 thoughtItems] eqn:Hth.
    - rewrite (no_thoughts_all_others items Hth).
      destruct items as [|item rest]; [done|].
      rewrite (processBatchedActivities_others remote sessionId item rest w Hb Hth).
      destruct (WrapperSpec.sendNext_spec remote [] (List.map promise (item :: rest))
                  item rest
                  (mk (rq w) (delete sessionId (activityBatch w)) (batchTimers w)))
        as (Hfl & Hbatch & _ & Hf & Hq).
      cbn zeta in Hfl, Hbatch, Hf, Hq. by repeat split.
    - rewrite (processBatchedActivities_merged remote sessionId items w t0 thoughtItems
                 Hb Hth).
      destruct (WrapperSpec.executeWithTracking_spec
                  (remote (mergedPayload sessionId
                             (List.map thoughtBody (t0 :: thoughtItems))))
                  "createAgentActivity"
                  (mkInput sessionId (Some (mkContent "thought" "")))
                  (mk (rq w) (delete sessionId (activityBatch w)) (batchTimers w)))
        as (Hp & Hbatch & _ & Hf & Hq).
      cbn zeta in Hp, Hbatch, Hf, Hq. cbn [fst snd]. rewrite Hp in *.
      by repeat split. }
  cbn zeta in Hstart. destruct Hstart as (H1 & H2 & H3).
  split; [exact H1|]. split; [exact H2|]. split; [exact H3|]. clear H1 H2 H3.
  intros f w' result Haw. cbn zeta.
  {
    rewrite (WrapperSpec.resume_resolved remote f w' result Haw).
    set (callers := match current f with None => thoughtCallbacks f | Some c => [c] end).
    set (fs' := match current f with
                | None => resolveAll (thoughtCallbacks f) result (futures (rq w'))
                | Some c => RequestQueue.settle c (Resolved result) (futures (rq w'))
                end).
    assert (Hfs : fs' = fold_left (fun m c => RequestQueue.settle c (Resolved result) m)
                          callers (futures (rq w')))
      by (unfold fs', callers; by destruct (current f)).
    set (w1 := with_rq (RequestQueue.with_futures fs' (rq w')) w').
    assert (Hin : forall c, In c callers -> futures (rq w') !! c = Some Pending ->
                            fs' !! c = Some (Resolved result)).
    { intros c Hc Hp. rewrite Hfs. by apply WrapperSpec.settleAll_in. }
    assert (Hout : forall c, ~ In c callers -> fs' !! c = futures (rq w') !! c).
    { intros c Hc. rewrite Hfs. by apply WrapperSpec.settleAll_notin. }
    destruct (toSend f) as [|item rest].
    + cbn [sendNext fst snd]. split; [|split; [|by split]].
      * intros c Hc _ Hp. by apply Hin.
      * intros c Hc _. by apply Hout.
    + destruct (WrapperSpec.sendNext_spec remote (thoughtCallbacks f) (otherCallbacks f)
                  item rest w1) as (Hfl & _ & _ & Hf & Hq).
      cbn zeta in Hfl, Hf, Hq.
      change (RequestQueue.nextId (rq w1)) with (RequestQueue.nextId (rq w')) in *.
      change (futures (rq w1)) with fs' in Hf.
      split; [|split; [|split; [|split]]].
      * intros c Hc Hne' Hp. rewrite Hf, lookup_insert_ne by done. by apply Hin.
      * intros c Hc Hne'. rewrite Hf, lookup_insert_ne by done. by apply Hout.
      * exact Hfl.
      * exact Hq.
      * rewrite Hf. apply lookup_insert_eq.
  }
Qed.

(** X25 on the batch of [Scenario.mixedBatch], a thought and a response:
    the merged call is queued first; when it has resolved, the caller of
    the thought has its result and the response is queued. *)
Lemma flush_all_succeed_witness :
  let started := processBatchedActivities Scenario.alwaysOk "s" Scenario.mixedBatch in
  let f := mkFlush 2 None [0%nat] [1%nat] [mkItem (Scenario.response "s" "done") 1] in
  let w' := with_rq (RequestQueue.resolve 2 "ok" (rq started.1)) started.1 in
  let resumed := resume Scenario.alwaysOk f w' in
  started.2 = Some f /\
  List.map RequestQueue.priority (queue (rq started.1)) = [low] /\
  futures (rq resumed.1) !! 0%nat = Some (Resolved "ok") /\
  futures (rq resumed.1) !! 1%nat = Some Pending /\
  resumed.2 = Some (mkFlush 3 (Some 1%nat) [0%nat] [1%nat] []) /\
  List.map RequestQueue.priority (queue (rq resumed.1)) = [normal; low].
Proof.
  destruct (flush_all_succeed Scenario.alwaysOk "s"
              [mkItem (Scenario.thought "s" "a") 0; mkItem (Scenario.response "s" "done") 1]
              Scenario.mixedBatch eq_refl ltac:(discriminate))
    as (_ & _ & (Hstart & Hq) & Hstep).
  cbn zeta.
  destruct (Hstep (mkFlush 2 None [0%nat] [1%nat] [mkItem (Scenario.response "s" "done") 1])
              (with_rq (RequestQueue.resolve 2 "ok"
                          (rq (processBatchedActivities Scenario.alwaysOk "s"
                                 Scenario.mixedBatch).1))
                 (processBatchedActivities Scenario.alwaysOk "s" Scenario.mixedBatch).1)
              "ok" eq_refl) as (Hin & Hout & Hfl & Hq' & _).
  split; [exact Hstart|]. split; [by rewrite Hq|].
  split; [apply Hin; [by left | discriminate | reflexivity]|].
  split; [rewrite Hout; [reflexivity | intros [H|[]]; discriminate | discriminate]|].
  split; [exact Hfl|]. by rewrite Hq'.
Defined.

(** X26. When the call that a flush awaits is rejected, the flush ends.
    Every callback of its batch that is still pending is rejected with the
    error: those of the thoughts, if the merged call failed, and those of
    the entry whose call failed and of the entries that were not sent yet.
    A promise that was settled before keeps what it was given, so that the
    callers of the thoughts and of the entries sent before keep their
    results. No other promise is touched, and nothing more is handed to the
    queue: the entries after the failing one are not sent. *)
Theorem flush_send_failure (remote : ActivityInput -> nat -> RequestQueue.Outcome)
    (f : Flush) (w : t) (error : RequestQueue.Error) :
  futures (rq w) !! awaited f = Some (Rejected error) ->
  let resumed := resume remote f w in
  resumed.2 = None /\
  queue (rq resumed.1) = queue (rq w) /\
  timers (rq resumed.1) = timers (rq w) /\
  RequestQueue.nextId (rq resumed.1) = RequestQueue.nextId (rq w) /\
  (forall c, In c (thoughtCallbacks f ++ otherCallbacks f) ->
     futures (rq w) !! c = Some Pending ->
     futures (rq resumed.1) !! c = Some (Rejected error)) /\
  (forall c g, futures (rq w) !! c = Some g -> g <> Pending ->
     futures (rq resumed.1) !! c = Some g) /\
  (forall c, ~ In c (thoughtCallbacks f ++ otherCallbacks f) ->
     futures (rq resumed.1) !! c = futures (rq w) !! c).
Proof.
  intros Haw. cbn zeta. rewrite (WrapperSpec.resume_rejected remote f w error Haw).
  cbn [fst snd rq with_rq queue timers futures RequestQueue.nextId
       RequestQueue.with_futures].
  split; [reflexivity|]. split; [reflexivity|]. split; [reflexivity|].
  split; [reflexivity|]. unfold rejectAll. split; [|split].
  - intros c Hc Hp. by apply WrapperSpec.settleAll_in.
  - intros c g Hc Hg. by apply WrapperSpec.settleAll_settled.
  - intros c Hc. by apply WrapperSpec.settleAll_notin.
Qed.

(** X26 on the flush of [Scenario.mixedBatch] once the response, sent
    after the merged call had resolved, is rejected: the caller of the
    thought keeps its result and the caller of the response is rejected. *)
Lemma flush_send_failure_witness :
  let started := processBatchedActivities Scenario.alwaysOk "s" Scenario.mixedBatch in
  let w1 := with_rq (RequestQueue.resolve 2 "ok" (rq started.1)) started.1 in
  let sent := (resume Scenario.alwaysOk
                 (mkFlush 2 None [0%nat] [1%nat] [mkItem (Scenario.response "s" "done") 1])
                 w1).1 in
  let w2 := with_rq (RequestQueue.reject 3 Scenario.regular (rq sent)) sent in
  let resumed := resume Scenario.alwaysOk (mkFlush 3 (Some 1%nat) [0%nat] [1%nat] []) w2 in
  resumed.2 = None /\
  futures (rq resumed.1) !! 0%nat = Some (Resolved "ok") /\
  futures (rq resumed.1) !! 1%nat = Some (Rejected Scenario.regular) /\
  queue (rq resumed.1) = queue (rq w2).
Proof.
  cbn zeta.
  set (w2 := with_rq (RequestQueue.reject 3 Scenario.regular _) _).
  destruct (flush_send_failure Scenario.alwaysOk
              (mkFlush 3 (Some 1%nat) [0%nat] [1%nat] []) w2 Scenario.regular eq_refl)
    as (Hend & Hq & _ & _ & Hrej & Hkeep & _).
  split; [exact Hend|].
  split; [apply Hkeep; [reflexivity | discriminate]|].
  split; [apply Hrej; [right; by left | reflexivity]|]. exact Hq.
Defined.

(** *** cleanup *)

(** X27. [cleanup] cancels the flush timers that the wrapper holds and
    drops every batch, and nothing else: no promise is settled, so the
    callers of the dropped entries are never answered; the queue and the
    timers that the wrapper does not hold are left as they are. *)
Theorem cleanup_abandons (w : t) :
  activityBatch (cleanup w) = ∅ /\
  batchTimers (cleanup w) = ∅ /\
  futures (rq (cleanup w)) = futures (rq w) /\
  queue (rq (cleanup w)) = queue (rq w) /\
  RequestQueue.batchTimer (rq (cleanup w)) = RequestQueue.batchTimer (rq w) /\
  (forall tm, In tm (timers (rq (cleanup w))) <->
     In tm (timers (rq w)) /\ forall s, batchTimers w !! s <> Some (RequestQueue.handle tm)).
Proof.
  unfold cleanup. cbn [activityBatch batchTimers rq].
  split; [reflexivity|]. split; [reflexivity|].
  apply (map_fold_weak_ind
           (fun q (m : gmap string nat) =>
              futures q = futures (rq w) /\
              queue q = queue (rq w) /\
              RequestQueue.batchTimer q = RequestQueue.batchTimer (rq w) /\
              forall tm, In tm (timers q) <->
                In tm (timers (rq w)) /\ forall s, m !! s <> Some (RequestQueue.handle tm))).
  - repeat split; try tauto. intros s. by rewrite lookup_empty.
  - intros i h m q Hi (Hf & Hq & Hb & Ht). split; [exact Hf|]. split; [exact Hq|].
    split; [exact Hb|]. intros tm.
    cbn [RequestQueue.clearTimeout timers RequestQueue.with_timers].
    rewrite List.filter_In, Ht. split.
    + intros [[Hin Hm] Hh]. split; [exact Hin|]. intros s.
      destruct (decide (s = i)) as [->|Hne].
      * rewrite lookup_insert_eq. intros [= ->]. by rewrite Nat.eqb_refl in Hh.
      * rewrite lookup_insert_ne by done. apply Hm.
    + intros [Hin Hm]. split; [split; [exact Hin|]|].
      * intros s E. destruct (decide (s = i)) as [->|Hne]; [congruence|].
        apply (Hm s). by rewrite lookup_insert_ne.
      * destruct (Nat.eqb_spec (RequestQueue.handle tm) h) as [E|]; [|reflexivity].
        destruct (Hm i). by rewrite lookup_insert_eq, E.
Qed.

(** *** Reading an issue *)

Lemma get_miss_later (issueId : string) (t1 t2 : Z) (c : IssueCache.t) :
  t1 <= t2 ->
  fst (IssueCache.get issueId false t1 c) = None ->
  fst (IssueCache.get issueId false t2 (snd (IssueCache.get issueId false t1 c))) = None.
Proof.
  intros Hle. unfold IssueCache.get at 1 3.
  destruct (IssueCache.lookup issueId c) as [e|] eqn:E.
  - cbn [andb].
    destruct (Z.leb_spec (t1 - IssueCache.timestamp e) (IssueCache.ttl e)) as [|Hgt];
      [discriminate|].
    intros _. cbn [snd]. unfold IssueCache.get.
    rewrite (CacheSpec.lookup_store_same issueId e _ c E).
    cbn [IssueCache.touch IssueCache.timestamp IssueCache.ttl andb].
    destruct (Z.leb_spec (t2 - IssueCache.timestamp e) (IssueCache.ttl e)); [lia|reflexivity].
  - intros _. cbn [snd]. unfold IssueCache.get. by rewrite E.
Qed.

Lemma determinePriorityIssue_miss (issueId : string) (now : Z) (c : IssueCache.t) :
  issueId <> "" ->
  fst (IssueCache.get issueId false now c) = None ->
  determinePriorityIssue issueId now c = (critical, snd (IssueCache.get issueId false now c)).
Proof.
  intros Hne Hmiss. unfold determinePriorityIssue.
  destruct (String.eqb_spec issueId ""); [contradiction|].
  destruct (IssueCache.get issueId false now c) as [[i|] c']; [discriminate|reflexivity].
Qed.

(** The synchronous part of [issue] after a miss. *)
Lemma issueBefore_miss (issueId : string) (k : Clock) (tr : RateLimitTracker.t)
    (c : IssueCache.t) :
  issueId <> "" -> inOrder k ->
  fst (IssueCache.get issueId false (atGet k) c) = None ->
  issueBefore issueId k tr c =
  (Fetch critical,
   snd (IssueCache.get issueId false (atEnqueue k)
          (snd (IssueCache.get issueId false (atPriority k)
                  (snd (IssueCache.get issueId false (atGet k) c)))))).
Proof.
  intros Hne (H12 & H23 & H34) Hmiss. unfold issueBefore.
  pose proof (get_miss_later issueId (atGet k) (atPriority k) c H12 Hmiss) as Hmiss2.
  destruct (IssueCache.get issueId false (atGet k) c) as [[i|] c1]; [discriminate|].
  cbn [snd] in Hmiss2 |- *.
  rewrite (determinePriorityIssue_miss issueId (atPriority k) c1 Hne Hmiss2).
  cbn [andb].
  rewrite (determinePriorityIssue_miss issueId (atEnqueue k) _ Hne); [reflexivity|].
  apply get_miss_later; [lia | exact Hmiss2].
Qed.

(** X28. For a non-empty issue id, [issue] answers from the cache exactly
    when the entry is fresh; otherwise it queues a fetch, always at
    critical priority and whatever the tracker says: stale data is never
    returned before the fetch. On the way the expired entry, if there is
    one, is read three times. *)
Theorem issue_fresh_or_critical (issueId : string) (k : Clock) (tr : RateLimitTracker.t)
    (c : IssueCache.t) :
  issueId <> "" -> inOrder k ->
  fst (issueBefore issueId k tr c) =
    match fst (IssueCache.get issueId false (atGet k) c) with
    | Some i => Cached i
    | None => Fetch critical
    end /\
  (forall e, IssueCache.lookup issueId c = Some e ->
     fst (IssueCache.get issueId false (atGet k) c) = None ->
     option_map IssueCache.accessCount
       (IssueCache.lookup issueId (snd (issueBefore issueId k tr c)))
     = Some (IssueCache.accessCount e + 3)).
Proof.
  intros Hne Hk. split.
  - destruct (fst (IssueCache.get issueId false (atGet k) c)) as [i|] eqn:G.
    + unfold issueBefore.
      destruct (IssueCache.get issueId false (atGet k) c) as [[j|] c1]; [|discriminate].
      cbn in G |- *. congruence.
    + by rewrite issueBefore_miss.
  - intros e He Hmiss. rewrite issueBefore_miss by done. cbn [snd].
    rewrite (CacheSpec.get_entry issueId false (atEnqueue k) _
               (IssueCache.touch (atPriority k) (IssueCache.touch (atGet k) e))).
    + cbn. f_equal. lia.
    + apply CacheSpec.get_entry. by apply CacheSpec.get_entry.
Qed.

Lemma issue_fresh_or_critical_witness :
  fst (issueBefore "k" (still expiredAt) (Scenario.trackerAt "50") Scenario.oneEntry)
  = Fetch critical.
Proof.
  apply (issue_fresh_or_critical "k" (still expiredAt) (Scenario.trackerAt "50")
           Scenario.oneEntry); [discriminate|].
  unfold inOrder. cbn. lia.
Defined.

(** X29. After the fetch. A fetched issue is stored, so that for the next
    ten minutes [issue] answers from the cache without a fetch. When the
    fetch fails, [issue] returns the cached issue if there is one that is
    at most an hour old, and otherwise throws the error of the fetch. *)
Theorem issue_after_fetch (issueId : string) (now : Z) (c : IssueCache.t) :
  IssueCache.tiered c ->
  (length c <= IssueCache.MAX_CACHE_SIZE)%nat ->
  CacheMore.accessedBy now c ->
  (forall i k tr,
     atGet k - now <= IssueCache.DEFAULT_TTL ->
     fst (issueBefore issueId k tr (snd (issueAfter issueId (Got (Some i)) now c)))
     = Cached i) /\
  (forall error,
     fst (issueAfter issueId (Failed error) now c) =
     match IssueCache.lookup issueId c with
     | Some e =>
         if now - IssueCache.timestamp e <=? IssueCache.STALE_TTL
         then Return (Some (IssueCache.issue e))
         else Throw error
     | None => Throw error
     end).
Proof.
  intros Htier Hlen Hacc. split.
  - intros i k tr Hage. cbn [issueAfter snd]. unfold issueBefore, IssueCache.get.
    rewrite (CacheProps.set_lookup issueId i now c Hlen Hacc).
    cbn [IssueCache.timestamp IssueCache.ttl IssueCache.issue].
    set (tier := match IssueCache.lookup issueId c with
                 | Some e => if 5 <? IssueCache.accessCount e
                             then IssueCache.EXTENDED_TTL else IssueCache.DEFAULT_TTL
                 | None => IssueCache.DEFAULT_TTL
                 end).
    assert (Ht : IssueCache.DEFAULT_TTL <= tier).
    { unfold tier, IssueCache.DEFAULT_TTL, IssueCache.EXTENDED_TTL.
      destruct (IssueCache.lookup issueId c) as [e|];
        [destruct (5 <? IssueCache.accessCount e)|]; lia. }
    destruct (Z.leb_spec (atGet k - now) tier); [reflexivity | lia].
  - intros error. unfold issueAfter, IssueCache.get.
    destruct (IssueCache.lookup issueId c) as [e|] eqn:E; [|reflexivity].
    pose proof (CacheSpec.lookup_tiered issueId e c Htier E) as Hte.
    unfold IssueCache.DEFAULT_TTL, IssueCache.EXTENDED_TTL, IssueCache.STALE_TTL in *.
    cbn [andb].
    destruct (Z.leb_spec (now - IssueCache.timestamp e) (IssueCache.ttl e)),
             (Z.leb_spec (now - IssueCache.timestamp e) 3600000);
      try reflexivity; lia.
Qed.

Lemma issue_after_fetch_witness :
  fst (issueAfter "k" (Failed Scenario.regular) expiredAt Scenario.oneEntry)
  = Return (Some Scenario.anIssue).
Proof.
  apply (issue_after_fetch "k" expiredAt Scenario.oneEntry).
  - repeat constructor.
  - simpl. unfold IssueCache.MAX_CACHE_SIZE. lia.
  - repeat constructor. simpl. unfold expiredAt. lia.
Defined.

Lemma get_absent (issueId : string) (allowStale : bool) (now : Z) (c : IssueCache.t) :
  IssueCache.lookup issueId c = None -> IssueCache.get issueId allowStale now c = (None, c).
Proof. intros H. unfold IssueCache.get. by rewrite H. Qed.

Lemma issueBefore_absent (issueId : string) (k : Clock) (tr : RateLimitTracker.t)
    (c : IssueCache.t) :
  issueId <> "" -> IssueCache.lookup issueId c = None ->
  issueBefore issueId k tr c = (Fetch critical, c).
Proof.
  intros Hne Hgone.
  assert (Hp : forall now, determinePriorityIssue issueId now c = (critical, c)).
  { intros now. unfold determinePriorityIssue.
    destruct (String.eqb_spec issueId ""); [contradiction|]. by rewrite get_absent. }
  unfold issueBefore. rewrite get_absent by exact Hgone. rewrite Hp. cbn [andb].
  by rewrite Hp.
Qed.

(** X30. [updateIssue] forgets the cached issue before its call is even
    queued: whatever becomes of the update, the next [issue] for that id
    misses and fetches at critical priority. The other entries are kept,
    and the update itself is queued at normal priority. *)
Theorem update_forces_refetch (operation : nat -> RequestQueue.Outcome)
    (issueId : string) (w : t) (c : IssueCache.t) (k : Clock) (tr : RateLimitTracker.t) :
  issueId <> "" -> List.NoDup (CacheMore.keys c) ->
  let r := updateIssue operation issueId w c in
  issueBefore issueId k tr r.2 = (Fetch critical, r.2) /\
  (forall key, key <> issueId -> IssueCache.lookup key r.2 = IssueCache.lookup key c) /\
  In (RequestQueue.mkRequest r.1.1 normal (tracked operation) (RequestQueue.now (rq w)) 0 0)
     (queue (rq r.1.2)).
Proof.
  intros Hne Hnd. cbn zeta.
  pose proof (WrapperSpec.executeWithTracking_spec operation "updateIssue"
                (mkInput "" None) w) as Hx. cbn zeta in Hx.
  unfold updateIssue.
  destruct (executeWithTracking operation "updateIssue" (mkInput "" None) w) as [p w'].
  cbn [fst snd] in Hx |- *. destruct Hx as (_ & _ & _ & _ & Hq).
  pose proof (CacheProps.lookup_delete_same issueId c Hnd) as Hgone.
  split; [|split].
  - by apply issueBefore_absent.
  - intros key Hk. by apply CacheProps.lookup_delete_other.
  - rewrite Hq. apply QueueSpec.insertByPriority_In.
Qed.

Lemma update_forces_refetch_witness :
  issueBefore "k" (still 1) (Scenario.trackerAt "50")
    (updateIssue (fun _ => Thrown Scenario.regular) "k"
       (LinearClientWrapper.init 0 (RateLimitTracker.init 0)) Scenario.oneEntry).2
  = (Fetch critical, []).
Proof.
  apply (update_forces_refetch (fun _ => Thrown Scenario.regular) "k"
           (LinearClientWrapper.init 0 (RateLimitTracker.init 0)) Scenario.oneEntry
           (still 1) (Scenario.trackerAt "50")); [discriminate|].
  vm_compute. repeat constructor. tauto.
Defined.

End WrapperProps.

(* ===================================================================== *)
(** ** The gateway in the hands of its callers *)
(* ===================================================================== *)

Module GatewaySpec.
Import RequestQueue (futures, queue, tracker, timers, Pending, Resolved, Rejected,
                     Fulfilled, Thrown).
Import LinearClientWrapper WrapperMore GatewayMore.

(** *** What a timer of the queue does to the promises *)


















(** *** The invariant of the gateway *)



(** *** The actions of the callers *)














(** *** The flush timer *)




(** *** The timers of the queue and the suspended flushes *)








(** *** The invariant in the timer loop *)






(** *** Failures and the promises *)










(** The run behind it: the merged call and its three callers are rejected
    with the error of the remote call, and nothing is left to do. *)
Lemma merged_call_fails :
  List.map (fun p => futures (rq (Gateway.wrapper beforeFailure)) !! p) [0; 1; 2; 3]%nat =
    [Some Pending; Some Pending; Some Pending; Some Pending] /\
  Gateway.flushes beforeFailure = [mkFlush 3 None [0; 1; 2]%nat [] []] /\
  List.map (fun p => futures (rq (Gateway.wrapper afterFailure)) !! p) [0; 1; 2; 3]%nat =
    [Some (Rejected Scenario.regular); Some (Rejected Scenario.regular);
     Some (Rejected Scenario.regular); Some (Rejected Scenario.regular)] /\
  Gateway.flushes afterFailure = [].
Proof. vm_compute. by repeat split. Qed.

End GatewaySpec.
